(** * The web connector of openclaw: echo guard, batching, heartbeats,
      delivery and the reconnect loop

    A shallow embedding of the provider code that [monitorWebProvider],
    [runWebHeartbeatOnce], [deliverWebReply], [getSessionSnapshot] and
    [stripHeartbeatToken] make up, followed by the properties the
    specification states about them.

    Conventions of the embedding.
    - A JavaScript string is a [string]: a sequence of 8-bit code units.
      Code units above 255 (among them the line terminators U+2028 and
      U+2029) are outside the model.
    - An optional field [f?: T] is an [option T]; a string is truthy when
      it is present and not empty.
    - Effects are threaded through a [World]: what was sent, logged and
      resolved is appended to its [trace]; the session store file, the
      command queue depth and the closure variables of the monitor are
      fields of it.  A call that may throw returns a [Result].
    - Collaborators that live in other modules (the reply resolver, media
      loading, the socket, the session-key derivation, the backoff
      formula) are fields of one [Collaborators] record.

    The second part embeds the two-factor code the same way: base32 and
    the one-time codes of [totp.ts], the store of [totp-store.ts], the
    message gate [checkTotpGate] and the tool gate
    [wrapToolsWithTotpGate]. *)

From Stdlib Require Import String Ascii ZArith List Bool Arith Lia Sorted Permutation DecimalString.
From stdpp Require Import base strings gmap.

Import ListNotations.
Local Open Scope string_scope.
Local Open Scope list_scope.

(** ** JavaScript strings *)

Module Js.

(** [LineTerminator] of the regular-expression grammar, restricted to
    8-bit code units: LF and CR.  [.] without the [s] flag matches every
    code unit but these. *)
Definition isLineTerminator (c : ascii) : bool :=
  (nat_of_ascii c =? 10)%nat || (nat_of_ascii c =? 13)%nat.

(** The characters [String.prototype.trim] strips, restricted to 8-bit
    code units: TAB, LF, VT, FF, CR, SP and NBSP. *)
Definition isWhiteSpace (c : ascii) : bool :=
  let n := nat_of_ascii c in
  ((9 <=? n)%nat && (n <=? 13)%nat) || (n =? 32)%nat || (n =? 160)%nat.

Fixpoint trimStart (s : string) : string :=
  match s with
  | EmptyString => EmptyString
  | String c s' => if isWhiteSpace c then trimStart s' else s
  end.

Fixpoint trimEnd (s : string) : string :=
  match s with
  | EmptyString => EmptyString
  | String c s' =>
      match trimEnd s' with
      | EmptyString => if isWhiteSpace c then EmptyString else String c EmptyString
      | t => String c t
      end
  end.

Definition trim (s : string) : string := trimEnd (trimStart s).

(** [s.replaceAll(tok, "")]: every occurrence of [tok], found left to
    right without overlap, is dropped.  [skip] counts the code units of
    an occurrence that are still to be passed over. *)
Fixpoint removeAllFrom (tok : string) (skip : nat) (s : string) : string :=
  match s with
  | EmptyString => EmptyString
  | String c s' =>
      match skip with
      | S k => removeAllFrom tok k s'
      | O =>
          if String.prefix tok s
          then removeAllFrom tok (String.length tok - 1) s'
          else String c (removeAllFrom tok 0 s')
      end
  end.

Definition replaceAllWithEmpty (tok s : string) : string := removeAllFrom tok 0 s.

Definition startsWith (s pre : string) : bool := String.prefix pre s.

(** Truthiness of a string and of an optional string. *)
Definition truthy (s : string) : bool := negb (String.eqb s "").

Definition truthyOpt (o : option string) : bool :=
  match o with
  | Some s => truthy s
  | None => false
  end.

(** [o || ""] *)
Definition orEmpty (o : option string) : string :=
  match o with
  | Some s => s
  | None => ""
  end.

(** [xs.join(sep)] *)
Fixpoint join (sep : string) (xs : list string) : string :=
  match xs with
  | [] => ""
  | [x] => x
  | x :: rest => x +:+ sep +:+ join sep rest
  end.

(** The longest prefix of [s] of at most [n] code units none of which is
    a line terminator, and what follows it: one greedy attempt of
    [.{1,n}] at the start of [s] (the attempt fails when the prefix is
    empty). *)
Fixpoint takeDots (n : nat) (s : string) : string * string :=
  match n, s with
  | S n', String c s' =>
      if isLineTerminator c then (EmptyString, s)
      else let (p, r) := takeDots n' s' in (String c p, r)
  | _, _ => (EmptyString, s)
  end.

(** [s.match(new RegExp(`.{1,${n}}`, "g"))]: the matcher is tried at the
    current index; a match is collected and the scan resumes after it,
    a failure moves the index one code unit on.  Every round consumes a
    code unit, so [String.length s] rounds exhaust [s]. *)
Fixpoint matchDotsFrom (n fuel : nat) (s : string) : list string :=
  match fuel with
  | O => []
  | S fuel' =>
      match s with
      | EmptyString => []
      | String _ s' =>
          match takeDots n s with
          | (EmptyString, _) => matchDotsFrom n fuel' s'
          | (p, r) => p :: matchDotsFrom n fuel' r
          end
      end
  end.

Definition matchDots (n : nat) (s : string) : list string :=
  matchDotsFrom n (String.length s) s.

(** The text with its line terminators taken out. *)
Fixpoint dropLineTerminators (s : string) : string :=
  match s with
  | EmptyString => EmptyString
  | String c s' =>
      if isLineTerminator c then dropLineTerminators s'
      else String c (dropLineTerminators s')
  end.

Definition LF : string := String (ascii_of_nat 10) EmptyString.

Fixpoint concat (xs : list string) : string :=
  match xs with
  | [] => ""
  | x :: rest => x +:+ concat rest
  end.

End Js.

(** ** Heartbeat token *)

Definition WEB_TEXT_LIMIT : nat := 4000.
Definition DEFAULT_REPLY_HEARTBEAT_MINUTES : Z := 30.
Definition HEARTBEAT_TOKEN : string := "HEARTBEAT_OK".
Definition HEARTBEAT_PROMPT : string := "HEARTBEAT ultrathink".

Record Stripped := mkStripped { shouldSkip : bool; strippedText : string }.

Definition stripHeartbeatToken (raw : option string) : Stripped :=
  if negb (Js.truthyOpt raw) then mkStripped true ""
  else
    let trimmed := Js.trim (Js.orEmpty raw) in
    if negb (Js.truthy trimmed) then mkStripped true ""
    else if String.eqb trimmed HEARTBEAT_TOKEN then mkStripped true ""
    else
      let withoutToken := Js.trim (Js.replaceAllWithEmpty HEARTBEAT_TOKEN trimmed) in
      mkStripped (String.length withoutToken =? 0)%nat
                 (if Js.truthy withoutToken then withoutToken else trimmed).

(** ** Data model *)

Record WebInboundMsg := mkMsg {
  msg_from : string;
  msg_to : string;
  msg_body : string;
  msg_timestamp : option Z;
  msg_id : option string;
  msg_mediaPath : option string;
  msg_mediaUrl : option string;
  msg_mediaType : option string
}.

Record ReplyPayload := mkPayload {
  text : option string;
  mediaUrl : option string;
  mediaUrls : option (list string)
}.

(** What the resolver is called with. *)
Record ReplyCtx := mkCtx {
  Body : string;
  From : string;
  To : string;
  MessageSid : option string;
  MediaPath : option string;
  MediaUrl : option string;
  MediaType : option string
}.

(** What the resolver returns: nothing, one payload or an array. *)
Inductive ResolverReply :=
| RNull
| ROne (p : ReplyPayload)
| RMany (ps : list ReplyPayload).

Record SessionEntry := mkEntry { sessionId : string; updatedAt : Z }.

(** The session store is a JSON object: keys in insertion order, one
    entry per key. *)
Definition SessionStore := list (string * SessionEntry).

Fixpoint storeGet (store : SessionStore) (key : string) : option SessionEntry :=
  match store with
  | [] => None
  | (k, e) :: rest => if String.eqb k key then Some e else storeGet rest key
  end.

(** [store[key] = e]: an existing key keeps its place. *)
Fixpoint storeSet (store : SessionStore) (key : string) (e : SessionEntry) : SessionStore :=
  match store with
  | [] => [(key, e)]
  | (k, e0) :: rest =>
      if String.eqb k key then (k, e) :: rest else (k, e0) :: storeSet rest key e
  end.

Inductive MediaKind := KImage | KAudio | KVideo | KDocument.

Record WebMedia := mkMedia { kind : MediaKind; bufferLength : Z; contentType : option string }.

Record PendingBatch := mkBatch { messages : list WebInboundMsg; timer : bool }.

Inductive CloseReason :=
| Aborted
| Closed (status : option Z) (isLoggedOut : bool).

(** The lines [runtime.error] shows to the user. *)
Inductive UserNotice :=
| NoticeLoggedOut
| NoticeGiveUp (status : option Z) (maxAttempts : Z)
| NoticeRetry (status : option Z) (attempt maxAttempts delayMs : Z).

(** What the connector does that the outside can observe. *)
Inductive Event :=
| EConnect
| ECloseListener
| ESleep (ms : Z)
| ERuntimeError (n : UserNotice)
| EResolve (ctx : ReplyCtx)
| EReply (to body : string)
| ESendMedia (to : string) (k : MediaKind) (url : string) (caption : option string)
| ESend (to body : string)
| EIpcSend (to body : string)
| ESetTimeout (sender : string) (ms : Z)
| ELog (line : string).

Record SessionConfig := mkSessionConfig {
  scope : option string;
  idleMinutes : option Z;
  heartbeatIdleMinutes : option Z
}.

Record Config := mkConfig {
  session : SessionConfig;
  messagePrefix : option string;
  allowFrom : list string;
  responsePrefix : option string;
  replyMode : option string;
  heartbeatMinutes : option Z
}.

(** *** The world *)

Record World := mkWorld {
  trace : list Event;
  disk : SessionStore;
  queueSize : nat;
  recentlySent : list string;
  pendingBatches : gmap string PendingBatch;
  lastInboundMsg : option WebInboundMsg;
  handledMessages : nat;
  lastMessageAt : option Z
}.

Definition withTrace (t : list Event) (w : World) : World :=
  mkWorld t (disk w) (queueSize w) (recentlySent w) (pendingBatches w)
          (lastInboundMsg w) (handledMessages w) (lastMessageAt w).

Definition withDisk (d : SessionStore) (w : World) : World :=
  mkWorld (trace w) d (queueSize w) (recentlySent w) (pendingBatches w)
          (lastInboundMsg w) (handledMessages w) (lastMessageAt w).

Definition withQueueSize (n : nat) (w : World) : World :=
  mkWorld (trace w) (disk w) n (recentlySent w) (pendingBatches w)
          (lastInboundMsg w) (handledMessages w) (lastMessageAt w).

Definition withRecentlySent (g : list string) (w : World) : World :=
  mkWorld (trace w) (disk w) (queueSize w) g (pendingBatches w)
          (lastInboundMsg w) (handledMessages w) (lastMessageAt w).

Definition withPendingBatches (b : gmap string PendingBatch) (w : World) : World :=
  mkWorld (trace w) (disk w) (queueSize w) (recentlySent w) b
          (lastInboundMsg w) (handledMessages w) (lastMessageAt w).

(** The bookkeeping at the head of [onMessage]. *)
Definition noteInbound (m : WebInboundMsg) (now : Z) (w : World) : World :=
  mkWorld (trace w) (disk w) (queueSize w) (recentlySent w) (pendingBatches w)
          (Some m) (S (handledMessages w)) (Some now).

(** A fresh connection: the variables declared inside the loop body
    start over, the echo guard and the store do not. *)
Definition freshConnection (w : World) : World :=
  mkWorld (trace w) (disk w) (queueSize w) (recentlySent w) ∅ None 0 None.

Definition emptyWorld : World := mkWorld [] [] 0 [] ∅ None 0 None.

(** *** Computations that may throw *)

Inductive Result (A : Type) :=
| Ok (a : A)
| Threw (err : string).
Arguments Ok {A} a.
Arguments Threw {A} err.

Definition M (A : Type) : Type := World -> Result A * World.

Definition ret {A} (a : A) : M A := fun w => (Ok a, w).

Definition bind {A B} (m : M A) (k : A -> M B) : M B :=
  fun w =>
    match m w with
    | (Ok a, w') => k a w'
    | (Threw e, w') => (Threw e, w')
    end.

Definition throw {A} (err : string) : M A := fun w => (Threw err, w).

(** [try { body } catch (err) { handler(err) }] *)
Definition tryCatch {A} (body : M A) (handler : string -> M A) : M A :=
  fun w =>
    match body w with
    | (Ok a, w') => (Ok a, w')
    | (Threw e, w') => handler e w'
    end.

Definition emit (e : Event) : M unit :=
  fun w => (Ok tt, withTrace (trace w ++ [e]) w).

Definition gets {A} (f : World -> A) : M A := fun w => (Ok (f w), w).

Definition modify (f : World -> World) : M unit := fun w => (Ok tt, f w).

Definition when (b : bool) (m : M unit) : M unit := if b then m else ret tt.

Declare Scope conn_scope.
Delimit Scope conn_scope with conn.
Notation "'let*' x ':=' m 'in' k" := (bind m (fun x => k))
  (at level 10, x name, m at level 100, k at level 200) : conn_scope.
Notation "m '>>' k" := (bind m (fun _ => k))
  (at level 100, k at level 200, right associativity) : conn_scope.
Local Open Scope conn_scope.

Definition execM {A} (m : M A) (w : World) : World := snd (m w).

(** The events a computation added to the trace. *)
Definition newEvents (before after : World) : list Event :=
  skipn (length (trace before)) (trace after).

(** *** Collaborators *)

Record Collaborators := mkCollaborators {
  cfg : Config;
  (** [replyResolver(ctx)]: reads and may rewrite the session store. *)
  replyResolver : ReplyCtx -> SessionStore -> Result ResolverReply * SessionStore;
  (** [loadWebMedia(url)]; [None] when it throws. *)
  loadWebMedia : string -> option WebMedia;
  (** does [msg.sendMedia] go through for this item? *)
  sendMediaOk : string -> option string -> bool;
  (** does [msg.reply(text)] go through? *)
  replyOk : string -> bool;
  (** does [sender(to, text)] go through? *)
  senderOk : string -> string -> bool;
  (** does [listener.sendMessage(to, message)] go through? *)
  listenerSendOk : string -> string -> bool;
  formatTimestamp : option Z -> string;
  normalizeE164 : string -> string;
  deriveSessionKey : string -> string -> string;
  DEFAULT_IDLE_MINUTES : Z;
  (** [computeBackoff(reconnectPolicy, attempt)] *)
  computeBackoff : Z -> Z;
  maxAttempts : Z;
  heartbeatSeconds : Z;
  (** [tuning.replyHeartbeatMinutes] *)
  tuningReplyHeartbeatMinutes : option Z;
  keepAlive : bool
}.

(** ** Echo guard: a [Set<string>] in insertion order *)

Module EchoGuard.

Definition MAX_RECENT_MESSAGES : nat := 100.

Definition has (g : list string) (t : string) : bool := existsb (String.eqb t) g.

(** [Set.prototype.add]: a value already held keeps its place. *)
Definition add (g : list string) (t : string) : list string :=
  if has g t then g else g ++ [t].

(** [Set.prototype.delete]: afterwards the value is not held.  (A list
    built with [add] holds no value twice.) *)
Fixpoint delete (g : list string) (t : string) : list string :=
  match g with
  | [] => []
  | x :: rest => if String.eqb x t then delete rest t else x :: delete rest t
  end.

(** [if (size > MAX) { firstKey = values().next().value;
                       if (firstKey) delete(firstKey) }] *)
Definition evictOldest (g : list string) : list string :=
  if (MAX_RECENT_MESSAGES <? length g)%nat then
    match g with
    | firstKey :: _ => if Js.truthy firstKey then delete g firstKey else g
    | [] => g
    end
  else g.

(** The registration after a delivered reply in [processBatch]. *)
Definition rememberReply (g : list string) (replyText combinedBody : string) : list string :=
  evictOldest (add (add g replyText) combinedBody).

(** The registration in the IPC send callback. *)
Definition rememberIpc (g : list string) (message : string) : list string :=
  evictOldest (add g message).

End EchoGuard.

Section Connector.

Variable C : Collaborators.

(** ** Session store and idle expiry *)

Definition loadSessionStore : M SessionStore := gets disk.

Definition saveSessionStore (store : SessionStore) : M unit := modify (withDisk store).

Record SessionSnapshot := mkSnapshot {
  snap_key : string;
  snap_entry : option SessionEntry;
  snap_fresh : bool;
  snap_idleMinutes : Z
}.

(** [a ?? b] *)
Definition orElse {A} (a b : option A) : option A :=
  match a with
  | Some x => Some x
  | None => b
  end.

Definition resolveIdleMinutes (isHeartbeat : bool) : Z :=
  let sessionCfg := session (cfg C) in
  Z.max
    (default (DEFAULT_IDLE_MINUTES C)
       (if isHeartbeat
        then orElse (heartbeatIdleMinutes sessionCfg) (idleMinutes sessionCfg)
        else idleMinutes sessionCfg))
    1.

Definition getSessionSnapshot (from : string) (isHeartbeat : bool) (now : Z)
  : M SessionSnapshot :=
  let sessionCfg := session (cfg C) in
  let scope := default "per-sender" (scope sessionCfg) in
  let key := deriveSessionKey C scope from in
  let* store := loadSessionStore in
  let entry := storeGet store key in
  let idle := resolveIdleMinutes isHeartbeat in
  let fresh :=
    match entry with
    | Some e => (now - updatedAt e <=? idle * 60000)%Z
    | None => false
    end in
  ret (mkSnapshot key entry fresh idle).

(** ** Outbound delivery *)

Definition textChunksOf (p : ReplyPayload) : list string :=
  let t := Js.orEmpty (text p) in
  if (0 <? String.length t)%nat then Js.matchDots WEB_TEXT_LIMIT t else [].

Definition mediaListOf (p : ReplyPayload) : list string :=
  match mediaUrls p with
  | Some (u :: us) => u :: us
  | _ => match mediaUrl p with
         | Some u => if Js.truthy u then [u] else []
         | None => []
         end
  end.

Definition msgReply (m : WebInboundMsg) (body : string) : M unit :=
  if replyOk C body then emit (EReply (msg_from m) body)
  else throw "msg.reply failed".

Fixpoint sendChunks (m : WebInboundMsg) (chunks : list string) : M unit :=
  match chunks with
  | [] => ret tt
  | chunk :: rest => msgReply m chunk >> sendChunks m rest
  end.

(** The [catch] block of the media loop, entered with the text chunks
    that are left at the moment of the throw. *)
Definition mediaFailed (m : WebInboundMsg) (index : nat) (remainingText : list string)
  : M (list string) :=
  emit (ELog "failed to send web media reply") >>
  if (index =? 0)%nat && (0 <? length remainingText)%nat then
    emit (ELog "Media skipped; sent text-only") >>
    msgReply m (hd "" remainingText) >>
    ret (tl remainingText)
  else ret remainingText.

(** One round of the media loop.  [remainingText.shift()] happens inside
    the [try], after the media was loaded and before it is sent: a throw
    of [loadWebMedia] reaches the [catch] with the chunks untouched, a
    throw of [msg.sendMedia] reaches it after the caption was taken. *)
Definition sendOneMedia (m : WebInboundMsg) (index : nat) (url : string)
    (remainingText : list string) : M (list string) :=
  match loadWebMedia C url with
  | None => mediaFailed m index remainingText
  | Some media =>
      let caption :=
        if (index =? 0)%nat then
          match remainingText with
          | c :: _ => if Js.truthy c then Some c else None
          | [] => None
          end
        else None in
      let remainingText' := if (index =? 0)%nat then tl remainingText else remainingText in
      if sendMediaOk C url caption then
        emit (ESendMedia (msg_from m) (kind media) url caption) >>
        emit (ELog "auto-reply sent (media)") >>
        ret remainingText'
      else mediaFailed m index remainingText'
  end.

Fixpoint mediaLoop (m : WebInboundMsg) (index : nat) (mediaList remainingText : list string)
  : M (list string) :=
  match mediaList with
  | [] => ret remainingText
  | url :: rest =>
      let* remainingText' := sendOneMedia m index url remainingText in
      mediaLoop m (S index) rest remainingText'
  end.

Definition deliverWebReply (replyResult : ReplyPayload) (m : WebInboundMsg) : M unit :=
  let textChunks := textChunksOf replyResult in
  let mediaList := mediaListOf replyResult in
  if (length mediaList =? 0)%nat && (0 <? length textChunks)%nat then
    sendChunks m textChunks >>
    emit (ELog "auto-reply sent (text)")
  else
    let* remainingText := mediaLoop m 0 mediaList textChunks in
    sendChunks m remainingText.

(** ** One-shot heartbeat *)

Record HeartbeatOpts := mkHeartbeatOpts {
  hb_to : string;
  hb_sessionId : option string;
  hb_overrideBody : option string;
  hb_dryRun : bool
}.

Definition sender (to body : string) : M unit :=
  if senderOk C to body then emit (ESend to body)
  else throw "sender failed".

(** [await replyResolver(ctx, ...)] *)
Definition callResolver (ctx : ReplyCtx) : M ResolverReply :=
  emit (EResolve ctx) >>
  fun w =>
    let (r, store') := replyResolver C ctx (disk w) in
    (r, withDisk store' w).

(** The heartbeat code reads the reply as a single payload; an array has
    none of the three fields. *)
Definition asPayload (r : ResolverReply) : option ReplyPayload :=
  match r with
  | RNull => None
  | ROne p => Some p
  | RMany _ => Some (mkPayload None None None)
  end.

Definition hasMediaUrls (p : ReplyPayload) : bool :=
  (0 <? length (default [] (mediaUrls p)))%nat.

Definition isEmptyReply (p : ReplyPayload) : bool :=
  negb (Js.truthyOpt (text p)) && negb (Js.truthyOpt (mediaUrl p)) && negb (hasMediaUrls p).

Definition hasMedia (p : ReplyPayload) : bool :=
  Js.truthyOpt (mediaUrl p) || hasMediaUrls p.

(** The write-back on a silent heartbeat: the store is read again and the
    snapshot's [updatedAt] is put into the entry under the snapshot's key. *)
Definition restoreUpdatedAt (snapshot : SessionSnapshot) : M unit :=
  let* store := loadSessionStore in
  match snap_entry snapshot, storeGet store (snap_key snapshot) with
  | Some before, Some current =>
      saveSessionStore
        (storeSet store (snap_key snapshot)
                  (mkEntry (sessionId current) (updatedAt before)))
  | _, _ => ret tt
  end.

Definition runWebHeartbeatOnce (opts : HeartbeatOpts) (nowOverride nowSnapshot : Z) : M unit :=
  let to := hb_to opts in
  (if Js.truthyOpt (hb_sessionId opts) then
     let* store := loadSessionStore in
     saveSessionStore
       (storeSet store to (mkEntry (Js.orEmpty (hb_sessionId opts)) nowOverride))
   else ret tt) >>
  let* sessionSnapshot := getSessionSnapshot to true nowSnapshot in
  if Js.truthyOpt (hb_overrideBody opts)
     && (String.length (Js.trim (Js.orEmpty (hb_overrideBody opts))) =? 0)%nat
  then throw "Override body must be non-empty when provided."
  else
    tryCatch
      (if Js.truthyOpt (hb_overrideBody opts) then
         if hb_dryRun opts then emit (ELog "[dry-run] web send (manual message)")
         else
           sender to (Js.orEmpty (hb_overrideBody opts)) >>
           emit (ELog "manual heartbeat message sent")
       else
         let* replyResult :=
           callResolver
             (mkCtx HEARTBEAT_PROMPT to to
                    (orElse (hb_sessionId opts) (sessionId <$> snap_entry sessionSnapshot))
                    None None None) in
         match asPayload replyResult with
         | None => emit (ELog "heartbeat skipped (empty-reply)")
         | Some reply =>
             if isEmptyReply reply then emit (ELog "heartbeat skipped (empty-reply)")
             else
               let stripped := stripHeartbeatToken (text reply) in
               if shouldSkip stripped && negb (hasMedia reply) then
                 restoreUpdatedAt sessionSnapshot >>
                 emit (ELog "heartbeat skipped (heartbeat-token)")
               else
                 when (hasMedia reply)
                      (emit (ELog "heartbeat reply contained media; sending text only")) >>
                 let finalText :=
                   if Js.truthy (strippedText stripped) then strippedText stripped
                   else Js.orEmpty (text reply) in
                 if hb_dryRun opts then emit (ELog "heartbeat dry-run")
                 else
                   sender to finalText >>
                   emit (ELog "heartbeat sent")
         end)
      (fun err => emit (ELog "heartbeat failed") >> throw err).

(** [candidates.sort((a, b) => b.updatedAt - a.updatedAt)]: stable, most
    recent first. *)
Fixpoint insertByRecency (x : string * SessionEntry) (l : SessionStore) : SessionStore :=
  match l with
  | [] => [x]
  | y :: rest =>
      if (updatedAt (snd y) <=? updatedAt (snd x))%Z then x :: l
      else y :: insertByRecency x rest
  end.

Definition sortByRecency (l : SessionStore) : SessionStore :=
  fold_right insertByRecency [] l.

Definition getFallbackRecipient : M (option string) :=
  let* store := loadSessionStore in
  let candidates := List.filter (fun kv => negb (String.eqb (fst kv) "global")) store in
  match candidates with
  | [] =>
      match List.filter (fun v => negb (String.eqb v "*")) (allowFrom (cfg C)) with
      | [] => ret None
      | first :: _ =>
          ret (if Js.truthy first then Some (normalizeE164 C first) else None)
      end
  | _ =>
      match sortByRecency candidates with
      | mostRecent :: _ => ret (Some (normalizeE164 C (fst mostRecent)))
      | [] => ret None
      end
  end.

(** ** Inbound batching *)

Definition buildLine (m : WebInboundMsg) : string :=
  let prefix :=
    match messagePrefix (cfg C) with
    | Some p => p
    | None => if (0 <? length (allowFrom (cfg C)))%nat then "" else "[warelay]"
    end in
  let prefixStr := if Js.truthy prefix then prefix +:+ " " else "" in
  formatTimestamp C (msg_timestamp m) +:+ prefixStr +:+ msg_body m.

Definition combinedBodyOf (msgs : list WebInboundMsg) : string :=
  Js.join Js.LF (map buildLine msgs).

Definition applyResponsePrefix (p : ReplyPayload) : ReplyPayload :=
  match responsePrefix (cfg C), text p with
  | Some rp, Some t =>
      if Js.truthy rp && Js.truthy t
         && negb (String.eqb (Js.trim t) HEARTBEAT_TOKEN)
         && negb (Js.startsWith t rp)
      then mkPayload (Some (rp +:+ " " +:+ t)) (mediaUrl p) (mediaUrls p)
      else p
  | _, _ => p
  end.

Definition rememberSent (replyText combinedBody : string) : M unit :=
  modify (fun w =>
    withRecentlySent (EchoGuard.rememberReply (recentlySent w) replyText combinedBody) w).

(** The body of the [for (const replyPayload of replyList)] loop. *)
Definition deliverOne (combinedBody : string) (latest : WebInboundMsg) (p0 : ReplyPayload)
  : M unit :=
  let p := applyResponsePrefix p0 in
  tryCatch
    (deliverWebReply p latest >>
     when (Js.truthyOpt (text p)) (rememberSent (Js.orEmpty (text p)) combinedBody) >>
     emit (ELog "auto-replied"))
    (fun _ => emit (ELog "Failed sending web auto-reply")).

Fixpoint deliverAll (combinedBody : string) (latest : WebInboundMsg) (ps : list ReplyPayload)
  : M unit :=
  match ps with
  | [] => ret tt
  | p :: rest => deliverOne combinedBody latest p >> deliverAll combinedBody latest rest
  end.

Definition replyListOf (r : ResolverReply) : list ReplyPayload :=
  match r with
  | RNull => []
  | ROne p => [p]
  | RMany ps => ps
  end.

Definition ctxOfBatch (combinedBody : string) (latest : WebInboundMsg) : ReplyCtx :=
  mkCtx combinedBody (msg_from latest) (msg_to latest) (msg_id latest)
        (msg_mediaPath latest) (msg_mediaUrl latest) (msg_mediaType latest).

Definition processBatch (from : string) : M unit :=
  let* batches := gets pendingBatches in
  match batches !! from with
  | None => ret tt
  | Some batch =>
      match messages batch with
      | [] => ret tt
      | first :: others =>
          let* queued := gets queueSize in
          if (0 <? queued)%nat then
            modify (withPendingBatches (<[from := mkBatch (messages batch) true]> batches)) >>
            emit (ESetTimeout from 150)
          else
            modify (withPendingBatches (delete from batches)) >>
            let msgs := first :: others in
            let latest := List.last msgs first in
            let combinedBody := combinedBodyOf msgs in
            let* sent := gets recentlySent in
            if EchoGuard.has sent combinedBody then
              modify (withRecentlySent (EchoGuard.delete sent combinedBody))
            else
              emit (ELog "inbound web message (batched)") >>
              let* replyResult := callResolver (ctxOfBatch combinedBody latest) in
              deliverAll combinedBody latest (replyListOf replyResult)
      end
  end.

Definition enqueueBatch (m : WebInboundMsg) : M unit :=
  let* batches := gets pendingBatches in
  let bucket := default (mkBatch [] false) (batches !! msg_from m) in
  let pushed := mkBatch (messages bucket ++ [m]) (timer bucket) in
  modify (withPendingBatches (<[msg_from m := pushed]> batches)) >>
  let* queued := gets queueSize in
  if (queued =? 0)%nat then processBatch (msg_from m)
  else if timer pushed then ret tt
  else
    modify (fun w =>
      withPendingBatches
        (<[msg_from m := mkBatch (messages pushed) true]> (pendingBatches w)) w) >>
    emit (ESetTimeout (msg_from m) 150).

Definition onMessage (m : WebInboundMsg) (now : Z) : M unit :=
  modify (noteInbound m now) >>
  let* sent := gets recentlySent in
  if EchoGuard.has sent (msg_body m) then
    emit (ELog "Skipping echo: detected recently sent message") >>
    modify (withRecentlySent (EchoGuard.delete sent (msg_body m)))
  else enqueueBatch m.

(** The callback handed to [startIpcServer]. *)
Definition ipcSend (to message : string) (media : option string) : M unit :=
  (if Js.truthyOpt media then
     match loadWebMedia C (Js.orEmpty media) with
     | Some _ => ret tt
     | None => throw "loadWebMedia failed"
     end
   else ret tt) >>
  (if listenerSendOk C to message then emit (EIpcSend to message)
   else throw "listener.sendMessage failed") >>
  when (Js.truthy message)
       (modify (fun w =>
          withRecentlySent (EchoGuard.rememberIpc (recentlySent w) message) w)) >>
  emit (ELog "IPC send").

(** ** Reply heartbeat *)

Definition resolveReplyHeartbeatMinutes (overrideMinutes : option Z) : option Z :=
  let fallback :=
    match replyMode (cfg C) with
    | Some mode =>
        if String.eqb mode "command" then Some DEFAULT_REPLY_HEARTBEAT_MINUTES else None
    | None => None
    end in
  match orElse overrideMinutes (heartbeatMinutes (cfg C)) with
  | Some raw =>
      if (raw =? 0)%Z then None
      else if (0 <? raw)%Z then Some raw
      else fallback
  | None => fallback
  end.

Definition replyHeartbeatMinutes : option Z :=
  resolveReplyHeartbeatMinutes (tuningReplyHeartbeatMinutes C).

Definition truthyMinutes (o : option Z) : bool :=
  match o with
  | Some n => negb (n =? 0)%Z
  | None => false
  end.

Definition prefixedHeartbeatText (finalText : string) : string :=
  match responsePrefix (cfg C) with
  | Some rp =>
      if Js.truthy rp && Js.truthy finalText && negb (Js.startsWith finalText rp)
      then rp +:+ " " +:+ finalText
      else finalText
  | None => finalText
  end.

Definition runReplyHeartbeat (now : Z) : M unit :=
  let* queued := gets queueSize in
  if (0 <? queued)%nat then
    emit (ELog "reply heartbeat skipped (requests-in-flight)") >>
    emit (ELog "heartbeat: skipped (requests in flight)")
  else if negb (truthyMinutes replyHeartbeatMinutes) then ret tt
  else
    let* lastInbound := gets lastInboundMsg in
    match lastInbound with
    | None =>
        let* fallbackTo := getFallbackRecipient in
        if negb (Js.truthyOpt fallbackTo) then
          emit (ELog "reply heartbeat skipped (no-recent-inbound)")
        else
          let to := Js.orEmpty fallbackTo in
          let* snapshot := getSessionSnapshot to true now in
          match snap_entry snapshot with
          | None => emit (ELog "reply heartbeat skipped (no-session-for-fallback)")
          | Some entry =>
              runWebHeartbeatOnce
                (mkHeartbeatOpts to (Some (sessionId entry)) None false) now now >>
              emit (ELog "reply heartbeat sent (fallback session)")
          end
    | Some lastMsg =>
        tryCatch
          (let* snapshot := getSessionSnapshot (msg_from lastMsg) false now in
           let* replyResult :=
             callResolver
               (mkCtx HEARTBEAT_PROMPT (msg_from lastMsg) (msg_to lastMsg)
                      (sessionId <$> snap_entry snapshot) None None None) in
           match asPayload replyResult with
           | None => emit (ELog "reply heartbeat skipped (empty-reply)")
           | Some reply =>
               if isEmptyReply reply then emit (ELog "reply heartbeat skipped (empty-reply)")
               else
                 let stripped := stripHeartbeatToken (text reply) in
                 if shouldSkip stripped && negb (hasMedia reply) then
                   emit (ELog "reply heartbeat skipped (heartbeat-token)")
                 else
                   let cleanedReply :=
                     mkPayload (Some (prefixedHeartbeatText (strippedText stripped)))
                               (mediaUrl reply) (mediaUrls reply) in
                   deliverWebReply cleanedReply lastMsg >>
                   emit (ELog "reply heartbeat sent")
           end)
          (fun _ => emit (ELog "reply heartbeat failed"))
    end.

(** ** The connection loop *)

Definition MESSAGE_TIMEOUT_MS : Z := 30 * 60 * 1000.

Definition closeListener : M unit := emit ECloseListener.

Definition watchdog (now : Z) : M unit :=
  let* lastAt := gets lastMessageAt in
  match lastAt with
  | Some t =>
      if (MESSAGE_TIMEOUT_MS <? now - t)%Z then
        emit (ELog "Message timeout detected - forcing reconnect") >>
        closeListener
      else ret tt
  | None => ret tt
  end.

(** What can happen while a connection is up. *)
Inductive Input :=
| InMessage (m : WebInboundMsg) (now : Z)
| InTimer (sender : string)
| InIpcSend (to message : string) (media : option string)
| InReplyHeartbeat (now : Z)
| InHeartbeat
| InWatchdog (now : Z)
| InQueue (depth : nat).

Definition handle (i : Input) : M unit :=
  match i with
  | InMessage m now => onMessage m now
  | InTimer sender => processBatch sender
  | InIpcSend to message media => ipcSend to message media
  | InReplyHeartbeat now => runReplyHeartbeat now
  | InHeartbeat => emit (ELog "web relay heartbeat")
  | InWatchdog now => watchdog now
  | InQueue depth => modify (withQueueSize depth)
  end.

(** A handler that rejects leaves the world as it was at the throw; the
    loop does not see the rejection. *)
Definition step (w : World) (i : Input) : World := execM (handle i) w.

Definition run (inputs : list Input) (w : World) : World := fold_left step inputs w.

(** One turn of the [while (true)] loop, as the outside decides it. *)
Record Cycle := mkCycle {
  stopAtTop : bool;
  inputs : list Input;
  closeReason : CloseReason;
  uptimeMs : Z;
  stopAfterClose : bool;
  sigintStop : bool;
  sleepAborted : bool
}.

Inductive LoopExit := Returned | Awaiting.

Definition connect (c : Cycle) (w : World) : World :=
  run (inputs c) (execM (emit EConnect) (freshConnection w)).

Definition resetAfterHealthyStretch (c : Cycle) (reconnectAttempts : Z) : Z :=
  if (heartbeatSeconds C * 1000 <? uptimeMs c)%Z then 0%Z else reconnectAttempts.

Definition giveUp (attempts : Z) : bool :=
  (0 <? maxAttempts C)%Z && (maxAttempts C <=? attempts)%Z.

(** [script] lists the turns the outside has decided so far; when it runs
    out the loop is [Awaiting] the next connection. *)
Fixpoint monitorLoop (script : list Cycle) (reconnectAttempts : Z) (w : World)
  : LoopExit * World :=
  match script with
  | [] => (Awaiting, w)
  | c :: rest =>
      if stopAtTop c then (Returned, w)
      else if negb (keepAlive C) then
        (Returned, execM closeListener (execM (emit EConnect) (freshConnection w)))
      else
        let w1 := connect c w in
        let attempts0 := resetAfterHealthyStretch c reconnectAttempts in
        match closeReason c with
        | Aborted => (Returned, execM closeListener w1)
        | Closed status loggedOut =>
            if stopAfterClose c || sigintStop c then (Returned, execM closeListener w1)
            else
              let w2 := execM (emit (ELog "web reconnect: connection closed")) w1 in
              if loggedOut then
                (Returned,
                 execM (emit (ERuntimeError NoticeLoggedOut) >> closeListener) w2)
              else
                let attempts1 := (attempts0 + 1)%Z in
                if giveUp attempts1 then
                  (Returned,
                   execM (emit (ELog "web reconnect: max attempts reached") >>
                          emit (ERuntimeError (NoticeGiveUp status (maxAttempts C))) >>
                          closeListener) w2)
                else
                  let delay := computeBackoff C attempts1 in
                  let w3 :=
                    execM (emit (ELog "web reconnect: scheduling retry") >>
                           emit (ERuntimeError
                                   (NoticeRetry status attempts1 (maxAttempts C) delay)) >>
                           closeListener >>
                           emit (ESleep delay)) w2 in
                  if sleepAborted c then (Returned, w3)
                  else monitorLoop rest attempts1 w3
        end
  end.

(** [reconnectAttempts] and [recentlySent] are created once, before the
    loop. *)
Definition monitorWebProvider (script : list Cycle) (w : World) : LoopExit * World :=
  monitorLoop script 0 (withRecentlySent [] w).

End Connector.

(** ** Heartbeat recipients *)

(** [list.sort((a, b) => key(b) - key(a))]: stable, largest key first. *)
Fixpoint insertDesc {A} (key : A -> Z) (x : A) (l : list A) : list A :=
  match l with
  | [] => [x]
  | y :: rest =>
      if (key y <=? key x)%Z then x :: l else y :: insertDesc key x rest
  end.

Definition sortDesc {A} (key : A -> Z) (l : list A) : list A :=
  fold_right (insertDesc key) [] l.

(** [[...new Set(list.filter(Boolean))]] *)
Definition unique (l : list string) : list string :=
  fold_left EchoGuard.add (List.filter Js.truthy l) [].

Record SessionRecipient := mkRecipient { rcp_to : string; rcp_updatedAt : Z }.

Inductive RecipientSource :=
| SourceFlag
| SourceAll
| SourceSessionSingle
| SourceSessionAmbiguous
| SourceAllowFrom.

Record HeartbeatRecipients := mkRecipients {
  recipients : list string;
  source : RecipientSource
}.

Section Recipients.

Variable C : Collaborators.

Definition getSessionRecipients : M (list SessionRecipient) :=
  let scope := default "per-sender" (scope (session (cfg C))) in
  if String.eqb scope "global" then ret []
  else
    let* store := loadSessionStore in
    ret (sortDesc rcp_updatedAt
           (List.filter (fun r => Js.truthy (rcp_to r))
              (map (fun kv => mkRecipient (normalizeE164 C (fst kv)) (updatedAt (snd kv)))
                 (List.filter
                    (fun kv => negb (String.eqb (fst kv) "global")
                               && negb (String.eqb (fst kv) "unknown"))
                    store)))).

Definition normalizedAllowFrom : list string :=
  map (normalizeE164 C)
      (List.filter (fun v => negb (String.eqb v "*")) (allowFrom (cfg C))).

Definition resolveHeartbeatRecipients (optTo : option string) (optAll : bool)
  : M HeartbeatRecipients :=
  if Js.truthyOpt optTo then
    ret (mkRecipients [normalizeE164 C (Js.orEmpty optTo)] SourceFlag)
  else
    let* sessionRecipients := getSessionRecipients in
    let allowed := normalizedAllowFrom in
    if optAll then
      ret (mkRecipients (unique (map rcp_to sessionRecipients ++ allowed)) SourceAll)
    else
      match sessionRecipients with
      | [only] => ret (mkRecipients [rcp_to only] SourceSessionSingle)
      | _ :: _ :: _ =>
          ret (mkRecipients (map rcp_to sessionRecipients) SourceSessionAmbiguous)
      | [] => ret (mkRecipients allowed SourceAllowFrom)
      end.

End Recipients.

(** * Two-factor codes

    The second part embeds the TOTP code that the tool gate and its
    tests run: the base32 codec and the code generation of [totp.ts],
    the store of [totp-store.ts], [checkTotpGate] and
    [wrapToolsWithTotpGate].

    Conventions of this part.
    - A [Buffer] is a list of integers, each of them a byte.
    - A JavaScript bitwise operator works on 32-bit integers: its
      operands are taken modulo [2^32] into the signed range and the
      shift count modulo 32.
    - [crypto.createHmac("sha1", ...)] and [crypto.randomBytes] are
      collaborators: the first a function, the second an argument.
    - A date string in the store file is a [Stamp]: either the ISO
      spelling of an instant, which [Date.parse] reads back exactly, or
      something [Date.parse] answers [NaN] to.
    - [Date.now()] and [new Date()] read the same instant [now] within
      one call.
    - Taking the file lock and writing the store file succeed. *)

Module Int32.

(** [ToInt32] *)
Definition wrap (z : Z) : Z := ((z + 2 ^ 31) mod 2 ^ 32 - 2 ^ 31)%Z.

(** [a << n] *)
Definition shl (a n : Z) : Z := wrap (Z.shiftl (wrap a) (Z.land n 31)).

(** [a >>> n] *)
Definition ushr (a n : Z) : Z := Z.shiftr (wrap a mod 2 ^ 32) (Z.land n 31).

(** [a | b] *)
Definition or (a b : Z) : Z := Z.lor (wrap a) (wrap b).

(** [a & b] *)
Definition and (a b : Z) : Z := Z.land (wrap a) (wrap b).

End Int32.

Module Totp.

Definition BASE32_ALPHABET : string := "ABCDEFGHIJKLMNOPQRSTUVWXYZ234567".

Definition DEFAULT_DIGITS : nat := 6.
Definition DEFAULT_TIME_STEP : Z := 30.
Definition DEFAULT_WINDOW : Z := 1.

(** [BASE32_ALPHABET[i]] as [+=] appends it: outside the string the
    index gives [undefined], which is spelled out. *)
Definition alphabetAt (i : Z) : string :=
  match (if (0 <=? i)%Z then String.get (Z.to_nat i) BASE32_ALPHABET else None) with
  | Some c => String c ""
  | None => "undefined"
  end.

(** [while (bits >= 5) { bits -= 5; out += ... }]: every round takes 5
    off [bits], so [bits] rounds are enough. *)
Fixpoint drain (fuel : nat) (bits value : Z) (out : string) : Z * string :=
  match fuel with
  | O => (bits, out)
  | S fuel' =>
      if (5 <=? bits)%Z then
        let bits' := (bits - 5)%Z in
        drain fuel' bits' value
              (out +:+ alphabetAt (Int32.and (Int32.ushr value bits') 31))
      else (bits, out)
  end.

(** The body of [for (const byte of buf)]; the state is [bits], [value]
    and [out]. *)
Definition encodeStep (st : Z * Z * string) (byte : Z) : Z * Z * string :=
  let '(bits, value, out) := st in
  let value := Int32.or (Int32.shl value 8) byte in
  let bits := (bits + 8)%Z in
  let '(bits, out) := drain (Z.to_nat bits) bits value out in
  (bits, value, out).

Definition encodeBase32 (buf : list Z) : string :=
  let '(bits, value, out) := fold_left encodeStep buf (0%Z, 0%Z, "") in
  if (0 <? bits)%Z
  then out +:+ alphabetAt (Int32.and (Int32.shl value (5 - bits)) 31)
  else out.

(** [/[=\s]/] on an 8-bit code unit *)
Definition isPadOrSpace (c : ascii) : bool :=
  Ascii.eqb c "=" || Js.isWhiteSpace c.

Fixpoint dropPadAndSpace (s : string) : string :=
  match s with
  | EmptyString => EmptyString
  | String c s' =>
      if isPadOrSpace c then dropPadAndSpace s' else String c (dropPadAndSpace s')
  end.

(** [toUpperCase] on an 8-bit code unit: the letters a-z and the
    Latin-1 letters move down by 32, the sharp s becomes "SS".  The two
    code units whose capital lies above 255 (the micro sign and y with
    diaeresis) are left as they are: neither they nor their capitals are
    in the alphabet. *)
Definition upperCase (c : ascii) : string :=
  let n := nat_of_ascii c in
  if (n =? 223)%nat then "SS"
  else if ((97 <=? n) && (n <=? 122) || (224 <=? n) && (n <=? 254) && negb (n =? 247))%nat
  then String (ascii_of_nat (n - 32)) ""
  else String c "".

Fixpoint toUpperCase (s : string) : string :=
  match s with
  | EmptyString => EmptyString
  | String c s' => upperCase c +:+ toUpperCase s'
  end.

(** [alphabet.indexOf(char)], counted from [i]; [None] is -1. *)
Fixpoint indexFrom (i : Z) (alphabet : string) (char : ascii) : option Z :=
  match alphabet with
  | EmptyString => None
  | String a rest => if Ascii.eqb a char then Some i else indexFrom (i + 1) rest char
  end.

(** The body of [for (const char of cleaned)], then the rest of the
    loop. *)
Fixpoint decodeLoop (cleaned : string) (bits value : Z) (bytes : list Z)
  : Result (list Z) :=
  match cleaned with
  | EmptyString => Ok bytes
  | String char rest =>
      match indexFrom 0 BASE32_ALPHABET char with
      | None => Threw ("invalid base32 character: " +:+ String char "")
      | Some idx =>
          let value := Int32.or (Int32.shl value 5) idx in
          let bits := (bits + 5)%Z in
          if (8 <=? bits)%Z then
            let bits := (bits - 8)%Z in
            decodeLoop rest bits value
                       (bytes ++ [Int32.and (Int32.ushr value bits) 255])
          else decodeLoop rest bits value bytes
      end
  end.

Definition decodeBase32 (str : string) : Result (list Z) :=
  decodeLoop (toUpperCase (dropPadAndSpace str)) 0 0 [].

(** [String(n)] for an integer, and [padStart(digits, "0")]. *)
Definition decimal (n : Z) : string := NilZero.string_of_int (Z.to_int n).

Fixpoint zeros (n : nat) : string :=
  match n with
  | O => ""
  | S n' => String "0" (zeros n')
  end.

Definition padStart (digits : nat) (s : string) : string :=
  zeros (digits - String.length s) +:+ s.

(** [counterBuf.writeBigUInt64BE(counter)]: eight bytes, the most
    significant first. *)
Definition bigEndian64 (counter : Z) : list Z :=
  map (fun k => (Z.shiftr counter (8 * Z.of_nat k) mod 256)%Z) [7; 6; 5; 4; 3; 2; 1; 0]%nat.

(** [buf[i]!] inside a bitwise expression: past the end it is
    [undefined], which the operator reads as 0. *)
Definition at0 (buf : list Z) (i : Z) : Z :=
  if (i <? 0)%Z then 0%Z else nth (Z.to_nat i) buf 0%Z.

Section Codes.

(** [crypto.createHmac("sha1", secret).update(message).digest()] *)
Variable hmacSha1 : list Z -> list Z -> list Z.

(** [writeBigUInt64BE] throws on a counter outside [0, 2^64). *)
Definition hotpCode (secret : list Z) (counter : Z) (digits : nat) : Result string :=
  if ((0 <=? counter) && (counter <? 2 ^ 64))%Z then
    let hmac := hmacSha1 secret (bigEndian64 counter) in
    let offset := Int32.and (at0 hmac (Z.of_nat (length hmac) - 1)) 15 in
    let code :=
      Int32.or
        (Int32.or
           (Int32.or (Int32.shl (Int32.and (at0 hmac offset) 127) 24)
                     (Int32.shl (Int32.and (at0 hmac (offset + 1)) 255) 16))
           (Int32.shl (Int32.and (at0 hmac (offset + 2)) 255) 8))
        (Int32.and (at0 hmac (offset + 3)) 255) in
    Ok (padStart digits (decimal (Z.rem code (10 ^ Z.of_nat digits))))
  else Threw "ERR_OUT_OF_RANGE".

(** [BigInt(Math.floor(Date.now() / 1000 / timeStep))]: the two
    divisions are taken as exact, which they are for every instant a
    clock shows.  With a time step of 0 the quotient is no integer and
    [BigInt] throws. *)
Definition counterAt (nowMs timeStep : Z) : Result Z :=
  if (timeStep =? 0)%Z then Threw "The number cannot be converted to a BigInt"
  else Ok (nowMs / (1000 * timeStep))%Z.

Definition generateTotp (secret : list Z) (timeStep : Z) (digits : nat) (nowMs : Z)
  : Result string :=
  match counterAt nowMs timeStep with
  | Threw err => Threw err
  | Ok counter => hotpCode secret counter digits
  end.

(** [for (let i = ...; i <= window; i++)] with [rounds] rounds left. *)
Fixpoint verifyFrom (rounds : nat) (i : Z) (secret : list Z) (code : string)
    (now : Z) (digits : nat) : Result bool :=
  match rounds with
  | O => Ok false
  | S rounds' =>
      match hotpCode secret (now + i) digits with
      | Threw err => Threw err
      | Ok candidate =>
          if String.eqb candidate code then Ok true
          else verifyFrom rounds' (i + 1) secret code now digits
      end
  end.

Definition verifyTotp (secret : list Z) (code : string) (window timeStep : Z)
    (digits : nat) (nowMs : Z) : Result bool :=
  match counterAt nowMs timeStep with
  | Threw err => Threw err
  | Ok now => verifyFrom (Z.to_nat (2 * window + 1)) (- window) secret code now digits
  end.

End Codes.

End Totp.

(** ** The TOTP store *)

Module TotpStore.

(** A date string of the store file. *)
Inductive Stamp :=
| Iso (ms : Z)
| NotADate.

(** [Date.parse]; [None] is [NaN]. *)
Definition parse (s : Stamp) : option Z :=
  match s with
  | Iso ms => Some ms
  | NotADate => None
  end.

(** [new Date(ms).toISOString()] throws outside the range of [Date]. *)
Definition toISOString (ms : Z) : Result Stamp :=
  if (Z.abs ms <=? 8640000000000000)%Z then Ok (Iso ms) else Threw "Invalid time value".

Record TotpUserEntry := mkUser {
  telegramUserId : string;
  secretBase32 : string;
  enrolledAt : Stamp;
  label : option string
}.

Record TotpSession := mkSession {
  sessionUserId : string;
  authenticatedAt : Stamp;
  expiresAt : Stamp
}.

Record TotpRateLimit := mkRateLimit {
  limitUserId : string;
  attempts : Z;
  windowStart : Stamp
}.

Record TotpStore := mkStore {
  users : list TotpUserEntry;
  sessions : list TotpSession;
  rateLimits : list TotpRateLimit
}.

(** The store file: absent, present but not readable as JSON, or
    holding a store.  (A file that parses to something of another shape
    is outside the model.) *)
Inductive StoreFile :=
| Missing
| Unreadable
| Stored (store : TotpStore).

(** [EMPTY_STORE] is a module constant, and [{ ...EMPTY_STORE }] copies
    it one level deep: a store read from the fallback has the arrays of
    the constant for its own.  What is pushed to them, spliced from them
    or assigned inside their elements stays in the constant. *)
Record State := mkState {
  file : StoreFile;
  EMPTY_STORE : TotpStore
}.

Definition initial : State := mkState Missing (mkStore [] [] []).

Definition withFile (f : StoreFile) (st : State) : State := mkState f (EMPTY_STORE st).

(** A store in memory, and whether its arrays are those of
    [EMPTY_STORE]. *)
Record Loaded := mkLoaded {
  store : TotpStore;
  aliased : bool
}.

Definition readJsonFile (st : State) : Loaded :=
  match file st with
  | Stored s => mkLoaded s false
  | _ => mkLoaded (EMPTY_STORE st) true
  end.

Definition writeJsonFile (value : TotpStore) (st : State) : State := withFile (Stored value) st.

Definition ensureJsonFile (st : State) : State :=
  match file st with
  | Missing => writeJsonFile (EMPTY_STORE st) st
  | _ => st
  end.

(** In-place changes of [store.users] and [store.rateLimits], as seen
    through the constant. *)
Definition shareUsers (l : Loaded) (us : list TotpUserEntry) (st : State) : State :=
  if aliased l
  then mkState (file st) (mkStore us (sessions (EMPTY_STORE st)) (rateLimits (EMPTY_STORE st)))
  else st.

Definition shareRateLimits (l : Loaded) (rs : list TotpRateLimit) (st : State) : State :=
  if aliased l
  then mkState (file st) (mkStore (users (EMPTY_STORE st)) (sessions (EMPTY_STORE st)) rs)
  else st.

Definition isUser (userId : string) (u : TotpUserEntry) : bool :=
  String.eqb (telegramUserId u) userId.

Definition isLimitOf (userId : string) (r : TotpRateLimit) : bool :=
  String.eqb (limitUserId r) userId.

Definition isSessionOf (userId : string) (s : TotpSession) : bool :=
  String.eqb (sessionUserId s) userId.

(** [list.splice(list.findIndex(p), 1)] *)
Fixpoint removeFirst {A} (p : A -> bool) (l : list A) : list A :=
  match l with
  | [] => []
  | x :: rest => if p x then rest else x :: removeFirst p rest
  end.

(** An assignment inside the element that [list.find(p)] returned. *)
Fixpoint updateFirst {A} (p : A -> bool) (f : A -> A) (l : list A) : list A :=
  match l with
  | [] => []
  | x :: rest => if p x then f x :: rest else x :: updateFirst p f rest
  end.

(** [!Number.isFinite(windowStart) || now - windowStart > windowSec * 1000] *)
Definition windowOver (r : TotpRateLimit) (windowSec now : Z) : bool :=
  match parse (windowStart r) with
  | None => true
  | Some start => (windowSec * 1000 <? now - start)%Z
  end.

Definition restart (now : Z) (r : TotpRateLimit) : TotpRateLimit :=
  mkRateLimit (limitUserId r) 0 (Iso now).

Definition refreshed (windowSec now : Z) (r : TotpRateLimit) : TotpRateLimit :=
  if windowOver r windowSec now then restart now r else r.

Definition withAttempts (n : Z) (r : TotpRateLimit) : TotpRateLimit :=
  mkRateLimit (limitUserId r) n (windowStart r).

Section Store.

Variable hmacSha1 : list Z -> list Z -> list Z.

(** [secret] is what [generateTotpSecret()] draws.  The otpauth URI of
    the result is left out. *)
Definition enrollTotpUser (userId : string) (label : option string) (secret : list Z)
    (now : Z) (st : State) : Result string * State :=
  let st := ensureJsonFile st in
  let l := readJsonFile st in
  match List.find (isUser userId) (users (store l)) with
  | Some _ => (Threw ("User " +:+ userId +:+ " is already enrolled in TOTP"), st)
  | None =>
      let secretBase32 := Totp.encodeBase32 secret in
      let entry :=
        mkUser userId secretBase32 (Iso now)
               (if Js.truthyOpt label then label else None) in
      let users' := users (store l) ++ [entry] in
      let st := shareUsers l users' st in
      (Ok secretBase32,
       writeJsonFile (mkStore users' (sessions (store l)) (rateLimits (store l))) st)
  end.

Definition revokeTotpUser (userId : string) (st : State) : Result bool * State :=
  let st := ensureJsonFile st in
  let l := readJsonFile st in
  if existsb (isUser userId) (users (store l)) then
    let users' := removeFirst (isUser userId) (users (store l)) in
    let st := shareUsers l users' st in
    (Ok true,
     writeJsonFile
       (mkStore users'
                (List.filter (fun s => negb (isSessionOf userId s)) (sessions (store l)))
                (List.filter (fun r => negb (isLimitOf userId r)) (rateLimits (store l))))
       st)
  else (Ok false, st).

Definition listTotpUsers (st : State) : list TotpUserEntry :=
  users (store (readJsonFile st)).

Definition isUserEnrolled (userId : string) (st : State) : bool :=
  existsb (isUser userId) (users (store (readJsonFile st))).

Definition checkRateLimit (userId : string) (maxAttempts windowSec now : Z) (st : State)
  : Result bool * State :=
  let st := ensureJsonFile st in
  let l := readJsonFile st in
  match List.find (isLimitOf userId) (rateLimits (store l)) with
  | None => (Ok true, st)
  | Some entry =>
      let entry' := refreshed windowSec now entry in
      let limits' := updateFirst (isLimitOf userId) (fun _ => entry') (rateLimits (store l)) in
      let st := shareRateLimits l limits' st in
      if (maxAttempts <=? attempts entry')%Z then
        (Ok false,
         writeJsonFile (mkStore (users (store l)) (sessions (store l)) limits') st)
      else (Ok true, st)
  end.

Definition verifyAndCreateSession (userId code : string)
    (sessionDurationSec maxAttempts windowSec now : Z) (st : State)
  : Result bool * State :=
  let st := ensureJsonFile st in
  let l := readJsonFile st in
  match List.find (isUser userId) (users (store l)) with
  | None => (Ok false, st)
  | Some user =>
      let limits0 :=
        match List.find (isLimitOf userId) (rateLimits (store l)) with
        | Some _ => rateLimits (store l)
        | None => rateLimits (store l) ++ [mkRateLimit userId 0 (Iso now)]
        end in
      let rateEntry :=
        refreshed windowSec now
          (default (mkRateLimit userId 0 (Iso now))
                   (List.find (isLimitOf userId) (rateLimits (store l)))) in
      let saved (n : Z) := updateFirst (isLimitOf userId) (fun _ => withAttempts n rateEntry) limits0 in
      let limits1 := saved (attempts rateEntry) in
      if (maxAttempts <=? attempts rateEntry)%Z then
        let st := shareRateLimits l limits1 st in
        (Ok false, writeJsonFile (mkStore (users (store l)) (sessions (store l)) limits1) st)
      else
        match Totp.decodeBase32 (secretBase32 user) with
        | Threw err => (Threw err, shareRateLimits l limits1 st)
        | Ok secret =>
            match Totp.verifyTotp hmacSha1 secret code Totp.DEFAULT_WINDOW
                                  Totp.DEFAULT_TIME_STEP Totp.DEFAULT_DIGITS now with
            | Threw err => (Threw err, shareRateLimits l limits1 st)
            | Ok false =>
                let limits2 := saved (attempts rateEntry + 1)%Z in
                let st := shareRateLimits l limits2 st in
                (Ok false,
                 writeJsonFile (mkStore (users (store l)) (sessions (store l)) limits2) st)
            | Ok true =>
                let limits2 := saved 0%Z in
                let st := shareRateLimits l limits2 st in
                match toISOString (now + sessionDurationSec * 1000) with
                | Threw err => (Threw err, st)
                | Ok expires =>
                    let sessions' :=
                      List.filter (fun s => negb (isSessionOf userId s)) (sessions (store l))
                      ++ [mkSession userId (Iso now) expires] in
                    (Ok true, writeJsonFile (mkStore (users (store l)) sessions' limits2) st)
                end
            end
        end
  end.

Definition hasValidSession (userId : string) (now : Z) (st : State) : bool :=
  existsb
    (fun s =>
       isSessionOf userId s &&
       match parse (expiresAt s) with
       | Some expires => (now <? expires)%Z
       | None => false
       end)
    (sessions (store (readJsonFile st))).

Definition clearSession (userId : string) (st : State) : Result bool * State :=
  let st := ensureJsonFile st in
  let l := readJsonFile st in
  let sessions' := List.filter (fun s => negb (isSessionOf userId s)) (sessions (store l)) in
  if (length sessions' =? length (sessions (store l)))%nat then (Ok false, st)
  else (Ok true, writeJsonFile (mkStore (users (store l)) sessions' (rateLimits (store l))) st).

(** ** The gate on messages *)

Definition DEFAULT_SESSION_DURATION : Z := 86400.
Definition DEFAULT_MAX_ATTEMPTS : Z := 5.
Definition DEFAULT_RATE_LIMIT_WINDOW : Z := 300.

Record TelegramTotpConfig := mkTotpConfig {
  sessionDurationSeconds : option Z;
  maxAttempts : option Z;
  rateLimitWindowSeconds : option Z;
  protectedToolGroups : option (list string)
}.

Inductive TotpGateResult := Pass | Prompt | Verified | Rejected | RateLimited.

Definition isDigit (c : ascii) : bool :=
  let n := nat_of_ascii c in ((48 <=? n) && (n <=? 57))%nat.

(** [/^\d{6}$/.test(s)] *)
Definition isCode (s : string) : bool :=
  (String.length s =? 6)%nat && forallb isDigit (list_ascii_of_string s).

Definition checkTotpGate (telegramUserId messageText : string)
    (totpConfig : TelegramTotpConfig) (now : Z) (st : State)
  : Result TotpGateResult * State :=
  let sessionDuration := default DEFAULT_SESSION_DURATION (sessionDurationSeconds totpConfig) in
  let maxAttempts := default DEFAULT_MAX_ATTEMPTS (maxAttempts totpConfig) in
  let rateLimitWindow := default DEFAULT_RATE_LIMIT_WINDOW (rateLimitWindowSeconds totpConfig) in
  if negb (isUserEnrolled telegramUserId st) then (Ok Pass, st)
  else if hasValidSession telegramUserId now st then (Ok Pass, st)
  else
    let trimmed := Js.trim messageText in
    if isCode trimmed then
      match checkRateLimit telegramUserId maxAttempts rateLimitWindow now st with
      | (Threw err, st) => (Threw err, st)
      | (Ok false, st) => (Ok RateLimited, st)
      | (Ok true, st) =>
          match verifyAndCreateSession telegramUserId trimmed sessionDuration maxAttempts
                                       rateLimitWindow now st with
          | (Threw err, st) => (Threw err, st)
          | (Ok verified, st) => (Ok (if verified then Verified else Rejected), st)
          end
      end
    else (Ok Prompt, st).

(** ** The gate on tools *)

(** A tool: its name and, when it has one, what [execute] answers to
    its parameters. *)
Record AnyAgentTool := mkTool {
  name : string;
  execute : option (string -> Result string)
}.

(** What [wrapToolsWithTotpGate] puts in the place of a tool: the tool
    itself, or a copy whose [execute] asks for a session first. *)
Inductive GatedTool :=
| Untouched (tool : AnyAgentTool)
| Guarded (tool : AnyAgentTool) (originalExecute : string -> Result string).

Variable expandToolGroups : list string -> list string.
Variable normalizeToolName : string -> string.

Definition wrapToolsWithTotpGate (tools : list AnyAgentTool)
    (totpConfig : TelegramTotpConfig) : list GatedTool :=
  match protectedToolGroups totpConfig with
  | None | Some [] => map Untouched tools
  | Some protectedGroups =>
      let protectedNames := expandToolGroups protectedGroups in
      map (fun tool =>
             if negb (existsb (String.eqb (normalizeToolName (name tool))) protectedNames)
             then Untouched tool
             else match execute tool with
                  | None => Untouched tool
                  | Some originalExecute => Guarded tool originalExecute
                  end)
          tools
  end.

(** [tool.execute(toolCallId, toolParams)] on what the wrapper
    returned, for the sender it was wrapped for.  (The error text is
    given without its second sentence and without the quotation marks
    around the name.) *)
Definition callTool (senderId : string) (t : GatedTool) (toolParams : string) (now : Z)
    (st : State) : Result string :=
  match t with
  | Untouched tool =>
      match execute tool with
      | Some run => run toolParams
      | None => Threw "tool.execute is not a function"
      end
  | Guarded tool originalExecute =>
      if hasValidSession senderId now st then originalExecute toolParams
      else Threw ("TOTP authentication required. Tool " +:+ name tool
                  +:+ " is protected by two-factor authentication.")
  end.

End Store.

End TotpStore.

(** * The vocabulary of the properties *)

(** ** Reading the trace *)

Definition isResolve (e : Event) : bool :=
  match e with
  | EResolve _ => true
  | _ => false
  end.

(** Something left the connector towards a recipient. *)
Definition isOutbound (e : Event) : bool :=
  match e with
  | EReply _ _ | ESendMedia _ _ _ _ | ESend _ _ | EIpcSend _ _ => true
  | _ => false
  end.

Definition resolves (t : list Event) : list ReplyCtx :=
  flat_map (fun e => match e with EResolve ctx => [ctx] | _ => [] end) t.

Definition valueOf {A} (r : Result A * World) : option A :=
  match fst r with
  | Ok a => Some a
  | Threw _ => None
  end.

(** Connecting, sleeping through a backoff and the notices to the user
    belong to the loop. *)
Definition isLoopEvent (e : Event) : bool :=
  match e with
  | EConnect | ESleep _ | ERuntimeError _ => true
  | _ => false
  end.

Definition noLoopEvents (evs : list Event) : bool :=
  forallb (fun e => negb (isLoopEvent e)) evs.

Definition isSleep (e : Event) : bool :=
  match e with
  | ESleep _ => true
  | _ => false
  end.

Definition isConnect (e : Event) : bool :=
  match e with
  | EConnect => true
  | _ => false
  end.

(** The backoff waits in a stretch of the trace. *)
Definition sleeps (evs : list Event) : nat := length (List.filter isSleep evs).

(** The connection attempts in a stretch of the trace. *)
Definition connects (evs : list Event) : nat := length (List.filter isConnect evs).

(** ** Frames *)

(** A computation is quiet when it leaves the pending batches alone and
    calls the resolver not at all. *)
Definition quiet {A} (m : M A) : Prop :=
  forall w,
    pendingBatches (snd (m w)) = pendingBatches w /\
    exists evs, trace (snd (m w)) = trace w ++ evs /\ resolves evs = [].

(** A computation is calm when all it does to the trace is append events
    that are not the loop's. *)
Definition calm {A} (m : M A) : Prop :=
  forall w, exists evs, trace (snd (m w)) = trace w ++ evs /\ noLoopEvents evs = true.

(** ** A concrete deployment, for the worked examples *)

Module Scenario.

(** Timestamps switched off; no message prefix and no [allowFrom]
    configured, so a line is "[warelay] " followed by the body. *)
Definition config (idle : option Z) : Config :=
  mkConfig (mkSessionConfig None idle None) None [] None (Some "command") None.

(** Answers the heartbeat prompt with the token and everything else with
    a text that quotes the prompt; leaves the store alone. *)
Definition resolver (ctx : ReplyCtx) (store : SessionStore)
  : Result ResolverReply * SessionStore :=
  if String.eqb (Body ctx) HEARTBEAT_PROMPT
  then (Ok (ROne (mkPayload (Some HEARTBEAT_TOKEN) None None)), store)
  else (Ok (ROne (mkPayload (Some ("re: " +:+ Body ctx)) None None)), store).

Definition perSender (scope from : string) : string :=
  if String.eqb scope "global" then "global" else from.

Definition png : WebMedia := mkMedia KImage 2048 (Some "image/png").

Definition envWith (idle : option Z) (mediaSends : bool) (maxTries : Z) : Collaborators :=
  mkCollaborators (config idle) resolver (fun _ => Some png) (fun _ _ => mediaSends)
    (fun _ => true) (fun _ _ => true) (fun _ _ => true)
    (fun _ => "") (fun s => s) perSender 60
    (fun attempt => (1000 * attempt)%Z) maxTries 60 None true.

Definition env : Collaborators := envWith None true 0.

Definition from (body : string) : WebInboundMsg :=
  mkMsg "+1555" "+1999" body None None None None None.

End Scenario.

Module GuardScenario.

(** One hundred different one-character texts. *)
Definition texts : list string :=
  map (fun n => String (ascii_of_nat (33 + n)) EmptyString) (seq 0 100).

Definition hundredSends : list Input :=
  map (fun t => InIpcSend "+1555" t None) texts.

(** The guard after a hundred IPC sends: full. *)
Definition full : World := run Scenario.env hundredSends emptyWorld.

End GuardScenario.

Module HeartbeatScenario.

(** One session, last active at 1000. *)
Definition before : World := withDisk [("+1555", mkEntry "s1" 1000)] emptyWorld.

(** A resolver that, like a real exchange, stamps the session it serves
    with the time of the call (here 7000) before it answers the
    heartbeat with the token. *)
Definition stampingResolver (ctx : ReplyCtx) (store : SessionStore)
  : Result ResolverReply * SessionStore :=
  (Ok (ROne (mkPayload (Some HEARTBEAT_TOKEN) None None)),
   storeSet store (From ctx) (mkEntry (Js.orEmpty (MessageSid ctx)) 7000)).

Definition stampingEnv : Collaborators :=
  mkCollaborators (Scenario.config None) stampingResolver (fun _ => Some Scenario.png)
    (fun _ _ => true) (fun _ => true) (fun _ _ => true) (fun _ _ => true)
    (fun _ => "") (fun s => s) Scenario.perSender 60
    (fun attempt => (1000 * attempt)%Z) 0 60 None true.

(** The same world once "+1555" has written in and been answered. *)
Definition afterInbound : World :=
  mkWorld [] (disk before) 0 [] ∅ (Some (Scenario.from "hi")) 1 (Some 900%Z).

End HeartbeatScenario.

(** ** The claims that do not hold as they are worded *)

(** C9 as the specification words it: freshness is decided against the
    configured [idleMinutes]. *)
Definition freshAgainstConfigured (C : Collaborators) (w : World) (from : string) (now : Z)
  : Prop :=
  forall minutes e snap,
    idleMinutes (session (cfg C)) = Some minutes ->
    valueOf (getSessionSnapshot C from false now w) = Some snap ->
    snap_entry snap = Some e ->
    snap_fresh snap = (now - updatedAt e <=? minutes * 60000)%Z.

Definition isInboundWithBody (t : string) (i : Input) : bool :=
  match i with
  | InMessage m _ => String.eqb (msg_body m) t
  | _ => false
  end.

(** C1 as the specification words it: [t] is registered after a send
    that went through; whatever else happens before the next inbound
    message with body [t] arrives, that message is neither batched nor
    dispatched. *)
Definition echoSkippedAfterRegistration (C : Collaborators) (w : World) (t : string)
    (between : list Input) (m : WebInboundMsg) (now : Z) : Prop :=
  msg_body m = t ->
  listenerSendOk C (msg_from m) t = true ->
  forallb (fun i => negb (isInboundWithBody t i)) between = true ->
  let registered := step C w (InIpcSend (msg_from m) t None) in
  let before := run C between registered in
  let after := step C before (InMessage m now) in
  resolves (newEvents before after) = [] /\
  pendingBatches after = pendingBatches before.

(** C2 as the specification words it: the batch a sender has pending is
    flushed into exactly one invocation of the resolver, whose body is
    the lines of its messages joined in arrival order. *)
Definition flushDispatchesOnce (C : Collaborators) (w : World) (from : string)
    (first : WebInboundMsg) (others : list WebInboundMsg) : Prop :=
  forall tm,
    pendingBatches w !! from = Some (mkBatch (first :: others) tm) ->
    queueSize w = 0%nat ->
    resolves (newEvents w (execM (processBatch C from) w)) =
      [ctxOfBatch (Js.join Js.LF (map (buildLine C) (first :: others)))
                  (List.last (first :: others) first)].

Module BatchScenario.

(** "hi" was answered; while the queue was busy the same sender wrote
    "hi" again; the queue has drained and the retry timer is due. *)
Definition secondHiPending : World :=
  run Scenario.env
      [InMessage (Scenario.from "hi") 1; InQueue 1;
       InMessage (Scenario.from "hi") 2; InQueue 0]
      emptyWorld.

End BatchScenario.

(** C6 as the specification words it: a close reported as logged out
    makes the connector surface the re-authentication notice and stop,
    with no connection attempt and no backoff wait after it. *)
Definition loggedOutCloseSurfacesNotice (C : Collaborators) (c : Cycle) (rest : list Cycle)
    (attempts : Z) (w : World) : Prop :=
  keepAlive C = true -> stopAtTop c = false ->
  (exists status, closeReason c = Closed status true) ->
  let evs := newEvents (connect C c w) (snd (monitorLoop C (c :: rest) attempts w)) in
  fst (monitorLoop C (c :: rest) attempts w) = Returned /\
  In (ERuntimeError NoticeLoggedOut) evs /\
  sleeps evs = 0%nat /\ connects evs = 0%nat.

(** A turn that ends in a transient close with nobody asking to stop. *)
Definition transient (c : Cycle) : bool :=
  negb (stopAtTop c) && negb (stopAfterClose c) && negb (sigintStop c)
  && negb (sleepAborted c)
  && match closeReason c with
     | Closed _ false => true
     | _ => false
     end.

(** C7 as the specification words it: a transient close is followed by a
    backoff wait, or, when the incremented counter has reached a
    positive [maxAttempts], by the give-up notice and the end of the
    loop. *)
Definition transientCloseRetriesOrGivesUp (C : Collaborators) (c : Cycle) (attempts : Z)
    (w : World) : Prop :=
  keepAlive C = true -> stopAtTop c = false ->
  forall status, closeReason c = Closed status false ->
  let attempts1 := (resetAfterHealthyStretch C c attempts + 1)%Z in
  let evs := newEvents (connect C c w) (snd (monitorLoop C [c] attempts w)) in
  if ((0 <? maxAttempts C) && (maxAttempts C <=? attempts1))%Z
  then In (ERuntimeError (NoticeGiveUp status (maxAttempts C))) evs /\
       fst (monitorLoop C [c] attempts w) = Returned
  else In (ESleep (computeBackoff C attempts1)) evs.

(** ** Replies made of tokens and white space *)

Inductive Space := Tab | LineFeed | VerticalTab | FormFeed | CarriageReturn | Blank | NoBreak.

Definition spaceChar (s : Space) : ascii :=
  ascii_of_nat
    match s with
    | Tab => 9
    | LineFeed => 10
    | VerticalTab => 11
    | FormFeed => 12
    | CarriageReturn => 13
    | Blank => 32
    | NoBreak => 160
    end.

Inductive Piece :=
| PToken
| PSpace (s : Space).

Definition isSpacePiece (p : Piece) : bool :=
  match p with
  | PSpace _ => true
  | PToken => false
  end.

Fixpoint render (ps : list Piece) : string :=
  match ps with
  | [] => ""
  | PToken :: rest => HEARTBEAT_TOKEN +:+ render rest
  | PSpace s :: rest => String (spaceChar s) (render rest)
  end.

(** The pieces without the white space at the end, and at the start. *)
Fixpoint dropSpacesEnd (ps : list Piece) : list Piece :=
  match ps with
  | [] => []
  | p :: rest =>
      match dropSpacesEnd rest with
      | [] => if isSpacePiece p then [] else [p]
      | kept => p :: kept
      end
  end.

Fixpoint dropSpacesStart (ps : list Piece) : list Piece :=
  match ps with
  | PSpace _ :: rest => dropSpacesStart rest
  | _ => ps
  end.

(** ** More frames *)

(** A computation never throws. *)
Definition neverThrows {A} (m : M A) : Prop :=
  forall w, exists a, fst (m w) = Ok a.

(** A computation keeps a relation between the world it starts in and
    the world it ends in, whether it returns or throws. *)
Definition keeps (R : relation World) {A} (m : M A) : Prop :=
  forall w, R w (snd (m w)).

(** Only the trace differs. *)
Definition onlyTrace : relation World :=
  fun w w' => w' = withTrace (trace w') w.

(** Only the trace and the echo guard differ. *)
Definition onlyGuardAndTrace : relation World :=
  fun w w' => w' = withRecentlySent (recentlySent w') (withTrace (trace w') w).

(** Only the trace and the session store differ. *)
Definition onlyTraceAndStore : relation World :=
  fun w w' => w' = withDisk (disk w') (withTrace (trace w') w).

(** Events were appended to the trace, none of them outbound. *)
Definition nothingSent : relation World :=
  fun w w' =>
    exists evs, trace w' = trace w ++ evs /\
                forallb (fun e => negb (isOutbound e)) evs = true.

(** What a media item that is loaded and sent leaves in the trace. *)
Definition sentMedia (C : Collaborators) (to : string) (caption : option string)
    (url : string) : list Event :=
  match loadWebMedia C url with
  | Some media =>
      [ESendMedia to (kind media) url caption; ELog "auto-reply sent (media)"]
  | None => []
  end.

(** A turn of the loop whose connection did not outlive one heartbeat
    interval. *)
Definition shortLived (C : Collaborators) (c : Cycle) : bool :=
  (uptimeMs c <=? heartbeatSeconds C * 1000)%Z.

(** ** More deployments, for the worked examples *)

Module FailingScenario.

(** As [Scenario.env], but [msg.reply] throws on the text "b". *)
Definition env : Collaborators :=
  mkCollaborators (Scenario.config None) Scenario.resolver (fun _ => Some Scenario.png)
    (fun _ _ => true) (fun body => negb (String.eqb body "b")) (fun _ _ => true)
    (fun _ _ => true)
    (fun _ => "") (fun s => s) Scenario.perSender 60
    (fun attempt => (1000 * attempt)%Z) 0 60 None true.

(** As [Scenario.env], but the socket refuses every send. *)
Definition offline : Collaborators :=
  mkCollaborators (Scenario.config None) Scenario.resolver (fun _ => Some Scenario.png)
    (fun _ _ => true) (fun _ => true) (fun _ _ => true) (fun _ _ => false)
    (fun _ => "") (fun s => s) Scenario.perSender 60
    (fun attempt => (1000 * attempt)%Z) 0 60 None true.

End FailingScenario.

Module QueueScenario.

(** "one" arrived while the command queue was busy; the queue has
    drained since, the retry timer has not fired yet. *)
Definition held : World :=
  run Scenario.env [InQueue 1; InMessage (Scenario.from "one") 1; InQueue 0] emptyWorld.

(** The same with the queue still busy. *)
Definition busy : World :=
  run Scenario.env [InQueue 1; InMessage (Scenario.from "one") 1] emptyWorld.

End QueueScenario.

Module LoopScenario.

(** At most three connection attempts. *)
Definition env : Collaborators := Scenario.envWith None true 3.

(** A connection that drops after five seconds. *)
Definition drop : Cycle := mkCycle false [] (Closed (Some 408%Z) false) 5000 false false false.

(** A connection that is closed as logged out. *)
Definition loggedOut : Cycle :=
  mkCycle false [] (Closed (Some 401%Z) true) 5000 false false false.

End LoopScenario.

(** ** Bytes and 32-bit values *)

Definition isByte (b : Z) : Prop := (0 <= b < 256)%Z.

(** A 32-bit value read as unsigned. *)
Definition unsigned (v : Z) : Z := (v mod 2 ^ 32)%Z.

(** How far the decoder is behind the encoder between two bytes: with
    [e] bits of the last byte still to be encoded, the decoder holds the
    other [8 - e] of them. *)
Definition inStep (e v d x last : Z) : Prop :=
  (e = 0 /\ d = 0)%Z \/
  ((0 < e < 5)%Z /\ d = (8 - e)%Z /\ isByte last /\
   (unsigned x mod 2 ^ d = last / 2 ^ e)%Z /\
   (unsigned v mod 2 ^ e = last mod 2 ^ e)%Z).

Definition pendingByte (e last : Z) : list Z :=
  if (e =? 0)%Z then [] else [last].

(** What the encoder writes from a state between two bytes on: the
    characters for the bytes still to come, then the closing one. *)
Definition encodeFrom (rest : list Z) (e v : Z) : string :=
  let '(bits, value, out) := fold_left Totp.encodeStep rest (e, v, "") in
  if (0 <? bits)%Z
  then out +:+ Totp.alphabetAt (Int32.and (Int32.shl value (5 - bits)) 31)
  else out.

(** Every code unit is one of the alphabet. *)
Fixpoint allAlphabet (s : string) : bool :=
  match s with
  | EmptyString => true
  | String c s' =>
      match Totp.indexFrom 0 Totp.BASE32_ALPHABET c with
      | Some _ => allAlphabet s'
      | None => false
      end
  end.

(** ** Reading the TOTP store *)

Definition userIds (st : TotpStore.State) : list string :=
  map TotpStore.telegramUserId (TotpStore.listTotpUsers st).

(** A run of sign-in attempts, each with its code and its instant. *)
Fixpoint attemptAll (hmacSha1 : list Z -> list Z -> list Z) (userId : string)
    (tries : list (string * Z)) (sessionDurationSec maxAttempts windowSec : Z)
    (st : TotpStore.State) : TotpStore.State :=
  match tries with
  | [] => st
  | (code, at_) :: rest =>
      attemptAll hmacSha1 userId rest sessionDurationSec maxAttempts windowSec
        (snd (TotpStore.verifyAndCreateSession hmacSha1 userId code sessionDurationSec
                                               maxAttempts windowSec at_ st))
  end.

(** The store file holds the users and sessions of [s], and [k] failed
    attempts of the user in the window that began at [start]. *)
Definition onRecord (userId : string) (k start : Z) (s : TotpStore.TotpStore)
    (st : TotpStore.State) : Prop :=
  exists limits,
    TotpStore.file st
    = TotpStore.Stored (TotpStore.mkStore (TotpStore.users s) (TotpStore.sessions s) limits) /\
    List.find (TotpStore.isLimitOf userId) limits
    = Some (TotpStore.mkRateLimit userId k (TotpStore.Iso start)).

(** A code that is not accepted at its instant, tried within the window
    that began at [start]. *)
Definition wrongWithin (hmacSha1 : list Z -> list Z -> list Z) (secret : list Z)
    (windowSec start : Z) (try : string * Z) : Prop :=
  Totp.verifyTotp hmacSha1 secret (fst try) Totp.DEFAULT_WINDOW Totp.DEFAULT_TIME_STEP
                  Totp.DEFAULT_DIGITS (snd try) = Ok false /\
  (snd try - start <= windowSec * 1000)%Z.

Module TotpScenario.

(** A stand-in for HMAC-SHA1: twenty bytes that depend on the key and
    on the message. *)
Definition hmac (key message : list Z) : list Z :=
  firstn 20 (message ++ key ++ repeat 7%Z 20).

Definition secret : list Z :=
  [1; 2; 3; 4; 5; 6; 7; 8; 9; 10; 11; 12; 13; 14; 15; 16; 17; 18; 19; 20]%Z.

(** 2026-01-01T00:00:00Z *)
Definition newYear : Z := 1767225600000.

Definition enrolled : TotpStore.State :=
  snd (TotpStore.enrollTotpUser "12345" None secret newYear TotpStore.initial).

(** What the store file holds after this enrolment. *)
Definition entry : TotpStore.TotpUserEntry :=
  TotpStore.mkUser "12345" (Totp.encodeBase32 secret) (TotpStore.Iso newYear) None.

Definition enrolledStore : TotpStore.TotpStore := TotpStore.mkStore [entry] [] [].

Definition code : string :=
  match Totp.generateTotp hmac secret 30 6 newYear with
  | Ok c => c
  | Threw _ => ""
  end.

(** Five guesses, a second apart. *)
Definition firstGuess : string * Z := ("000000", newYear).

Definition moreGuesses : list (string * Z) :=
  [("111111", newYear + 1000); ("222222", newYear + 2000);
   ("333333", newYear + 3000); ("444444", newYear + 4000)]%Z.

Definition signedIn : TotpStore.State :=
  snd (TotpStore.verifyAndCreateSession hmac "12345" code 3600 5 300 newYear enrolled).

Definition tools : list TotpStore.AnyAgentTool :=
  [TotpStore.mkTool "exec" (Some (fun params => Ok ("exec " +:+ params)));
   TotpStore.mkTool "session_status" (Some (fun _ => Ok "idle"))].

Definition guarded : TotpStore.TelegramTotpConfig :=
  TotpStore.mkTotpConfig None None None (Some ["exec"]).

End TotpScenario.

(** * Properties *)

(** Unfolds the plumbing of [M]. *)
Ltac unfold_m :=
  unfold bind, ret, emit, gets, modify, when, throw, tryCatch, execM,
         closeListener, loadSessionStore, saveSessionStore in *.

Lemma newEvents_app (w : World) (evs : list Event) (w' : World) :
  trace w' = trace w ++ evs -> newEvents w w' = evs.
Proof.
  intros H. unfold newEvents. rewrite H.
  rewrite skipn_app, Nat.sub_diag, skipn_all. reflexivity.
Qed.

(** ** The heartbeat token, by example *)

Example strip_exact : stripHeartbeatToken (Some "HEARTBEAT_OK") = mkStripped true "".
Proof. reflexivity. Qed.

Example strip_padded :
  stripHeartbeatToken (Some "  HEARTBEAT_OK HEARTBEAT_OK ") = mkStripped true "HEARTBEAT_OK HEARTBEAT_OK".
Proof. reflexivity. Qed.

Example strip_alert :
  stripHeartbeatToken (Some "HEARTBEAT_OK disk full") = mkStripped false "disk full".
Proof. reflexivity. Qed.

(** ** Chunking *)

Section Chunking.

Lemma dropLineTerminators_append (a b : string) :
  Js.dropLineTerminators (a +:+ b) =
  Js.dropLineTerminators a +:+ Js.dropLineTerminators b.
Proof.
  induction a as [|c a IH]; simpl; [reflexivity |].
  destruct (Js.isLineTerminator c); simpl; now rewrite IH.
Qed.

(** What one attempt of [.{1,n}] returns: a prefix of the text, no longer
    than [n], free of line terminators. *)
Lemma takeDots_spec (n : nat) (s p r : string) :
  Js.takeDots n s = (p, r) ->
  s = p +:+ r /\ (String.length p <= n)%nat /\ Js.dropLineTerminators p = p.
Proof.
  revert s p r. induction n as [|n IH]; intros s p r H.
  - destruct s; simpl in H; inversion H; subst; simpl; auto.
  - destruct s as [|c s]; simpl in H.
    + inversion H; subst; simpl; auto with arith.
    + destruct (Js.isLineTerminator c) eqn:Hc.
      * inversion H; subst; simpl; auto with arith.
      * destruct (Js.takeDots n s) as [p' r'] eqn:Hd.
        inversion H; subst. destruct (IH _ _ _ Hd) as (-> & Hlen & Hdrop).
        simpl. rewrite Hc, Hdrop. repeat split; auto with arith.
Qed.

(** An attempt fails only on a line terminator (or with a zero bound). *)
Lemma takeDots_empty (n : nat) (c : ascii) (s r : string) :
  Js.takeDots (S n) (String c s) = (EmptyString, r) ->
  Js.isLineTerminator c = true.
Proof.
  simpl. destruct (Js.isLineTerminator c); [reflexivity |].
  destruct (Js.takeDots n s); discriminate.
Qed.

Lemma length_append (a b : string) :
  String.length (a +:+ b) = (String.length a + String.length b)%nat.
Proof. induction a as [|x a IH]; [reflexivity | simpl; f_equal; exact IH]. Qed.

Lemma matchDotsFrom_concat (n fuel : nat) (s : string) :
  (String.length s <= fuel)%nat ->
  Js.concat (Js.matchDotsFrom (S n) fuel s) = Js.dropLineTerminators s.
Proof.
  revert s. induction fuel as [|fuel IH]; intros s Hlen.
  - destruct s; [reflexivity | simpl in Hlen; lia].
  - destruct s as [|c s]; [reflexivity |].
    cbn [Js.matchDotsFrom].
    destruct (Js.takeDots (S n) (String c s)) as [p r] eqn:Hd.
    destruct p as [|c' p'].
    + pose proof (takeDots_empty _ _ _ _ Hd) as Hc.
      simpl. rewrite Hc. apply IH. simpl in Hlen. lia.
    + destruct (takeDots_spec _ _ _ _ Hd) as (Hs & _ & Hdrop).
      cbn [Js.concat]. rewrite IH.
      * rewrite Hs, dropLineTerminators_append, Hdrop. reflexivity.
      * apply (f_equal String.length) in Hs. rewrite length_append in Hs.
        simpl in Hs, Hlen. lia.
Qed.

Lemma matchDotsFrom_bounds (n fuel : nat) (s chunk : string) :
  In chunk (Js.matchDotsFrom n fuel s) ->
  (1 <= String.length chunk <= n)%nat.
Proof.
  revert s. induction fuel as [|fuel IH]; intros s Hin; [destruct Hin |].
  destruct s as [|c s]; [destruct Hin |].
  cbn [Js.matchDotsFrom] in Hin.
  destruct (Js.takeDots n (String c s)) as [p r] eqn:Hd.
  destruct p as [|c' p'].
  - eauto.
  - destruct Hin as [<- | Hin]; [| eauto].
    destruct (takeDots_spec _ _ _ _ Hd) as (_ & Hlen & _). simpl in *. lia.
Qed.

(** Every chunk has between one and [WEB_TEXT_LIMIT] code units. *)
Lemma textChunks_bounded (p : ReplyPayload) (chunk : string) :
  In chunk (textChunksOf p) ->
  (1 <= String.length chunk <= WEB_TEXT_LIMIT)%nat.
Proof.
  unfold textChunksOf. destruct (0 <? _)%nat; [| intros []].
  apply matchDotsFrom_bounds.
Qed.

(** The chunks, put together again, are the text without its line
    terminators. *)
Lemma textChunks_concat (p : ReplyPayload) :
  Js.concat (textChunksOf p) = Js.dropLineTerminators (Js.orEmpty (text p)).
Proof.
  unfold textChunksOf.
  destruct (Js.orEmpty (text p)) as [|c t] eqn:Ht; [reflexivity |].
  change (0 <? String.length (String c t))%nat with true. cbn iota.
  unfold Js.matchDots, WEB_TEXT_LIMIT. now apply matchDotsFrom_concat.
Qed.

End Chunking.

(** ** C5: chunking of the reply text *)

(** C5 (code at variance with the claim).  The claim: the chunks of a
    reply text, concatenated in order, are the original text.  The code
    splits with the pattern [.{1,4000}], and [.] does not match a line
    terminator: for the two-line text "a", LF, "b" the chunks are "a" and
    "b", they are sent as two messages, and the line feed is in neither. *)
Theorem deliver_text_drops_line_terminators :
  let reply := mkPayload (Some ("a" +:+ Js.LF +:+ "b")) None None in
  textChunksOf reply = ["a"; "b"] /\
  Js.concat (textChunksOf reply) <> Js.orEmpty (text reply) /\
  newEvents emptyWorld
    (execM (deliverWebReply Scenario.env reply (Scenario.from "hi")) emptyWorld)
  = [EReply "+1555" "a"; EReply "+1555" "b"; ELog "auto-reply sent (text)"].
Proof. repeat split; vm_compute; discriminate || reflexivity. Qed.

(** A text without line terminators does come back whole. *)
Lemma textChunks_concat_single_line (p : ReplyPayload) :
  Js.dropLineTerminators (Js.orEmpty (text p)) = Js.orEmpty (text p) ->
  Js.concat (textChunksOf p) = Js.orEmpty (text p).
Proof. intros H. rewrite textChunks_concat. exact H. Qed.

(** ** C9: idle expiry *)

(** C9, counterexample to the wording.  With [idleMinutes] configured as
    0, an entry last updated
    (0 + 1) * 60000 ms ago is reported fresh: the window is never shorter
    than one minute. *)
Lemma idle_window_clamped_counterexample :
  ~ freshAgainstConfigured (Scenario.envWith (Some 0%Z) true 0)
      (withDisk [("+1555", mkEntry "s1" (100000 - (0 + 1) * 60000))] emptyWorld)
      "+1555" 100000.
Proof.
  intros H.
  specialize (H 0%Z (mkEntry "s1" 40000) (mkSnapshot "+1555" (Some (mkEntry "s1" 40000)) true 1)
                eq_refl eq_refl eq_refl).
  vm_compute in H. discriminate H.
Qed.

(** C9 (as amended).  A snapshot is a read: it returns and leaves the
    world, the stored entries included, as it found it.  Its idle window
    is the configured [idleMinutes] (for a heartbeat snapshot
    [heartbeatIdleMinutes] when that is set), the default when nothing is
    configured, and at least 1.  The session is fresh exactly when its
    entry exists and [now - updatedAt <= window * 60000]: an entry updated
    [(window + 1) * 60000] ms ago is stale, one updated at [now] is
    fresh. *)
Theorem snapshot_freshness (C : Collaborators) (from : string) (isHeartbeat : bool)
    (now : Z) (w : World) :
  exists snap,
    getSessionSnapshot C from isHeartbeat now w = (Ok snap, w) /\
    snap_idleMinutes snap = resolveIdleMinutes C isHeartbeat /\
    (1 <= snap_idleMinutes snap)%Z /\
    snap_entry snap = storeGet (disk w) (snap_key snap) /\
    (snap_fresh snap = true <->
     exists e, snap_entry snap = Some e /\
               (now - updatedAt e <= snap_idleMinutes snap * 60000)%Z) /\
    (forall e, snap_entry snap = Some e ->
               updatedAt e = (now - (snap_idleMinutes snap + 1) * 60000)%Z ->
               snap_fresh snap = false) /\
    (forall e, snap_entry snap = Some e -> updatedAt e = now -> snap_fresh snap = true).
Proof.
  eexists. split; [reflexivity |]. cbn [snap_idleMinutes snap_entry snap_fresh snap_key].
  assert (Hmin : (1 <= resolveIdleMinutes C isHeartbeat)%Z)
    by (unfold resolveIdleMinutes; lia).
  set (idle := resolveIdleMinutes C isHeartbeat) in *.
  repeat split; try assumption.
  - destruct (storeGet _ _) as [e|]; [| discriminate].
    intros H. exists e. split; [reflexivity | lia].
  - intros (e & -> & H). lia.
  - intros e -> Hupd. rewrite Hupd. lia.
  - intros e -> Hupd. rewrite Hupd. lia.
Qed.

(** ** C8: backpressure on the reply heartbeat *)

(** C8.  At a tick that finds the command queue non-empty the reply
    heartbeat returns at once: two log lines are written, the resolver is
    not called and nothing is sent. *)
Theorem reply_heartbeat_skipped_when_queue_busy (C : Collaborators) (now : Z) (w : World) :
  (0 < queueSize w)%nat ->
  runReplyHeartbeat C now w =
    (Ok tt,
     withTrace (trace w ++ [ELog "reply heartbeat skipped (requests-in-flight)";
                            ELog "heartbeat: skipped (requests in flight)"]) w) /\
  forall e, In e (newEvents w (execM (runReplyHeartbeat C now) w)) ->
            isResolve e = false /\ isOutbound e = false.
Proof.
  intros Hq.
  assert (Hrun : runReplyHeartbeat C now w =
    (Ok tt,
     withTrace (trace w ++ [ELog "reply heartbeat skipped (requests-in-flight)";
                            ELog "heartbeat: skipped (requests in flight)"]) w)).
  { unfold runReplyHeartbeat. unfold_m.
    destruct (queueSize w) as [|q] eqn:Hw; [lia |]. cbn.
    unfold_m. cbn. rewrite <- app_assoc. reflexivity. }
  split; [exact Hrun |].
  unfold execM. rewrite Hrun. cbn [snd].
  rewrite (newEvents_app w [ELog "reply heartbeat skipped (requests-in-flight)";
                            ELog "heartbeat: skipped (requests in flight)"])
    by reflexivity.
  intros e [<- | [<- | []]]; split; reflexivity.
Qed.

(** C8 at work: a tick that finds two commands queued. *)
Lemma reply_heartbeat_skipped_witness :
  runReplyHeartbeat Scenario.env 0 (withQueueSize 2 emptyWorld) =
    (Ok tt,
     withTrace [ELog "reply heartbeat skipped (requests-in-flight)";
                ELog "heartbeat: skipped (requests in flight)"]
               (withQueueSize 2 emptyWorld)).
Proof.
  apply (reply_heartbeat_skipped_when_queue_busy Scenario.env 0 (withQueueSize 2 emptyWorld)).
  simpl. lia.
Defined.

(** ** C4: media failure and the text *)

(** When [loadWebMedia] throws for the first item, the chunks are still
    all there: the failure is logged and the first chunk goes out as a
    plain message. *)
Lemma media_load_failure_sends_text (C : Collaborators) (m : WebInboundMsg)
    (url chunk : string) (chunks : list string) (w : World) :
  loadWebMedia C url = None ->
  replyOk C chunk = true ->
  sendOneMedia C m 0 url (chunk :: chunks) w =
    (Ok chunks,
     withTrace (trace w ++ [ELog "failed to send web media reply";
                            ELog "Media skipped; sent text-only";
                            EReply (msg_from m) chunk]) w).
Proof.
  intros Hload Hreply. unfold sendOneMedia, mediaFailed, msgReply.
  rewrite Hload. cbn. rewrite Hreply. unfold_m. cbn.
  repeat rewrite <- app_assoc. reflexivity.
Qed.

(** C4 (code at variance with the claim).  The claim: when sending the
    first media item throws, the first text chunk is sent as a plain
    message, so the text is never lost.  The code takes the first chunk
    off [remainingText] as the caption before it calls [msg.sendMedia];
    when that call throws, the [catch] finds no chunk left.  For the text
    "hello world" with the one media item "a.png" the failure is logged,
    the call returns normally, and nothing at all is sent. *)
Theorem caption_lost_when_media_send_throws :
  let reply := mkPayload (Some "hello world") None (Some ["a.png"]) in
  let C := Scenario.envWith None false 0 in
  loadWebMedia C "a.png" = Some Scenario.png /\
  sendMediaOk C "a.png" (Some "hello world") = false /\
  deliverWebReply C reply (Scenario.from "hi") emptyWorld =
    (Ok tt, withTrace [ELog "failed to send web media reply"] emptyWorld).
Proof. repeat split. Qed.

(** ** The echo guard as a set *)

Section GuardFacts.

Import EchoGuard.

Lemma has_In (g : list string) (t : string) : has g t = true <-> In t g.
Proof.
  unfold has. rewrite existsb_exists. split.
  - intros (x & Hin & Heq). apply String.eqb_eq in Heq. now subst.
  - intros Hin. exists t. split; [assumption | apply String.eqb_refl].
Qed.

Lemma has_app (g h : list string) (t : string) : has (g ++ h) t = has g t || has h t.
Proof. unfold has. apply existsb_app. Qed.

Lemma In_delete (g : list string) (t x : string) :
  In x (delete g t) <-> In x g /\ x <> t.
Proof.
  induction g as [|y g IH]; simpl; [tauto |].
  destruct (String.eqb_spec y t) as [-> | Hne]; simpl; rewrite IH.
  - split; [tauto |]. intros [[<- | Hin] Hx]; [contradiction | tauto].
  - split; [| tauto]. intros [<- | [Hin Hx]]; tauto.
Qed.

Lemma has_delete_same (g : list string) (t : string) : has (delete g t) t = false.
Proof.
  destruct (has (delete g t) t) eqn:H; [| reflexivity].
  apply has_In, In_delete in H. tauto.
Qed.

Lemma has_delete_other (g : list string) (t x : string) :
  x <> t -> has (delete g t) x = has g x.
Proof.
  intros Hne. destruct (has g x) eqn:H.
  - apply has_In. apply In_delete. split; [now apply has_In | assumption].
  - destruct (has (delete g t) x) eqn:H'; [| reflexivity].
    apply has_In, In_delete in H'. destruct H' as [Hin _].
    apply has_In in Hin. congruence.
Qed.

Lemma has_singleton (t : string) : has [t] t = true.
Proof. unfold has. simpl. now rewrite String.eqb_refl. Qed.

Lemma has_head_ne (k t : string) (g : list string) : has (k :: g) t = false -> k <> t.
Proof.
  intros H ->. unfold has in H. simpl in H. rewrite String.eqb_refl in H. discriminate.
Qed.

Lemma has_add_same (g : list string) (t : string) : has (add g t) t = true.
Proof.
  unfold add. destruct (has g t) eqn:H; [assumption |].
  rewrite has_app, has_singleton. apply orb_true_r.
Qed.

Lemma has_add_keeps (g : list string) (t x : string) :
  has g x = true -> has (add g t) x = true.
Proof.
  intros H. unfold add. destruct (has g t); [assumption |].
  rewrite has_app, H. reflexivity.
Qed.

Lemma length_delete_le (g : list string) (t : string) :
  (length (delete g t) <= length g)%nat.
Proof.
  induction g as [|y g IH]; simpl; [lia |].
  destruct (String.eqb y t); simpl; lia.
Qed.

Lemma length_delete_head (k : string) (g : list string) :
  (length (delete (k :: g) k) <= length g)%nat.
Proof. simpl. rewrite String.eqb_refl. apply length_delete_le. Qed.

Lemma length_add (g : list string) (t : string) :
  (length (add g t) <= S (length g))%nat.
Proof.
  unfold add. destruct (has g t); [lia |]. rewrite length_app. simpl. lia.
Qed.

(** The set never holds a value twice. *)
Lemma NoDup_add (g : list string) (t : string) : NoDup g -> NoDup (add g t).
Proof.
  intros Hg. unfold add. destruct (has g t) eqn:H; [assumption |].
  apply NoDup_app. repeat split; [assumption | | apply NoDup_singleton].
  intros x Hin Hx. apply list_elem_of_In in Hin, Hx.
  destruct Hx as [-> | []]. apply has_In in Hin. congruence.
Qed.

Lemma NoDup_delete (g : list string) (t : string) : NoDup g -> NoDup (delete g t).
Proof.
  induction 1 as [|y g Hy Hg IH]; simpl; [constructor |].
  destruct (String.eqb y t); [assumption |].
  constructor; [| assumption].
  rewrite list_elem_of_In, In_delete. rewrite list_elem_of_In in Hy. tauto.
Qed.

Lemma NoDup_evictOldest (g : list string) : NoDup g -> NoDup (evictOldest g).
Proof.
  intros Hg. unfold evictOldest. destruct (_ <? _)%nat; [| assumption].
  destruct g as [|k g']; [assumption |].
  destruct (Js.truthy k); [| assumption]. now apply NoDup_delete.
Qed.

(** A text that was not held before it is registered is held after the
    registration, on either path: eviction takes the oldest entry, and
    that is another one. *)
Lemma evictOldest_keeps (g : list string) (k t : string) :
  k <> t -> has (k :: g) t = true -> has (evictOldest (k :: g)) t = true.
Proof.
  intros Hne H. unfold evictOldest. destruct (_ <? _)%nat; [| assumption].
  destruct (Js.truthy k); [| assumption].
  rewrite has_delete_other by congruence. assumption.
Qed.

Lemma evictOldest_small (g : list string) :
  (length g <= MAX_RECENT_MESSAGES)%nat -> evictOldest g = g.
Proof.
  intros H. unfold evictOldest.
  destruct (Nat.ltb_spec MAX_RECENT_MESSAGES (length g)); [lia | reflexivity].
Qed.

Lemma rememberIpc_holds_fresh (g : list string) (t : string) :
  has g t = false -> has (rememberIpc g t) t = true.
Proof.
  intros Hfresh. unfold rememberIpc, add. rewrite Hfresh.
  destruct g as [|k g'].
  - change (has [t] t = true). apply has_singleton.
  - apply evictOldest_keeps.
    + now apply (has_head_ne k t g').
    + change (has ((k :: g') ++ [t]) t = true).
      rewrite has_app, has_singleton. apply orb_true_r.
Qed.

Lemma rememberReply_holds_fresh (g : list string) (t combinedBody : string) :
  has g t = false -> has (rememberReply g t combinedBody) t = true.
Proof.
  intros Hfresh. unfold rememberReply.
  assert (Hadd : add g t = g ++ [t]) by (unfold add; now rewrite Hfresh).
  rewrite Hadd.
  assert (Hheld : has (add (g ++ [t]) combinedBody) t = true).
  { apply has_add_keeps. rewrite has_app, has_singleton. apply orb_true_r. }
  destruct g as [|k g'].
  - rewrite evictOldest_small; [assumption |].
    pose proof (length_add ([] ++ [t]) combinedBody) as Hlen.
    unfold MAX_RECENT_MESSAGES. simpl in Hlen |- *. lia.
  - pose proof (has_head_ne k t g' Hfresh) as Hne.
    unfold add in Hheld |- *.
    destruct (has ((k :: g') ++ [t]) combinedBody); simpl app in *;
      now apply evictOldest_keeps.
Qed.

(** The IPC path keeps the bound: one entry comes in, the oldest goes
    out.  (The empty string is never evicted, so it must not be held.) *)
Lemma rememberIpc_bounded (g : list string) (message : string) :
  (length g <= MAX_RECENT_MESSAGES)%nat ->
  ~ In "" g -> message <> "" ->
  (length (rememberIpc g message) <= MAX_RECENT_MESSAGES)%nat.
Proof.
  intros Hlen Hempty Hmsg. unfold rememberIpc, evictOldest.
  pose proof (length_add g message) as Hadd.
  destruct (MAX_RECENT_MESSAGES <? length (add g message))%nat eqn:Hover.
  - apply Nat.ltb_lt in Hover.
    destruct (add g message) as [|k rest] eqn:Hg'; [simpl in Hover; lia |].
    assert (Hk : k <> "").
    { assert (Hin : In k (add g message)) by (rewrite Hg'; now left).
      unfold add in Hin. destruct (has g message).
      - intros ->. contradiction.
      - apply in_app_or in Hin. destruct Hin as [Hin | [<- | []]].
        + intros ->. contradiction.
        + assumption. }
    unfold Js.truthy. destruct (String.eqb_spec k ""); [contradiction |].
    cbn [negb]. pose proof (length_delete_head k rest). simpl in Hadd. lia.
  - apply Nat.ltb_ge in Hover. assumption.
Qed.

End GuardFacts.

(** ** C10: the capacity of the echo guard *)

(** C10 (code at variance with the claim).  The claim: the guard never
    holds more than 100 entries.  After a delivered reply [processBatch]
    adds two entries, the reply text and the combined body, and then
    evicts at most one.  From a guard that holds 100 entries one answered
    message leads to 101, and three answered messages to 103. *)
Theorem echo_guard_outgrows_capacity :
  let answered (bodies : list string) :=
    run Scenario.env (map (fun b => InMessage (Scenario.from b) 1) bodies)
        GuardScenario.full in
  length (recentlySent GuardScenario.full) = 100%nat /\
  EchoGuard.rememberReply (recentlySent GuardScenario.full) "re: [warelay] hi" "[warelay] hi"
    = recentlySent (answered ["hi"]) /\
  length (recentlySent (answered ["hi"])) = 101%nat /\
  length (recentlySent (answered ["hi"; "ho"; "hu"])) = 103%nat.
Proof.
  intros answered. subst answered.
  split; [vm_compute; reflexivity |].
  split; [vm_compute; reflexivity |].
  split; vm_compute; reflexivity.
Qed.

(** ** C1: an echo is suppressed once *)

(** C1, counterexample to the wording.  "hello" is sent and registered;
    a hundred further sends push it out of the guard; the inbound "hello"
    that follows is dispatched. *)
Lemma evicted_echo_is_dispatched_counterexample :
  ~ echoSkippedAfterRegistration Scenario.env emptyWorld "hello"
      GuardScenario.hundredSends (Scenario.from "hello") 1.
Proof.
  intros H.
  assert (Hbetween :
    forallb (fun i => negb (isInboundWithBody "hello" i)) GuardScenario.hundredSends = true)
    by (vm_compute; reflexivity).
  destruct (H eq_refl eq_refl Hbetween) as [Hres _].
  vm_compute in Hres. discriminate Hres.
Qed.

(** C1 (as amended).  When an inbound message arrives whose body the
    guard holds, the message is skipped: one line is logged, nothing is
    batched or dispatched, and the body is taken out of the guard.  The
    guard then no longer holds it, and a second inbound message with the
    same body goes on to the batcher. *)
Theorem echo_suppressed_once (C : Collaborators) (w : World) (m : WebInboundMsg) (now : Z) :
  EchoGuard.has (recentlySent w) (msg_body m) = true ->
  let after := execM (onMessage C m now) w in
  onMessage C m now w = (Ok tt, after) /\
  newEvents w after = [ELog "Skipping echo: detected recently sent message"] /\
  pendingBatches after = pendingBatches w /\
  recentlySent after = EchoGuard.delete (recentlySent w) (msg_body m) /\
  EchoGuard.has (recentlySent after) (msg_body m) = false /\
  forall (m2 : WebInboundMsg) (now2 : Z),
    msg_body m2 = msg_body m ->
    onMessage C m2 now2 after = enqueueBatch C m2 (noteInbound m2 now2 after).
Proof.
  intros Hheld after.
  assert (Hafter : onMessage C m now w =
    (Ok tt,
     withRecentlySent (EchoGuard.delete (recentlySent w) (msg_body m))
       (withTrace (trace w ++ [ELog "Skipping echo: detected recently sent message"])
          (noteInbound m now w)))).
  { unfold onMessage. unfold_m. cbn -[EchoGuard.has EchoGuard.delete].
    rewrite Hheld. reflexivity. }
  subst after. unfold execM. rewrite Hafter. cbn [snd].
  repeat split.
  - now apply newEvents_app.
  - cbn. apply has_delete_same.
  - intros m2 now2 Hbody. unfold onMessage. unfold_m.
    cbn -[EchoGuard.has EchoGuard.delete enqueueBatch].
    rewrite Hbody, has_delete_same. reflexivity.
Qed.

(** C1 at work: "hello", just sent over IPC, comes back in. *)
Lemma echo_suppressed_once_witness :
  let w := step Scenario.env emptyWorld (InIpcSend "+1555" "hello" None) in
  let after := execM (onMessage Scenario.env (Scenario.from "hello") 1) w in
  newEvents w after = [ELog "Skipping echo: detected recently sent message"] /\
  EchoGuard.has (recentlySent after) "hello" = false.
Proof.
  intros w after.
  destruct (echo_suppressed_once Scenario.env w (Scenario.from "hello") 1 eq_refl)
    as (_ & Hev & _ & _ & Hgone & _).
  split; assumption.
Defined.

(** ** C2: a batch is flushed as one unit *)

Section Quiet.

Variable C : Collaborators.

Lemma resolves_app (a b : list Event) : resolves (a ++ b) = resolves a ++ resolves b.
Proof. unfold resolves. apply flat_map_app. Qed.

Lemma quiet_ret {A} (a : A) : quiet (ret a).
Proof. intros w. split; [reflexivity |]. exists []. now rewrite app_nil_r. Qed.

Lemma quiet_throw {A} (err : string) : quiet (@throw A err).
Proof. intros w. split; [reflexivity |]. exists []. now rewrite app_nil_r. Qed.

Lemma quiet_emit (e : Event) : isResolve e = false -> quiet (emit e).
Proof.
  intros He w. split; [reflexivity |]. exists [e]. split; [reflexivity |].
  destruct e; try reflexivity; discriminate.
Qed.

Lemma quiet_bind {A B} (m : M A) (k : A -> M B) :
  quiet m -> (forall a, quiet (k a)) -> quiet (bind m k).
Proof.
  intros Hm Hk w. unfold bind. destruct (Hm w) as (Hpb & evs & Htr & Hres).
  destruct (m w) as [[a | err] w1]; cbn [snd] in *.
  - destruct (Hk a w1) as (Hpb' & evs' & Htr' & Hres'). split; [congruence |].
    exists (evs ++ evs'). rewrite Htr', Htr, app_assoc, resolves_app, Hres, Hres'.
    split; reflexivity.
  - split; [assumption |]. exists evs. split; assumption.
Qed.

Lemma quiet_tryCatch {A} (body : M A) (handler : string -> M A) :
  quiet body -> (forall err, quiet (handler err)) -> quiet (tryCatch body handler).
Proof.
  intros Hm Hk w. unfold tryCatch. destruct (Hm w) as (Hpb & evs & Htr & Hres).
  destruct (body w) as [[a | err] w1]; cbn [snd] in *.
  - split; [assumption |]. exists evs. split; assumption.
  - destruct (Hk err w1) as (Hpb' & evs' & Htr' & Hres'). split; [congruence |].
    exists (evs ++ evs'). rewrite Htr', Htr, app_assoc, resolves_app, Hres, Hres'.
    split; reflexivity.
Qed.

Lemma quiet_when (b : bool) (m : M unit) : quiet m -> quiet (when b m).
Proof. destruct b; [trivial | intros _; apply quiet_ret]. Qed.

Lemma quiet_rememberSent (replyText combinedBody : string) :
  quiet (rememberSent replyText combinedBody).
Proof. intros w. split; [reflexivity |]. exists []. cbn. now rewrite app_nil_r. Qed.

Create HintDb quiet.
#[local] Hint Resolve quiet_ret quiet_throw quiet_bind quiet_tryCatch quiet_when
  quiet_rememberSent : quiet.
#[local] Hint Extern 1 (quiet (emit _)) => apply quiet_emit; reflexivity : quiet.

Lemma quiet_msgReply (m : WebInboundMsg) (body : string) : quiet (msgReply C m body).
Proof. unfold msgReply. destruct (replyOk C body); auto with quiet. Qed.

#[local] Hint Resolve quiet_msgReply : quiet.

Lemma quiet_sendChunks (m : WebInboundMsg) (chunks : list string) :
  quiet (sendChunks C m chunks).
Proof. induction chunks as [|c chunks IH]; simpl; auto with quiet. Qed.

Lemma quiet_mediaFailed (m : WebInboundMsg) (index : nat) (remainingText : list string) :
  quiet (mediaFailed C m index remainingText).
Proof.
  unfold mediaFailed. apply quiet_bind; [auto with quiet |]. intros _.
  destruct (_ && _); auto 6 with quiet.
Qed.

#[local] Hint Resolve quiet_sendChunks quiet_mediaFailed : quiet.

Lemma quiet_sendOneMedia (m : WebInboundMsg) (index : nat) (url : string)
    (remainingText : list string) :
  quiet (sendOneMedia C m index url remainingText).
Proof.
  unfold sendOneMedia. destruct (loadWebMedia C url); [| auto with quiet].
  destruct (sendMediaOk C url _); auto 6 with quiet.
Qed.

Lemma quiet_mediaLoop (m : WebInboundMsg) (mediaList : list string) :
  forall (index : nat) (remainingText : list string),
    quiet (mediaLoop C m index mediaList remainingText).
Proof.
  induction mediaList as [|url rest IH]; intros index remainingText; simpl.
  - auto with quiet.
  - apply quiet_bind; [apply quiet_sendOneMedia | intros; apply IH].
Qed.

Lemma quiet_deliverWebReply (p : ReplyPayload) (m : WebInboundMsg) :
  quiet (deliverWebReply C p m).
Proof.
  unfold deliverWebReply. destruct (_ && _).
  - auto with quiet.
  - apply quiet_bind; [apply quiet_mediaLoop | auto with quiet].
Qed.

Lemma quiet_deliverOne (combinedBody : string) (latest : WebInboundMsg) (p : ReplyPayload) :
  quiet (deliverOne C combinedBody latest p).
Proof.
  unfold deliverOne. apply quiet_tryCatch; [| auto with quiet].
  apply quiet_bind; [apply quiet_deliverWebReply | auto with quiet].
Qed.

Lemma quiet_deliverAll (combinedBody : string) (latest : WebInboundMsg)
    (ps : list ReplyPayload) :
  quiet (deliverAll C combinedBody latest ps).
Proof.
  induction ps as [|p ps IH]; simpl; [auto with quiet |].
  apply quiet_bind; [apply quiet_deliverOne | trivial].
Qed.

End Quiet.

(** C2, counterexample to the wording.  The combined body of the pending
    batch is the one that was registered when the first "hi" was
    answered: the flush takes it for an echo and drops the batch without
    calling the resolver. *)
Lemma echoed_batch_is_dropped_counterexample :
  ~ flushDispatchesOnce Scenario.env BatchScenario.secondHiPending "+1555"
      (Scenario.from "hi") [].
Proof.
  intros H.
  assert (Hpending : pendingBatches BatchScenario.secondHiPending !! "+1555"
                     = Some (mkBatch [Scenario.from "hi"] true))
    by (vm_compute; reflexivity).
  specialize (H true Hpending eq_refl).
  vm_compute in H. discriminate H.
Qed.

(** How a batch fills up. *)

(** An inbound message that is no echo, arriving while the command queue
    is busy, is appended to its sender's batch; the retry timer is set
    unless one is pending. *)
Lemma enqueue_while_busy (C : Collaborators) (w : World) (m : WebInboundMsg) (now : Z) :
  (0 < queueSize w)%nat ->
  EchoGuard.has (recentlySent w) (msg_body m) = false ->
  let bucket := default (mkBatch [] false) (pendingBatches w !! msg_from m) in
  step C w (InMessage m now) =
    mkWorld (trace w ++ (if timer bucket then [] else [ESetTimeout (msg_from m) 150]))
            (disk w) (queueSize w) (recentlySent w)
            (<[msg_from m := mkBatch (messages bucket ++ [m]) true]> (pendingBatches w))
            (Some m) (S (handledMessages w)) (Some now).
Proof.
  intros Hbusy Hfresh bucket.
  assert (Hq : (queueSize w =? 0)%nat = false) by (apply Nat.eqb_neq; lia).
  unfold step, execM. cbn [handle]. unfold onMessage, enqueueBatch. unfold_m.
  cbn -[EchoGuard.has processBatch Nat.eqb]. rewrite Hfresh.
  cbn -[EchoGuard.has processBatch Nat.eqb]. fold bucket. rewrite Hq.
  destruct (timer bucket) eqn:Htimer; cbn -[EchoGuard.has processBatch].
  - rewrite app_nil_r. reflexivity.
  - rewrite insert_insert_eq. reflexivity.
Qed.

Lemma busy_queue_accumulates_from (C : Collaborators) (from : string)
    (arrivals : list (WebInboundMsg * Z)) :
  forall (w : World) (held : list WebInboundMsg),
    (0 < queueSize w)%nat ->
    messages (default (mkBatch [] false) (pendingBatches w !! from)) = held ->
    Forall (fun a => msg_from (fst a) = from /\
                     EchoGuard.has (recentlySent w) (msg_body (fst a)) = false) arrivals ->
    arrivals <> [] ->
    let after := run C (map (fun a => InMessage (fst a) (snd a)) arrivals) w in
    pendingBatches after !! from = Some (mkBatch (held ++ map fst arrivals) true) /\
    (forall other, other <> from ->
       pendingBatches after !! other = pendingBatches w !! other) /\
    exists evs, trace after = trace w ++ evs /\ resolves evs = [].
Proof.
  induction arrivals as [|[m now] arrivals IH]; intros w held Hbusy Hheld Hall Hne;
    [contradiction |].
  inversion Hall as [|a l [Hfrom Hfresh] Hrest]; subst a l. cbn [fst snd] in *.
  cbn [map fst snd].
  change (run C (InMessage m now :: map (fun a => InMessage (fst a) (snd a)) arrivals) w)
    with (run C (map (fun a => InMessage (fst a) (snd a)) arrivals)
              (step C w (InMessage m now))).
  pose proof (enqueue_while_busy C w m now Hbusy Hfresh) as Hstep.
  cbv zeta in Hstep. rewrite Hfrom, Hheld in Hstep.
  set (evs1 := if timer (default (mkBatch [] false) (pendingBatches w !! from))
               then [] else [ESetTimeout from 150]) in *.
  assert (Hevs1 : resolves evs1 = []) by (subst evs1; destruct (timer _); reflexivity).
  destruct arrivals as [|a arrivals].
  - cbn [map run fold_left]. rewrite Hstep. cbn.
    split; [apply lookup_insert_eq |].
    split; [intros other Hother; now apply lookup_insert_ne |].
    exists evs1. split; [reflexivity | assumption].
  - destruct (IH (step C w (InMessage m now)) (held ++ [m])) as (Hbatch & Hothers & evs & Htr & Hres).
    + rewrite Hstep. assumption.
    + rewrite Hstep. cbn. now rewrite lookup_insert_eq.
    + rewrite Hstep. cbn. exact Hrest.
    + discriminate.
    + cbv zeta. rewrite Hbatch. rewrite <- app_assoc.
      split; [reflexivity |].
      split.
      * intros other Hother. rewrite Hothers by assumption. rewrite Hstep. cbn.
        now apply lookup_insert_ne.
      * exists (evs1 ++ evs). rewrite Htr, Hstep. cbn.
        rewrite app_assoc, resolves_app, Hevs1, Hres. split; reflexivity.
Qed.

(** X1: N messages from one sender, none of them an echo, arriving while the
    command queue is busy, end up in that sender's batch in arrival
    order, and the resolver is not called meanwhile. *)
Lemma busy_queue_accumulates (C : Collaborators) (from : string)
    (arrivals : list (WebInboundMsg * Z)) (w : World) :
  (0 < queueSize w)%nat ->
  pendingBatches w !! from = None ->
  Forall (fun a => msg_from (fst a) = from /\
                   EchoGuard.has (recentlySent w) (msg_body (fst a)) = false) arrivals ->
  arrivals <> [] ->
  let after := run C (map (fun a => InMessage (fst a) (snd a)) arrivals) w in
  pendingBatches after !! from = Some (mkBatch (map fst arrivals) true) /\
  resolves (newEvents w after) = [].
Proof.
  intros Hbusy Hnone Hall Hne after.
  destruct (busy_queue_accumulates_from C from arrivals w [] Hbusy) as (Hb & _ & evs & Htr & Hres);
    try assumption.
  - now rewrite Hnone.
  - split; [exact Hb |]. subst after. now rewrite (newEvents_app _ _ _ Htr).
Qed.

(** C2 (as amended).  A sender's pending batch of N >= 1 messages,
    flushed while the command queue is empty, leaves the map as one unit:
    the sender has no batch afterwards and the batches of other senders
    are as they were.  One line is built per message and the lines are
    joined in arrival order.  When the guard does not hold this combined
    body, the resolver is invoked exactly once during the flush, with the
    combined body as [Body] and the last message's addresses; when the
    guard holds it, the batch is dropped as an echo, the resolver is not
    invoked, and the body is taken out of the guard. *)
Theorem flush_is_one_unit (C : Collaborators) (w : World) (from : string)
    (first : WebInboundMsg) (others : list WebInboundMsg) (tm : bool) :
  pendingBatches w !! from = Some (mkBatch (first :: others) tm) ->
  queueSize w = 0%nat ->
  let msgs := first :: others in
  let combinedBody := Js.join Js.LF (map (buildLine C) msgs) in
  let after := execM (processBatch C from) w in
  pendingBatches after !! from = None /\
  (forall other, other <> from ->
     pendingBatches after !! other = pendingBatches w !! other) /\
  if EchoGuard.has (recentlySent w) combinedBody
  then resolves (newEvents w after) = [] /\
       recentlySent after = EchoGuard.delete (recentlySent w) combinedBody
  else resolves (newEvents w after) = [ctxOfBatch combinedBody (List.last msgs first)].
Proof.
  intros Hbatch Hqueue msgs combinedBody after.
  set (latest := List.last msgs first).
  assert (Hbody : combinedBodyOf C (first :: others) = combinedBody) by reflexivity.
  assert (Hlatest : List.last (first :: others) first = latest) by reflexivity.
  clearbody combinedBody latest. clear msgs.
  assert (Hafter :
    exists evs,
      pendingBatches after = delete from (pendingBatches w) /\
      trace after = trace w ++ evs /\
      if EchoGuard.has (recentlySent w) combinedBody
      then evs = [] /\
           recentlySent after = EchoGuard.delete (recentlySent w) combinedBody
      else resolves evs = [ctxOfBatch combinedBody latest]).
  { subst after. unfold execM, processBatch. unfold_m.
    cbn -[EchoGuard.has EchoGuard.delete combinedBodyOf deliverAll List.last].
    rewrite Hbatch.
    cbn -[EchoGuard.has EchoGuard.delete combinedBodyOf deliverAll List.last].
    rewrite Hqueue.
    cbn -[EchoGuard.has EchoGuard.delete combinedBodyOf deliverAll List.last].
    rewrite Hbody, Hlatest.
    destruct (EchoGuard.has (recentlySent w) combinedBody) eqn:Hecho.
    - exists []. cbn. rewrite app_nil_r. repeat split.
    - unfold callResolver. unfold_m.
      cbn -[EchoGuard.has EchoGuard.delete combinedBodyOf deliverAll List.last].
      destruct (replyResolver C (ctxOfBatch combinedBody latest) (disk w))
        as [[reply | err] store'] eqn:Hres.
      + match goal with
        | |- context [deliverAll C ?b ?l ?ps ?w0] =>
            destruct (quiet_deliverAll C b l ps w0) as (Hpb & evs & Htr & Hquiet)
        end.
        exists ([ELog "inbound web message (batched)";
                 EResolve (ctxOfBatch combinedBody latest)] ++ evs).
        rewrite Hpb, Htr. cbn [pendingBatches trace withTrace withDisk withPendingBatches].
        repeat split.
        * rewrite <- !app_assoc. reflexivity.
        * rewrite resolves_app, Hquiet. reflexivity.
      + exists [ELog "inbound web message (batched)";
                EResolve (ctxOfBatch combinedBody latest)].
        cbn. rewrite <- !app_assoc. repeat split. }
  destruct Hafter as (evs & Hpb & Htr & Hcase).
  rewrite Hpb. split; [apply lookup_delete_eq |].
  split; [intros other Hne; now apply lookup_delete_ne |].
  rewrite (newEvents_app w evs after Htr).
  destruct (EchoGuard.has (recentlySent w) combinedBody).
  - destruct Hcase as [-> Hguard]. split; [reflexivity | assumption].
  - assumption.
Qed.

(** C2 at work: "one" and "two" arrive while the queue is busy and are
    flushed together once it has drained. *)
Lemma flush_is_one_unit_witness :
  let w := run Scenario.env [InQueue 1; InMessage (Scenario.from "one") 1;
                             InMessage (Scenario.from "two") 2; InQueue 0] emptyWorld in
  let after := execM (processBatch Scenario.env "+1555") w in
  pendingBatches after !! "+1555" = None /\
  resolves (newEvents w after) =
    [mkCtx ("[warelay] one" +:+ Js.LF +:+ "[warelay] two") "+1555" "+1999"
           None None None None].
Proof.
  intros w after.
  assert (Hpending : pendingBatches w !! "+1555"
                     = Some (mkBatch [Scenario.from "one"; Scenario.from "two"] true))
    by (vm_compute; reflexivity).
  destruct (flush_is_one_unit Scenario.env w "+1555" (Scenario.from "one")
              [Scenario.from "two"] true Hpending eq_refl) as (Hgone & _ & Hres).
  split; [exact Hgone | exact Hres].
Defined.

(** ** C3: a silent heartbeat and the idle timer *)


Lemma storeGet_storeSet_other (store : SessionStore) (key other : string) (e : SessionEntry) :
  other <> key -> storeGet (storeSet store key e) other = storeGet store other.
Proof.
  intros Hne. induction store as [|[k e0] rest IH]; simpl.
  - destruct (String.eqb_spec key other); [congruence | reflexivity].
  - destruct (String.eqb_spec k key) as [-> | Hk]; simpl.
    + destruct (String.eqb_spec key other); [congruence | reflexivity].
    + destruct (String.eqb k other); [reflexivity | exact IH].
Qed.


(** C3 (code at variance with the claim).  The claim: after a heartbeat
    answered with the token alone, the target entry's [updatedAt] is what
    it was before the heartbeat.
    - [runWebHeartbeatOnce] called with a session id stamps the entry
      with the current time before it takes the snapshot it later
      restores from, so the write-back restores the stamp.  The reply
      heartbeat takes this path whenever no inbound message has been seen
      on the connection: the entry of "+1555", last active at 1000, reads
      5000000 after a tick at 5000000 that the resolver answered with
      HEARTBEAT_OK and that sent nothing.
    - the direct path of [runReplyHeartbeat] (an inbound message has been
      seen) returns on the token without any write-back: a stamp the
      resolver put on the entry stays. *)
Theorem silent_heartbeat_refreshes_idle_timer :
  let before := HeartbeatScenario.before in
  let opts := mkHeartbeatOpts "+1555" (Some "s1") None false in
  let once := execM (runWebHeartbeatOnce Scenario.env opts 5000000 5000000) before in
  let tick := execM (runReplyHeartbeat Scenario.env 5000000) before in
  let direct := execM (runReplyHeartbeat HeartbeatScenario.stampingEnv 5000000)
                      HeartbeatScenario.afterInbound in
  storeGet (disk before) "+1555" = Some (mkEntry "s1" 1000) /\
  newEvents before once =
    [EResolve (mkCtx HEARTBEAT_PROMPT "+1555" "+1555" (Some "s1") None None None);
     ELog "heartbeat skipped (heartbeat-token)"] /\
  storeGet (disk once) "+1555" = Some (mkEntry "s1" 5000000) /\
  storeGet (disk tick) "+1555" = Some (mkEntry "s1" 5000000) /\
  (forall e, In e (newEvents before tick) -> isOutbound e = false) /\
  storeGet (disk direct) "+1555" = Some (mkEntry "s1" 7000) /\
  (forall e, In e (newEvents HeartbeatScenario.afterInbound direct) -> isOutbound e = false).
Proof.
  cbv zeta.
  split; [reflexivity |].
  split; [vm_compute; reflexivity |].
  split; [vm_compute; reflexivity |].
  split; [vm_compute; reflexivity |].
  split.
  { intros e He. vm_compute in He.
    repeat (destruct He as [<- | He]; [reflexivity |]). destruct He. }
  split; [vm_compute; reflexivity |].
  intros e He. vm_compute in He.
  repeat (destruct He as [<- | He]; [reflexivity |]). destruct He.
Qed.

(** ** The handlers and the loop's own events *)

Section Calm.

Variable C : Collaborators.

Lemma noLoopEvents_app (a b : list Event) :
  noLoopEvents (a ++ b) = noLoopEvents a && noLoopEvents b.
Proof. apply forallb_app. Qed.

Lemma calm_ret {A} (a : A) : calm (ret a).
Proof. intros w. exists []. now rewrite app_nil_r. Qed.

Lemma calm_throw {A} (err : string) : calm (@throw A err).
Proof. intros w. exists []. now rewrite app_nil_r. Qed.

Lemma calm_gets {A} (f : World -> A) : calm (gets f).
Proof. intros w. exists []. now rewrite app_nil_r. Qed.

Lemma calm_modify (f : World -> World) :
  (forall w, trace (f w) = trace w) -> calm (modify f).
Proof. intros Hf w. exists []. cbn. now rewrite Hf, app_nil_r. Qed.

Lemma calm_emit (e : Event) : isLoopEvent e = false -> calm (emit e).
Proof. intros He w. exists [e]. split; [reflexivity |]. cbn. now rewrite He. Qed.

Lemma calm_bind {A B} (m : M A) (k : A -> M B) :
  calm m -> (forall a, calm (k a)) -> calm (bind m k).
Proof.
  intros Hm Hk w. unfold bind. destruct (Hm w) as (evs & Htr & Hok).
  destruct (m w) as [[a | err] w1]; cbn [snd] in *.
  - destruct (Hk a w1) as (evs' & Htr' & Hok'). exists (evs ++ evs').
    rewrite Htr', Htr, app_assoc, noLoopEvents_app, Hok, Hok'. split; reflexivity.
  - exists evs. split; assumption.
Qed.

Lemma calm_tryCatch {A} (body : M A) (handler : string -> M A) :
  calm body -> (forall err, calm (handler err)) -> calm (tryCatch body handler).
Proof.
  intros Hm Hk w. unfold tryCatch. destruct (Hm w) as (evs & Htr & Hok).
  destruct (body w) as [[a | err] w1]; cbn [snd] in *.
  - exists evs. split; assumption.
  - destruct (Hk err w1) as (evs' & Htr' & Hok'). exists (evs ++ evs').
    rewrite Htr', Htr, app_assoc, noLoopEvents_app, Hok, Hok'. split; reflexivity.
Qed.

Lemma calm_callResolver (ctx : ReplyCtx) : calm (callResolver C ctx).
Proof.
  intros w. exists [EResolve ctx]. unfold callResolver. unfold_m. cbn.
  destruct (replyResolver C ctx (disk w)) as [r store']. cbn. split; reflexivity.
Qed.

(** Takes a definition apart down to the primitives above. *)
Ltac calm_step :=
  match goal with
  | |- calm (bind _ _) => apply calm_bind; [| intros]
  | |- calm (tryCatch _ _) => apply calm_tryCatch; [| intros]
  | |- calm (ret _) => apply calm_ret
  | |- calm (throw _) => apply calm_throw
  | |- calm (gets _) => apply calm_gets
  | |- calm (emit _) => apply calm_emit; reflexivity
  | |- calm (modify _) => apply calm_modify; intros; reflexivity
  | |- calm (callResolver _ _) => apply calm_callResolver
  | |- calm (when ?b _) => destruct b; unfold when
  | |- calm (if ?b then _ else _) => destruct b
  | |- calm (match ?x with _ => _ end) => destruct x
  | |- calm (let _ := _ in _) => cbv zeta
  | H : _ |- _ => solve [apply H]
  end.

Ltac calm_auto := repeat calm_step.

Lemma calm_msgReply (m : WebInboundMsg) (body : string) : calm (msgReply C m body).
Proof. unfold msgReply. calm_auto. Qed.

Lemma calm_sendChunks (m : WebInboundMsg) (chunks : list string) :
  calm (sendChunks C m chunks).
Proof.
  induction chunks as [|c chunks IH]; simpl; [calm_auto |].
  apply calm_bind; [apply calm_msgReply | intros; exact IH].
Qed.

Lemma calm_mediaFailed (m : WebInboundMsg) (index : nat) (remainingText : list string) :
  calm (mediaFailed C m index remainingText).
Proof.
  pose proof (calm_msgReply m) as Hreply.
  unfold mediaFailed. calm_auto.
Qed.

Lemma calm_sendOneMedia (m : WebInboundMsg) (index : nat) (url : string)
    (remainingText : list string) :
  calm (sendOneMedia C m index url remainingText).
Proof.
  pose proof (calm_mediaFailed m) as Hfailed.
  unfold sendOneMedia. calm_auto.
Qed.

Lemma calm_mediaLoop (m : WebInboundMsg) (mediaList : list string) :
  forall (index : nat) (remainingText : list string),
    calm (mediaLoop C m index mediaList remainingText).
Proof.
  induction mediaList as [|url rest IH]; intros index remainingText; simpl.
  - calm_auto.
  - apply calm_bind; [apply calm_sendOneMedia | intros; apply IH].
Qed.

Lemma calm_deliverWebReply (p : ReplyPayload) (m : WebInboundMsg) :
  calm (deliverWebReply C p m).
Proof.
  pose proof (calm_sendChunks m) as Hchunks.
  pose proof (calm_mediaLoop m) as Hloop.
  unfold deliverWebReply. calm_auto.
Qed.

Lemma calm_deliverAll (combinedBody : string) (latest : WebInboundMsg)
    (ps : list ReplyPayload) :
  calm (deliverAll C combinedBody latest ps).
Proof.
  pose proof calm_deliverWebReply as Hdeliver.
  induction ps as [|p ps IH]; simpl; [calm_auto |].
  apply calm_bind; [| intros; exact IH].
  unfold deliverOne, rememberSent. calm_auto.
Qed.

Lemma calm_processBatch (from : string) : calm (processBatch C from).
Proof.
  pose proof calm_deliverAll as Hall.
  unfold processBatch. calm_auto.
Qed.

Lemma calm_onMessage (m : WebInboundMsg) (now : Z) : calm (onMessage C m now).
Proof.
  pose proof calm_processBatch as Hbatch.
  unfold onMessage, enqueueBatch. calm_auto.
Qed.

Lemma calm_ipcSend (to message : string) (media : option string) :
  calm (ipcSend C to message media).
Proof. unfold ipcSend. calm_auto. Qed.

Lemma calm_getSessionSnapshot (from : string) (isHeartbeat : bool) (now : Z) :
  calm (getSessionSnapshot C from isHeartbeat now).
Proof. unfold getSessionSnapshot, loadSessionStore. calm_auto. Qed.

Lemma calm_runWebHeartbeatOnce (opts : HeartbeatOpts) (n1 n2 : Z) :
  calm (runWebHeartbeatOnce C opts n1 n2).
Proof.
  pose proof calm_getSessionSnapshot as Hsnap.
  unfold runWebHeartbeatOnce, restoreUpdatedAt, sender, loadSessionStore, saveSessionStore.
  calm_auto.
Qed.

Lemma calm_runReplyHeartbeat (now : Z) : calm (runReplyHeartbeat C now).
Proof.
  pose proof calm_getSessionSnapshot as Hsnap.
  pose proof calm_runWebHeartbeatOnce as Honce.
  pose proof calm_deliverWebReply as Hdeliver.
  unfold runReplyHeartbeat, getFallbackRecipient, loadSessionStore.
  calm_auto.
Qed.

Lemma calm_handle (i : Input) : calm (handle C i).
Proof.
  destruct i; simpl.
  - apply calm_onMessage.
  - apply calm_processBatch.
  - apply calm_ipcSend.
  - apply calm_runReplyHeartbeat.
  - calm_auto.
  - unfold watchdog, closeListener. calm_auto.
  - calm_auto.
Qed.

(** While a connection is up the loop's events do not occur. *)
Lemma run_calm (inputs : list Input) :
  forall w, exists evs,
    trace (run C inputs w) = trace w ++ evs /\ noLoopEvents evs = true.
Proof.
  induction inputs as [|i inputs IH]; intros w.
  - exists []. simpl. now rewrite app_nil_r.
  - change (run C (i :: inputs) w) with (run C inputs (step C w i)).
    destruct (calm_handle i w) as (evs & Htr & Hok).
    destruct (IH (step C w i)) as (evs' & Htr' & Hok').
    change (trace (step C w i)) with (trace (snd (handle C i w))) in Htr'.
    exists (evs ++ evs').
    rewrite Htr', Htr, app_assoc, noLoopEvents_app, Hok, Hok'. split; reflexivity.
Qed.

End Calm.

(** ** C6 and C7: what a close leads to *)

Lemma sleeps_app (a b : list Event) : sleeps (a ++ b) = (sleeps a + sleeps b)%nat.
Proof. unfold sleeps. now rewrite List.filter_app, length_app. Qed.

Lemma connects_app (a b : list Event) : connects (a ++ b) = (connects a + connects b)%nat.
Proof. unfold connects. now rewrite List.filter_app, length_app. Qed.

Lemma noLoopEvents_sleeps (evs : list Event) : noLoopEvents evs = true -> sleeps evs = 0%nat.
Proof.
  induction evs as [|e evs IH]; [reflexivity |]. cbn.
  intros H. apply andb_true_iff in H. destruct H as [He Hrest].
  unfold sleeps in *. cbn. destruct e; try discriminate; cbn; auto.
Qed.

Lemma noLoopEvents_connects (evs : list Event) : noLoopEvents evs = true -> connects evs = 0%nat.
Proof.
  induction evs as [|e evs IH]; [reflexivity |]. cbn.
  intros H. apply andb_true_iff in H. destruct H as [He Hrest].
  unfold connects in *. cbn. destruct e; try discriminate; cbn; auto.
Qed.

(** Bringing a connection up is one connection attempt and no wait. *)
Lemma connect_trace (C : Collaborators) (c : Cycle) (w : World) :
  exists evs,
    trace (connect C c w) = trace w ++ EConnect :: evs /\ noLoopEvents evs = true.
Proof.
  unfold connect.
  destruct (run_calm C (inputs c) (execM (emit EConnect) (freshConnection w)))
    as (evs & Htr & Hok).
  exists evs. rewrite Htr. cbn. rewrite <- app_assoc. split; [reflexivity | assumption].
Qed.

(** C6, counterexample to the wording.  Ctrl-C was pressed while the
    connection was up; the socket then closes as logged out.  The loop
    takes the stop branch, which comes first: it closes the listener and
    returns without the notice. *)
Lemma logged_out_after_sigint_counterexample :
  ~ loggedOutCloseSurfacesNotice Scenario.env
      (mkCycle false [] (Closed (Some 401%Z) true) 5000 false true false) [] 0 emptyWorld.
Proof.
  intros H. destruct (H eq_refl eq_refl) as (_ & Hin & _).
  - now exists (Some 401%Z).
  - vm_compute in Hin. destruct Hin as [Hin | []]. discriminate Hin.
Qed.

(** C6 (as amended).  After a close that the channel reports as logged
    out the loop returns, whatever the script holds for later turns: the
    listener is closed, no connection attempt is made and no backoff wait
    is started.  Unless a stop had been requested (abort signal or
    SIGINT) before the close was looked at, the close is logged and the
    re-authentication notice is shown first. *)
Theorem logged_out_close_is_terminal (C : Collaborators) (inputs : list Input)
    (status : option Z) (uptime : Z) (stopAfter sigint aborted : bool)
    (rest : list Cycle) (attempts : Z) (w : World) :
  keepAlive C = true ->
  let c := mkCycle false inputs (Closed status true) uptime stopAfter sigint aborted in
  let evs := newEvents (connect C c w) (snd (monitorLoop C (c :: rest) attempts w)) in
  fst (monitorLoop C (c :: rest) attempts w) = Returned /\
  evs = (if stopAfter || sigint then []
         else [ELog "web reconnect: connection closed"; ERuntimeError NoticeLoggedOut])
        ++ [ECloseListener] /\
  sleeps evs = 0%nat /\ connects evs = 0%nat.
Proof.
  intros Hkeep c evs.
  assert (Hloop : monitorLoop C (c :: rest) attempts w =
    (Returned,
     withTrace (trace (connect C c w) ++
                (if stopAfter || sigint then []
                 else [ELog "web reconnect: connection closed";
                       ERuntimeError NoticeLoggedOut]) ++ [ECloseListener])
               (connect C c w))).
  { cbn -[connect]. rewrite Hkeep. cbn -[connect]. unfold_m.
    destruct (stopAfter || sigint); cbn -[connect]; [reflexivity |].
    rewrite <- !app_assoc. reflexivity. }
  subst evs. rewrite Hloop. cbn [fst snd].
  erewrite newEvents_app by (cbn [trace withTrace]; reflexivity).
  split; [reflexivity |]. split; [reflexivity |].
  destruct (stopAfter || sigint); split; reflexivity.
Qed.

(** C6 at work: the turn scripted after the logged-out close is never
    played. *)
Lemma logged_out_close_is_terminal_witness :
  let c := mkCycle false [InMessage (Scenario.from "hi") 1]
                   (Closed (Some 401%Z) true) 5000 false false false in
  let again := mkCycle false [] (Closed None false) 5000 false false false in
  newEvents (connect Scenario.env c emptyWorld)
            (snd (monitorLoop Scenario.env [c; again] 0 emptyWorld))
  = [ELog "web reconnect: connection closed"; ERuntimeError NoticeLoggedOut;
     ECloseListener].
Proof.
  intros c again.
  destruct (logged_out_close_is_terminal Scenario.env
              [InMessage (Scenario.from "hi") 1] (Some 401%Z) 5000 false false false
              [again] 0 emptyWorld eq_refl) as (_ & Hevs & _).
  exact Hevs.
Defined.

(** C7, counterexample to the wording.  Ctrl-C was pressed while the
    connection was up; the socket then drops.  The loop closes the
    listener and returns: no wait, no retry, no notice. *)
Lemma transient_close_after_sigint_counterexample :
  ~ transientCloseRetriesOrGivesUp Scenario.env
      (mkCycle false [] (Closed (Some 408%Z) false) 5000 false true false) 0 emptyWorld.
Proof.
  intros H. specialize (H eq_refl eq_refl (Some 408%Z) eq_refl).
  vm_compute in H. destruct H as [H | []]. discriminate H.
Qed.

(** With [maxAttempts] at 0 the loop never gives up: after any number of
    transient closes it has waited through as many backoffs, made as many
    connection attempts, and is about to connect again. *)
Lemma unlimited_retries (C : Collaborators) :
  keepAlive C = true -> maxAttempts C = 0%Z ->
  forall (script : list Cycle) (attempts : Z) (w : World),
    forallb transient script = true ->
    fst (monitorLoop C script attempts w) = Awaiting /\
    exists evs,
      trace (snd (monitorLoop C script attempts w)) = trace w ++ evs /\
      sleeps evs = length script /\ connects evs = length script.
Proof.
  intros Hkeep Hmax script.
  induction script as [|c script IH]; intros attempts w Hall.
  - split; [reflexivity |]. exists []. cbn. now rewrite app_nil_r.
  - cbn [forallb] in Hall. apply andb_true_iff in Hall. destruct Hall as [Hc Hall].
    destruct c as [top inputs reason uptime stopAfter sigint aborted].
    unfold transient in Hc. cbn in Hc.
    destruct top, stopAfter, sigint, aborted; try discriminate Hc.
    destruct reason as [|status [|]]; try discriminate Hc. clear Hc.
    set (c := mkCycle false inputs (Closed status false) uptime false false false).
    set (attempts1 := (resetAfterHealthyStretch C c attempts + 1)%Z).
    set (waited :=
      withTrace (trace (connect C c w) ++
                 [ELog "web reconnect: connection closed";
                  ELog "web reconnect: scheduling retry";
                  ERuntimeError (NoticeRetry status attempts1 (maxAttempts C)
                                             (computeBackoff C attempts1));
                  ECloseListener;
                  ESleep (computeBackoff C attempts1)])
                (connect C c w)).
    assert (Hloop : monitorLoop C (c :: script) attempts w
                    = monitorLoop C script attempts1 waited).
    { cbn -[connect resetAfterHealthyStretch]. rewrite Hkeep.
      cbn -[connect resetAfterHealthyStretch].
      unfold giveUp. rewrite Hmax. cbn -[connect resetAfterHealthyStretch].
      unfold_m. cbn -[connect resetAfterHealthyStretch].
      subst waited attempts1. rewrite Hmax. rewrite <- !app_assoc. reflexivity. }
    rewrite Hloop. destruct (IH attempts1 waited Hall) as (Hexit & evs & Htr & Hs & Hc).
    split; [exact Hexit |].
    destruct (connect_trace C c w) as (up & Hup & Hcalm).
    exists ((EConnect :: up) ++
            [ELog "web reconnect: connection closed";
             ELog "web reconnect: scheduling retry";
             ERuntimeError (NoticeRetry status attempts1 (maxAttempts C)
                                        (computeBackoff C attempts1));
             ECloseListener;
             ESleep (computeBackoff C attempts1)] ++ evs).
    split.
    + rewrite Htr. subst waited. cbn [trace withTrace]. rewrite Hup.
      rewrite <- !app_assoc. reflexivity.
    + rewrite !sleeps_app, !connects_app, Hs, Hc.
      change (EConnect :: up) with ([EConnect] ++ up).
      rewrite sleeps_app, connects_app.
      rewrite (noLoopEvents_sleeps up Hcalm), (noLoopEvents_connects up Hcalm).
      split; reflexivity.
Qed.

(** C7 (as amended).  A transient close with no stop requested (no abort
    signal, no SIGINT) first increments the attempt counter, which a
    connection that outlived one heartbeat interval had reset to 0.
    - When [maxAttempts] is positive and the incremented counter has
      reached it, the give-up notice is shown, the listener is closed
      and the loop returns: no wait, and later turns of the script are
      not looked at.
    - Otherwise the retry notice is shown, the listener is closed, and
      the loop waits for [computeBackoff] of the incremented counter; it
      then goes round again with that counter, unless the wait was
      aborted.
    - With [maxAttempts] at 0 the first case never applies: any number
      of transient closes is followed by as many waits and as many
      connection attempts, and the loop is still going. *)
Theorem transient_close_backs_off_or_gives_up (C : Collaborators) (inputs : list Input)
    (status : option Z) (uptime : Z) (aborted : bool) (rest : list Cycle)
    (attempts : Z) (w : World) :
  keepAlive C = true ->
  let c := mkCycle false inputs (Closed status false) uptime false false aborted in
  let up := connect C c w in
  let attempts1 := ((if (heartbeatSeconds C * 1000 <? uptime)%Z then 0 else attempts) + 1)%Z in
  let delay := computeBackoff C attempts1 in
  monitorLoop C (c :: rest) attempts w =
    (if ((0 <? maxAttempts C) && (maxAttempts C <=? attempts1))%Z then
       (Returned,
        withTrace (trace up ++
                   [ELog "web reconnect: connection closed";
                    ELog "web reconnect: max attempts reached";
                    ERuntimeError (NoticeGiveUp status (maxAttempts C));
                    ECloseListener]) up)
     else
       let waited :=
         withTrace (trace up ++
                    [ELog "web reconnect: connection closed";
                     ELog "web reconnect: scheduling retry";
                     ERuntimeError (NoticeRetry status attempts1 (maxAttempts C) delay);
                     ECloseListener;
                     ESleep delay]) up in
       if aborted then (Returned, waited)
       else monitorLoop C rest attempts1 waited) /\
  (maxAttempts C = 0%Z ->
   forall (script : list Cycle) (attempts0 : Z) (w0 : World),
     forallb transient script = true ->
     fst (monitorLoop C script attempts0 w0) = Awaiting /\
     sleeps (newEvents w0 (snd (monitorLoop C script attempts0 w0))) = length script /\
     connects (newEvents w0 (snd (monitorLoop C script attempts0 w0))) = length script).
Proof.
  intros Hkeep c up attempts1 delay. split.
  - cbn -[connect]. rewrite Hkeep. cbn -[connect].
    unfold giveUp, resetAfterHealthyStretch. cbn -[connect].
    fold c. fold up. fold attempts1. fold delay.
    destruct ((0 <? maxAttempts C) && (maxAttempts C <=? attempts1))%Z.
    + unfold_m. cbn -[connect]. rewrite <- !app_assoc. reflexivity.
    + unfold_m. cbn -[connect]. rewrite <- !app_assoc. reflexivity.
  - intros Hmax script attempts0 w0 Hall.
    destruct (unlimited_retries C Hkeep Hmax script attempts0 w0 Hall)
      as (Hexit & evs & Htr & Hs & Hc).
    rewrite (newEvents_app _ _ _ Htr). repeat split; assumption.
Qed.

(** C7 at work: with [maxAttempts] at 2 and one attempt behind it, the
    loop gives up at the next drop. *)
Lemma transient_close_backs_off_or_gives_up_witness :
  let drop := mkCycle false [] (Closed (Some 408%Z) false) 5000 false false false in
  monitorLoop (Scenario.envWith None true 2) [drop; drop; drop] 1 emptyWorld =
    (Returned,
     withTrace [EConnect;
                ELog "web reconnect: connection closed";
                ELog "web reconnect: max attempts reached";
                ERuntimeError (NoticeGiveUp (Some 408%Z) 2);
                ECloseListener] emptyWorld).
Proof.
  intros drop.
  pose proof (proj1 (transient_close_backs_off_or_gives_up (Scenario.envWith None true 2)
                       [] (Some 408%Z) 5000 false [drop; drop] 1 emptyWorld eq_refl))
    as Hclose.
  vm_compute in Hclose |- *. exact Hclose.
Defined.

(** * Worked examples for the lemmas above *)

(** "one" and "two" arrive while two commands are in flight. *)
Lemma busy_queue_accumulates_witness :
  let w := withQueueSize 2 emptyWorld in
  let after := run Scenario.env [InMessage (Scenario.from "one") 1;
                                 InMessage (Scenario.from "two") 2] w in
  pendingBatches after !! "+1555"
  = Some (mkBatch [Scenario.from "one"; Scenario.from "two"] true) /\
  resolves (newEvents w after) = [].
Proof.
  intros w after.
  apply (busy_queue_accumulates Scenario.env "+1555"
           [(Scenario.from "one", 1%Z); (Scenario.from "two", 2%Z)] w).
  - vm_compute. lia.
  - reflexivity.
  - repeat constructor.
  - discriminate.
Defined.


(** * More of the connector *)

(** ** Sorting by recency *)

Section SortDesc.

Context {A : Type} (key : A -> Z).

Lemma insertDesc_perm (x : A) (l : list A) : Permutation (insertDesc key x l) (x :: l).
Proof.
  induction l as [|y l IH]; simpl; [reflexivity |].
  destruct (key y <=? key x)%Z; [reflexivity |].
  rewrite IH. apply perm_swap.
Qed.

Lemma sortDesc_perm (l : list A) : Permutation (sortDesc key l) l.
Proof.
  induction l as [|x l IH]; simpl; [reflexivity |].
  rewrite insertDesc_perm. now constructor.
Qed.

Lemma sortDesc_In (x : A) (l : list A) : In x (sortDesc key l) <-> In x l.
Proof.
  split; apply Permutation_in; [apply sortDesc_perm | symmetry; apply sortDesc_perm].
Qed.

Lemma insertDesc_sorted (x : A) (l : list A) :
  StronglySorted (fun a b => (key b <= key a)%Z) l ->
  StronglySorted (fun a b => (key b <= key a)%Z) (insertDesc key x l).
Proof.
  induction 1 as [|y l Hsorted IH Hall]; simpl; [repeat constructor |].
  destruct (Z.leb_spec (key y) (key x)) as [Hle | Hgt].
  - constructor; [now constructor |].
    constructor; [assumption |].
    apply List.Forall_forall. intros z Hz. rewrite List.Forall_forall in Hall.
    specialize (Hall z Hz). cbn in Hall. lia.
  - constructor; [assumption |].
    apply List.Forall_forall. intros z Hz.
    apply (Permutation_in _ (insertDesc_perm x l)) in Hz.
    destruct Hz as [<- | Hz]; [lia |].
    rewrite List.Forall_forall in Hall. now apply Hall.
Qed.

Lemma sortDesc_sorted (l : list A) :
  StronglySorted (fun a b => (key b <= key a)%Z) (sortDesc key l).
Proof.
  induction l as [|x l IH]; simpl; [constructor | now apply insertDesc_sorted].
Qed.

(** The head of the sorted list is a largest element of the input. *)
Lemma sortDesc_head (l : list A) (top : A) (rest : list A) :
  sortDesc key l = top :: rest ->
  In top l /\ forall x, In x l -> (key x <= key top)%Z.
Proof.
  intros Hsort. split.
  - apply sortDesc_In. rewrite Hsort. now left.
  - intros x Hx. apply sortDesc_In in Hx. rewrite Hsort in Hx.
    pose proof (sortDesc_sorted l) as Hs. rewrite Hsort in Hs.
    inversion Hs as [|? ? _ Hall]; subst.
    destruct Hx as [<- | Hx]; [lia |].
    rewrite List.Forall_forall in Hall. now apply Hall.
Qed.

End SortDesc.

Lemma sortByRecency_sortDesc (l : SessionStore) :
  sortByRecency l = sortDesc (fun kv => updatedAt (snd kv)) l.
Proof.
  unfold sortByRecency, sortDesc. induction l as [|x l IH]; simpl; [reflexivity |].
  rewrite IH. generalize (fold_right (insertDesc (fun kv => updatedAt (snd kv))) [] l).
  intros s. induction s as [|y s IHs]; simpl; [reflexivity |].
  destruct (_ <=? _)%Z; [reflexivity | now rewrite IHs].
Qed.

(** ** The reply-heartbeat interval *)

(** Whatever the override and the configuration hold (zero, negative,
    nothing), the resolved interval is either absent or positive; an
    override of 0 switches the heartbeat off even in command mode. *)
Lemma reply_heartbeat_minutes_positive_or_off (C : Collaborators) (overrideMinutes : option Z) :
  match resolveReplyHeartbeatMinutes C overrideMinutes with
  | Some minutes => (0 < minutes)%Z
  | None => True
  end /\
  resolveReplyHeartbeatMinutes C (Some 0%Z) = None.
Proof.
  split; [| reflexivity].
  unfold resolveReplyHeartbeatMinutes, DEFAULT_REPLY_HEARTBEAT_MINUTES.
  destruct (orElse overrideMinutes (heartbeatMinutes (cfg C))) as [raw|].
  - destruct (Z.eqb_spec raw 0); [exact I |].
    destruct (Z.ltb_spec 0 raw); [assumption |].
    destruct (replyMode (cfg C)) as [mode|]; [| exact I].
    destruct (String.eqb mode "command"); [lia | exact I].
  - destruct (replyMode (cfg C)) as [mode|]; [| exact I].
    destruct (String.eqb mode "command"); [lia | exact I].
Qed.

(** ** Who gets the heartbeat *)

(** X3: when the store holds a session under a key other than "global",
    the fallback recipient is the normalised key of such a session, and
    no other such session was updated later; the store is only read. *)
Theorem fallback_recipient_is_most_recent (C : Collaborators) (w : World)
    (k : string) (e : SessionEntry) :
  In (k, e) (disk w) -> k <> "global" ->
  exists k0 e0,
    getFallbackRecipient C w = (Ok (Some (normalizeE164 C k0)), w) /\
    In (k0, e0) (disk w) /\ k0 <> "global" /\
    forall k' e', In (k', e') (disk w) -> k' <> "global" ->
                  (updatedAt e' <= updatedAt e0)%Z.
Proof.
  intros Hin Hk.
  set (candidates := List.filter (fun kv => negb (String.eqb (fst kv) "global")) (disk w)).
  assert (Hcand : forall k' e', In (k', e') candidates <->
                                In (k', e') (disk w) /\ k' <> "global").
  { intros k' e'. subst candidates. rewrite filter_In. cbn [fst].
    destruct (String.eqb_spec k' "global"); cbn; intuition congruence. }
  assert (Hne : In (k, e) candidates) by (apply Hcand; auto).
  destruct (sortDesc (fun kv => updatedAt (snd kv)) candidates) as [|[k0 e0] rest] eqn:Hsort.
  - apply (sortDesc_In (fun kv : string * SessionEntry => updatedAt (snd kv))) in Hne.
    rewrite Hsort in Hne. destruct Hne.
  - destruct (sortDesc_head (fun kv : string * SessionEntry => updatedAt (snd kv))
                _ _ _ Hsort) as [Htop Hmax].
    exists k0, e0. apply Hcand in Htop. destruct Htop as [Htop Hk0].
    split; [| split; [assumption | split; [assumption |]]].
    + unfold getFallbackRecipient, loadSessionStore. unfold_m. cbn.
      fold candidates. rewrite sortByRecency_sortDesc, Hsort.
      destruct candidates; [destruct Hne | reflexivity].
    + intros k' e' Hin' Hk'. apply (Hmax (k', e')). apply Hcand. auto.
Qed.

(** X3 at work: of two sessions the later one is picked, "global" is not. *)
Lemma fallback_recipient_is_most_recent_witness :
  exists k0 e0,
    getFallbackRecipient Scenario.env
      (withDisk [("global", mkEntry "g" 900); ("+1555", mkEntry "a" 100);
                 ("+1666", mkEntry "b" 200)] emptyWorld)
    = (Ok (Some (normalizeE164 Scenario.env k0)),
       withDisk [("global", mkEntry "g" 900); ("+1555", mkEntry "a" 100);
                 ("+1666", mkEntry "b" 200)] emptyWorld) /\
    k0 = "+1666" /\ e0 = mkEntry "b" 200.
Proof.
  destruct (fallback_recipient_is_most_recent Scenario.env
              (withDisk [("global", mkEntry "g" 900); ("+1555", mkEntry "a" 100);
                         ("+1666", mkEntry "b" 200)] emptyWorld)
              "+1555" (mkEntry "a" 100)) as (k0 & e0 & Hrun & Hin & Hk0 & Hmax).
  - simpl. right. left. reflexivity.
  - discriminate.
  - exists k0, e0. split; [exact Hrun |].
    assert (Hlate : (200 <= updatedAt e0)%Z).
    { apply (Hmax "+1666" (mkEntry "b" 200)); [simpl; auto | discriminate]. }
    simpl in Hin. destruct Hin as [Heq | [Heq | [Heq | []]]]; inversion Heq; subst.
    + contradiction.
    + simpl in Hlate. lia.
    + split; reflexivity.
Defined.

Section RecipientFacts.

Variable C : Collaborators.

Lemma unique_from (l acc : list string) :
  NoDup acc ->
  NoDup (fold_left EchoGuard.add l acc) /\
  forall x, In x (fold_left EchoGuard.add l acc) <-> In x acc \/ In x l.
Proof.
  revert acc. induction l as [|y l IH]; intros acc Hacc; simpl.
  - split; [assumption | intuition].
  - destruct (IH (EchoGuard.add acc y) (NoDup_add acc y Hacc)) as [Hnd Hin].
    split; [assumption |]. intros x. rewrite Hin.
    unfold EchoGuard.add. destruct (EchoGuard.has acc y) eqn:Hy.
    + apply has_In in Hy. intuition (subst; auto).
    + rewrite in_app_iff. simpl. intuition (subst; auto).
Qed.

Lemma unique_spec (l : list string) :
  NoDup (unique l) /\ forall x, In x (unique l) <-> In x l /\ x <> "".
Proof.
  unfold unique. destruct (unique_from (List.filter Js.truthy l) [] (NoDup_nil_2 (A:=string))) as [Hnd Hin].
  split; [assumption |]. intros x. rewrite Hin, filter_In. unfold Js.truthy.
  destruct (String.eqb_spec x ""); cbn; intuition congruence.
Qed.

(** The session recipients come back most recent first; each is the
    normalised key of a stored session other than "global" and
    "unknown", none is the empty string, and under any scope but
    "global" every such session with a non-empty normalised key is among
    them.  Under the "global" scope there are none.  The store is only
    read. *)
Lemma session_recipients_sorted (w : World) :
  exists rs,
    getSessionRecipients C w = (Ok rs, w) /\
    StronglySorted (fun a b => (rcp_updatedAt b <= rcp_updatedAt a)%Z) rs /\
    (forall r, In r rs ->
       rcp_to r <> "" /\
       exists k e, In (k, e) (disk w) /\ k <> "global" /\ k <> "unknown" /\
                   r = mkRecipient (normalizeE164 C k) (updatedAt e)) /\
    (scope (session (cfg C)) = Some "global" -> rs = []) /\
    (scope (session (cfg C)) <> Some "global" ->
     forall k e, In (k, e) (disk w) -> k <> "global" -> k <> "unknown" ->
                 normalizeE164 C k <> "" ->
                 In (mkRecipient (normalizeE164 C k) (updatedAt e)) rs).
Proof.
  unfold getSessionRecipients, loadSessionStore. unfold_m.
  destruct (String.eqb_spec (default "per-sender" (scope (session (cfg C)))) "global")
    as [Hglobal | Hother].
  - exists []. split; [reflexivity |]. split; [constructor |].
    split; [intros r [] |]. split; [reflexivity |].
    intros Hscope. exfalso. apply Hscope.
    destruct (scope (session (cfg C))) as [s|]; cbn in Hglobal;
      [now subst s | discriminate].
  - eexists. split; [reflexivity |].
    split; [apply sortDesc_sorted |].
    assert (Hmem : forall r,
      In r (List.filter (fun r => Js.truthy (rcp_to r))
              (map (fun kv => mkRecipient (normalizeE164 C (fst kv)) (updatedAt (snd kv)))
                 (List.filter
                    (fun kv => negb (String.eqb (fst kv) "global")
                               && negb (String.eqb (fst kv) "unknown")) (disk w)))) <->
      rcp_to r <> "" /\
      exists k e, In (k, e) (disk w) /\ k <> "global" /\ k <> "unknown" /\
                  r = mkRecipient (normalizeE164 C k) (updatedAt e)).
    { intros r. rewrite filter_In, in_map_iff. unfold Js.truthy. split.
      - intros [([k e] & <- & Hin) Hto]. apply filter_In in Hin. cbn [fst snd] in *.
        destruct Hin as [Hin Hkeys]. simpl in Hkeys, Hto. apply andb_true_iff in Hkeys.
        destruct Hkeys as [Hg Hu].
        destruct (String.eqb_spec k "global"); [discriminate |].
        destruct (String.eqb_spec k "unknown"); [discriminate |].
        split.
        + destruct (String.eqb_spec (normalizeE164 C k) ""); [discriminate | assumption].
        + exists k, e. auto.
      - intros [Hto (k & e & Hin & Hg & Hu & ->)]. cbn [rcp_to] in *. split.
        + exists (k, e). split; [reflexivity |]. apply filter_In. split; [assumption |].
          cbn [fst]. destruct (String.eqb_spec k "global"); [contradiction |].
          destruct (String.eqb_spec k "unknown"); [contradiction | reflexivity].
        + destruct (String.eqb_spec (normalizeE164 C k) ""); [contradiction | reflexivity]. }
    split; [intros r Hr; apply sortDesc_In in Hr; now apply Hmem |].
    split.
    + intros Hscope. rewrite Hscope in Hother. cbn in Hother. contradiction.
    + intros _ k e Hin Hg Hu Hto. apply sortDesc_In. apply Hmem.
      split; [assumption |]. exists k, e. auto.
Qed.

(** X4: asked for all recipients, the resolver answers with the session
    recipients and the normalised [allowFrom] numbers (the wildcard left
    out) put together: every non-empty one of them is listed, only they
    are, and none is listed twice. *)
Theorem all_heartbeat_recipients_unique (w : World) :
  exists sessionRecipients rs,
    getSessionRecipients C w = (Ok sessionRecipients, w) /\
    resolveHeartbeatRecipients C None true w = (Ok (mkRecipients rs SourceAll), w) /\
    NoDup rs /\
    forall x, In x rs <->
              x <> "" /\
              (In x (map rcp_to sessionRecipients) \/ In x (normalizedAllowFrom C)).
Proof.
  destruct (session_recipients_sorted w) as (sess & Hsess & _).
  exists sess, (unique (map rcp_to sess ++ normalizedAllowFrom C)).
  split; [assumption |].
  destruct (unique_spec (map rcp_to sess ++ normalizedAllowFrom C)) as [Hnd Hin].
  split; [| split; [assumption |]].
  - unfold resolveHeartbeatRecipients. cbn [Js.truthyOpt]. unfold_m.
    rewrite Hsess. reflexivity.
  - intros x. rewrite Hin, in_app_iff. tauto.
Qed.

End RecipientFacts.

(** ** The heartbeat token *)

Section Trim.

Lemma trimEnd_keeps_head (c : ascii) (s : string) :
  Js.isWhiteSpace c = false -> Js.trimEnd (String c s) = String c (Js.trimEnd s).
Proof. intros Hc. simpl. rewrite Hc. destruct (Js.trimEnd s); reflexivity. Qed.

Lemma trimEnd_idem (s : string) : Js.trimEnd (Js.trimEnd s) = Js.trimEnd s.
Proof.
  induction s as [|c s IH]; [reflexivity |]. simpl.
  destruct (Js.trimEnd s) as [|d t] eqn:Ht.
  - destruct (Js.isWhiteSpace c) eqn:Hc; [reflexivity |]. simpl. now rewrite Hc.
  - change (Js.trimEnd (String c (String d t))
            = String c (String d t)).
    simpl. simpl in IH. destruct (Js.trimEnd t) as [|d' t'].
    + destruct (Js.isWhiteSpace d); [discriminate IH | now inversion IH].
    + now inversion IH.
Qed.

Lemma trimStart_head (s : string) :
  match Js.trimStart s with
  | EmptyString => True
  | String c _ => Js.isWhiteSpace c = false
  end.
Proof.
  induction s as [|c s IH]; simpl; [exact I |].
  destruct (Js.isWhiteSpace c) eqn:Hc; [exact IH | exact Hc].
Qed.

(** Trimming twice is trimming once. *)
Lemma trim_idem (s : string) : Js.trim (Js.trim s) = Js.trim s.
Proof.
  unfold Js.trim. pose proof (trimStart_head s) as Hhead.
  destruct (Js.trimStart s) as [|c t]; [reflexivity |].
  rewrite (trimEnd_keeps_head c t Hhead).
  simpl Js.trimStart. rewrite Hhead.
  rewrite (trimEnd_keeps_head c _ Hhead), trimEnd_idem. reflexivity.
Qed.

End Trim.

(** The text [stripHeartbeatToken] hands back never has white space
    at either end, and whenever the reply is not to be skipped it is not
    empty. *)
Lemma stripped_text_is_trimmed (raw : option string) :
  Js.trim (strippedText (stripHeartbeatToken raw)) = strippedText (stripHeartbeatToken raw) /\
  if shouldSkip (stripHeartbeatToken raw) then True
  else strippedText (stripHeartbeatToken raw) <> "".
Proof.
  unfold stripHeartbeatToken.
  destruct (negb (Js.truthyOpt raw)); [split; [reflexivity | exact I] |].
  destruct (negb (Js.truthy (Js.trim (Js.orEmpty raw)))); [split; [reflexivity | exact I] |].
  destruct (String.eqb (Js.trim (Js.orEmpty raw)) HEARTBEAT_TOKEN);
    [split; [reflexivity | exact I] |].
  cbn [strippedText shouldSkip].
  set (without := Js.trim (Js.replaceAllWithEmpty HEARTBEAT_TOKEN (Js.trim (Js.orEmpty raw)))).
  assert (Hwithout : Js.trim without = without) by apply trim_idem.
  destruct without as [|c t] eqn:Hw.
  - split; [apply trim_idem | exact I].
  - split; [exact Hwithout | discriminate].
Qed.

Section Pieces.

Lemma spaceChar_white (s : Space) : Js.isWhiteSpace (spaceChar s) = true.
Proof. destruct s; reflexivity. Qed.

Lemma trimStart_render (ps : list Piece) :
  Js.trimStart (render ps) = render (dropSpacesStart ps).
Proof.
  induction ps as [|[|s] ps IH]; [reflexivity | reflexivity |].
  simpl. now rewrite spaceChar_white.
Qed.

Lemma trimEnd_token (s : string) :
  Js.trimEnd (HEARTBEAT_TOKEN +:+ s) = HEARTBEAT_TOKEN +:+ Js.trimEnd s.
Proof.
  unfold HEARTBEAT_TOKEN.
  change ("HEARTBEAT_OK" +:+ s) with
    (String "H" (String "E" (String "A" (String "R" (String "T" (String "B"
      (String "E" (String "A" (String "T" (String "_" (String "O" (String "K" s)))))))))))).
  repeat (rewrite trimEnd_keeps_head by reflexivity). reflexivity.
Qed.

Lemma render_empty (ps : list Piece) : render ps = "" -> ps = [].
Proof. destruct ps as [|[|s] ps]; [reflexivity | discriminate | discriminate]. Qed.

Lemma trimEnd_render (ps : list Piece) :
  Js.trimEnd (render ps) = render (dropSpacesEnd ps).
Proof.
  induction ps as [|[|s] ps IH].
  - reflexivity.
  - cbn [render]. rewrite trimEnd_token, IH. cbn [dropSpacesEnd isSpacePiece].
    destruct (dropSpacesEnd ps); reflexivity.
  - cbn [render dropSpacesEnd isSpacePiece]. simpl Js.trimEnd. rewrite IH, spaceChar_white.
    destruct (dropSpacesEnd ps) as [|p kept] eqn:Hkept; [reflexivity |].
    destruct (render (p :: kept)) eqn:Hr.
    + apply render_empty in Hr. discriminate Hr.
    + change (render (PSpace s :: p :: kept))
        with (String (spaceChar s) (render (p :: kept))).
      now rewrite Hr.
Qed.

Lemma removeAll_token (s : string) :
  Js.removeAllFrom HEARTBEAT_TOKEN 0 (HEARTBEAT_TOKEN +:+ s)
  = Js.removeAllFrom HEARTBEAT_TOKEN 0 s.
Proof.
  unfold HEARTBEAT_TOKEN.
  change ("HEARTBEAT_OK" +:+ s) with
    (String "H" (String "E" (String "A" (String "R" (String "T" (String "B"
      (String "E" (String "A" (String "T" (String "_" (String "O" (String "K" s)))))))))))).
  destruct s; reflexivity.
Qed.

Lemma removeAll_space (c : Space) (s : string) :
  Js.removeAllFrom HEARTBEAT_TOKEN 0 (String (spaceChar c) s)
  = String (spaceChar c) (Js.removeAllFrom HEARTBEAT_TOKEN 0 s).
Proof. destruct c; reflexivity. Qed.

Lemma removeAll_render (ps : list Piece) :
  Js.replaceAllWithEmpty HEARTBEAT_TOKEN (render ps) = render (List.filter isSpacePiece ps).
Proof.
  unfold Js.replaceAllWithEmpty.
  induction ps as [|[|s] ps IH]; [reflexivity | |].
  - cbn [render List.filter isSpacePiece]. now rewrite removeAll_token.
  - cbn [render List.filter isSpacePiece]. now rewrite removeAll_space, IH.
Qed.

Lemma dropSpacesStart_spaces (ps : list Piece) :
  forallb isSpacePiece ps = true -> dropSpacesStart ps = [].
Proof.
  induction ps as [|[|s] ps IH]; [reflexivity | discriminate | exact IH].
Qed.

Lemma filter_spaces (ps : list Piece) :
  forallb isSpacePiece (List.filter isSpacePiece ps) = true.
Proof.
  induction ps as [|[|s] ps IH]; [reflexivity | exact IH | exact IH].
Qed.

End Pieces.

(** X5: a heartbeat reply that consists of nothing but tokens and white
    space, in any number and order, is one to be skipped. *)
Theorem tokens_and_spaces_are_skipped (ps : list Piece) :
  shouldSkip (stripHeartbeatToken (Some (render ps))) = true.
Proof.
  unfold stripHeartbeatToken. cbn [Js.orEmpty].
  destruct (negb (Js.truthyOpt (Some (render ps)))); [reflexivity |].
  destruct (negb (Js.truthy (Js.trim (render ps)))); [reflexivity |].
  destruct (String.eqb (Js.trim (render ps)) HEARTBEAT_TOKEN); [reflexivity |].
  cbn [shouldSkip]. unfold Js.trim at 2.
  rewrite trimStart_render, trimEnd_render, removeAll_render.
  unfold Js.trim. rewrite trimStart_render.
  rewrite (dropSpacesStart_spaces _ (filter_spaces _)). reflexivity.
Qed.

(** ** Frames, in general *)

#[local] Instance onlyTrace_preorder : PreOrder onlyTrace.
Proof.
  split.
  - intros w. now destruct w.
  - intros w1 w2 w3 H12 H23. unfold onlyTrace in *.
    rewrite H23 at 1. rewrite H12. now destruct w1.
Qed.

Lemma onlyTrace_store (w w' : World) : onlyTrace w w' -> onlyTraceAndStore w w'.
Proof. unfold onlyTrace, onlyTraceAndStore. intros H. rewrite H. now destruct w. Qed.

#[local] Instance onlyGuardAndTrace_preorder : PreOrder onlyGuardAndTrace.
Proof.
  split.
  - intros w. now destruct w.
  - intros w1 w2 w3 H12 H23. unfold onlyGuardAndTrace in *.
    rewrite H23 at 1. rewrite H12. now destruct w1.
Qed.

Lemma onlyTrace_guard (w w' : World) : onlyTrace w w' -> onlyGuardAndTrace w w'.
Proof. unfold onlyTrace, onlyGuardAndTrace. intros H. rewrite H. now destruct w. Qed.

Lemma keeps_weaken (R R' : relation World) {A} (m : M A) :
  (forall w w', R w w' -> R' w w') -> keeps R m -> keeps R' m.
Proof. intros Hsub Hm w. apply Hsub, Hm. Qed.

#[local] Instance onlyTraceAndStore_preorder : PreOrder onlyTraceAndStore.
Proof.
  split.
  - intros w. now destruct w.
  - intros w1 w2 w3 H12 H23. unfold onlyTraceAndStore in *.
    rewrite H23 at 1. rewrite H12. now destruct w1.
Qed.

#[local] Instance nothingSent_preorder : PreOrder nothingSent.
Proof.
  split.
  - intros w. exists []. now rewrite app_nil_r.
  - intros w1 w2 w3 (evs & Htr & Hok) (evs' & Htr' & Hok'). exists (evs ++ evs').
    rewrite Htr', Htr, <- app_assoc, forallb_app, Hok, Hok'. now split.
Qed.

Section Keeps.

Context (R : relation World) `{!PreOrder R}.

Lemma keeps_ret {A} (a : A) : keeps R (ret a).
Proof. intros w. reflexivity. Qed.

Lemma keeps_throw {A} (err : string) : keeps R (@throw A err).
Proof. intros w. reflexivity. Qed.

Lemma keeps_gets {A} (f : World -> A) : keeps R (gets f).
Proof. intros w. reflexivity. Qed.

Lemma keeps_modify (f : World -> World) : (forall w, R w (f w)) -> keeps R (modify f).
Proof. intros Hf w. apply Hf. Qed.

Lemma keeps_emit (e : Event) :
  (forall w, R w (withTrace (trace w ++ [e]) w)) -> keeps R (emit e).
Proof. intros He w. apply He. Qed.

Lemma keeps_bind {A B} (m : M A) (k : A -> M B) :
  keeps R m -> (forall a, keeps R (k a)) -> keeps R (bind m k).
Proof.
  intros Hm Hk w. unfold bind. specialize (Hm w).
  destruct (m w) as [[a | err] w1]; cbn [snd] in *; [| assumption].
  etransitivity; [exact Hm | apply Hk].
Qed.

Lemma keeps_tryCatch {A} (body : M A) (handler : string -> M A) :
  keeps R body -> (forall err, keeps R (handler err)) -> keeps R (tryCatch body handler).
Proof.
  intros Hm Hk w. unfold tryCatch. specialize (Hm w).
  destruct (body w) as [[a | err] w1]; cbn [snd] in *; [assumption |].
  etransitivity; [exact Hm | apply Hk].
Qed.

End Keeps.

Create HintDb frames discriminated.

(** Discharges what a primitive step owes to the relation at hand. *)
Ltac frame_side :=
  intros; hnf;
  first
    [ reflexivity
    | eexists; split; [reflexivity | reflexivity]
    | exists []; split; [symmetry; apply app_nil_r | reflexivity] ].

(** Takes a definition apart down to the primitives. *)
Ltac keeps_step :=
  match goal with
  | |- keeps _ (bind _ _) => apply keeps_bind; [typeclasses eauto | | intros]
  | |- keeps _ (tryCatch _ _) => apply keeps_tryCatch; [typeclasses eauto | | intros]
  | |- keeps _ (ret _) => apply keeps_ret; typeclasses eauto
  | |- keeps _ (throw _) => apply keeps_throw; typeclasses eauto
  | |- keeps _ (gets _) => apply keeps_gets; typeclasses eauto
  | |- keeps _ (emit _) => apply keeps_emit; frame_side
  | |- keeps _ (modify _) => apply keeps_modify; frame_side
  | |- keeps _ (when ?b _) => destruct b; unfold when
  | |- keeps _ (if ?b then _ else _) => destruct b
  | |- keeps _ (match ?x with _ => _ end) => destruct x
  | |- keeps _ (let _ := _ in _) => cbv zeta
  | |- keeps _ _ => solve [auto with frames]
  end.

Ltac keeps_auto := repeat keeps_step.

(** ** Chunks *)

Lemma matchDotsFrom_no_terminator (n fuel : nat) (s chunk : string) :
  In chunk (Js.matchDotsFrom n fuel s) -> Js.dropLineTerminators chunk = chunk.
Proof.
  revert s. induction fuel as [|fuel IH]; intros s Hin; [destruct Hin |].
  destruct s as [|c s]; [destruct Hin |].
  cbn [Js.matchDotsFrom] in Hin.
  destruct (Js.takeDots n (String c s)) as [p r] eqn:Hd.
  destruct p as [|c' p'].
  - eauto.
  - destruct Hin as [<- | Hin]; [| eauto].
    now destruct (takeDots_spec _ _ _ _ Hd) as (_ & _ & Hdrop).
Qed.

(** X6: what the chunks of a reply text are.  Put together they are the
    text with its line terminators taken out; each has between 1 and
    4000 code units and holds no line terminator. *)
Theorem text_chunks_spec (p : ReplyPayload) :
  Js.concat (textChunksOf p) = Js.dropLineTerminators (Js.orEmpty (text p)) /\
  forall chunk, In chunk (textChunksOf p) ->
    (1 <= String.length chunk <= WEB_TEXT_LIMIT)%nat /\
    Js.dropLineTerminators chunk = chunk.
Proof.
  split; [apply textChunks_concat |].
  intros chunk Hin. split; [now apply (textChunks_bounded p) |].
  unfold textChunksOf in Hin. destruct (0 <? _)%nat; [| destruct Hin].
  eapply matchDotsFrom_no_terminator. exact Hin.
Qed.

(** ** Delivery *)

Section Delivery.

Variable C : Collaborators.

Lemma withTrace_same (w : World) : withTrace (trace w ++ []) w = w.
Proof. destruct w. unfold withTrace. cbn. now rewrite app_nil_r. Qed.

Lemma withTrace_twice (t t' : list Event) (w : World) :
  withTrace t' (withTrace t w) = withTrace t' w.
Proof. reflexivity. Qed.

Lemma sendChunks_ok (m : WebInboundMsg) (chunks : list string) (w : World) :
  (forall chunk, In chunk chunks -> replyOk C chunk = true) ->
  sendChunks C m chunks w =
    (Ok tt, withTrace (trace w ++ map (EReply (msg_from m)) chunks) w).
Proof.
  revert w. induction chunks as [|c chunks IH]; intros w Hok.
  - cbn. now rewrite withTrace_same.
  - cbn [sendChunks]. unfold bind, msgReply. rewrite (Hok c) by now left.
    unfold emit. rewrite IH by (intros; apply Hok; now right).
    cbn. now rewrite <- app_assoc.
Qed.

Lemma sendChunks_fails (m : WebInboundMsg) (sent : list string) (bad : string)
    (unsent : list string) (w : World) :
  (forall chunk, In chunk sent -> replyOk C chunk = true) ->
  replyOk C bad = false ->
  sendChunks C m (sent ++ bad :: unsent) w =
    (Threw "msg.reply failed", withTrace (trace w ++ map (EReply (msg_from m)) sent) w).
Proof.
  revert w. induction sent as [|c sent IH]; intros w Hok Hbad.
  - cbn. unfold bind, msgReply. rewrite Hbad. cbn. now rewrite withTrace_same.
  - cbn [sendChunks app]. unfold bind, msgReply. rewrite (Hok c) by now left.
    unfold emit. rewrite IH by (try assumption; intros; apply Hok; now right).
    cbn. now rewrite <- app_assoc.
Qed.

(** X7: a reply without media goes out as its chunks, in order, one
    message each, followed by one log line; a reply with neither text nor
    media does nothing at all. *)
Theorem text_reply_sends_chunks_in_order (p : ReplyPayload) (m : WebInboundMsg) (w : World) :
  mediaListOf p = [] ->
  (forall chunk, In chunk (textChunksOf p) -> replyOk C chunk = true) ->
  deliverWebReply C p m w =
    (Ok tt,
     withTrace (trace w ++ map (EReply (msg_from m)) (textChunksOf p)
                ++ (if (0 <? length (textChunksOf p))%nat
                    then [ELog "auto-reply sent (text)"] else [])) w).
Proof.
  intros Hmedia Hok. unfold deliverWebReply. rewrite Hmedia. cbn [length Nat.eqb andb].
  destruct (textChunksOf p) as [|c chunks] eqn:Hchunks.
  - cbn. now rewrite withTrace_same.
  - change (0 <? length (c :: chunks))%nat with true. cbn iota.
    unfold bind. rewrite sendChunks_ok by assumption. unfold emit.
    cbn [trace withTrace]. rewrite withTrace_twice, <- app_assoc. reflexivity.
Qed.

(** X8: when [msg.reply] throws on a chunk of a reply without media, the
    chunks before it have gone out, the ones after it have not, and the
    error reaches the caller. *)
Theorem text_reply_stops_at_failure (p : ReplyPayload) (m : WebInboundMsg) (w : World)
    (sent : list string) (bad : string) (unsent : list string) :
  mediaListOf p = [] ->
  textChunksOf p = sent ++ bad :: unsent ->
  (forall chunk, In chunk sent -> replyOk C chunk = true) ->
  replyOk C bad = false ->
  deliverWebReply C p m w =
    (Threw "msg.reply failed", withTrace (trace w ++ map (EReply (msg_from m)) sent) w).
Proof.
  intros Hmedia Hchunks Hok Hbad. unfold deliverWebReply. rewrite Hmedia, Hchunks.
  replace (0 <? length (sent ++ bad :: unsent))%nat with true
    by (symmetry; apply Nat.ltb_lt; rewrite length_app; simpl; lia).
  cbn [length Nat.eqb andb]. unfold bind.
  now rewrite sendChunks_fails.
Qed.

Lemma mediaLoop_rest_ok (m : WebInboundMsg) (urls : list string) :
  forall (index : nat) (remainingText : list string) (w : World),
    (forall url, In url urls ->
       loadWebMedia C url <> None /\ sendMediaOk C url None = true) ->
    mediaLoop C m (S index) urls remainingText w =
      (Ok remainingText,
       withTrace (trace w ++ flat_map (sentMedia C (msg_from m) None) urls) w).
Proof.
  induction urls as [|url urls IH]; intros index remainingText w Hok.
  - cbn. now rewrite withTrace_same.
  - cbn [mediaLoop flat_map]. unfold bind, sendOneMedia, sentMedia at 1.
    destruct (Hok url (or_introl eq_refl)) as [Hload Hsend].
    destruct (loadWebMedia C url) as [media|]; [| contradiction].
    cbn [Nat.eqb]. rewrite Hsend. unfold bind, emit, ret. cbn [trace withTrace fst snd].
    rewrite withTrace_twice.
    rewrite IH by (intros; apply Hok; now right).
    cbn [trace withTrace]. rewrite withTrace_twice, <- !app_assoc. reflexivity.
Qed.

(** X9: a reply with media, when every item loads and sends and every
    [msg.reply] goes through: the first item carries the first chunk as
    its caption, the other items follow without one, and the remaining
    chunks go out after the last item, in order. *)
Theorem media_reply_sends_caption_then_rest (p : ReplyPayload) (m : WebInboundMsg)
    (w : World) (first : string) (others : list string) :
  mediaListOf p = first :: others ->
  (forall url, In url (first :: others) ->
     loadWebMedia C url <> None /\ forall caption, sendMediaOk C url caption = true) ->
  (forall chunk, In chunk (textChunksOf p) -> replyOk C chunk = true) ->
  deliverWebReply C p m w =
    (Ok tt,
     withTrace (trace w
                ++ sentMedia C (msg_from m) (hd_error (textChunksOf p)) first
                ++ flat_map (sentMedia C (msg_from m) None) others
                ++ map (EReply (msg_from m)) (tl (textChunksOf p))) w).
Proof.
  intros Hmedia Hok Hreply. unfold deliverWebReply. rewrite Hmedia.
  cbn [length Nat.eqb andb mediaLoop]. unfold bind, sendOneMedia, sentMedia at 1.
  destruct (Hok first (or_introl eq_refl)) as [Hload Hsend].
  destruct (loadWebMedia C first) as [media|]; [| contradiction].
  cbn [Nat.eqb].
  assert (Hcaption :
    match textChunksOf p with
    | c :: _ => if Js.truthy c then Some c else None
    | [] => None
    end = hd_error (textChunksOf p)).
  { pose proof (textChunks_bounded p) as Hbound.
    destruct (textChunksOf p) as [|c chunks]; [reflexivity |].
    specialize (Hbound c (or_introl eq_refl)). destruct c; [simpl in Hbound; lia | reflexivity]. }
  rewrite Hcaption, Hsend. unfold bind, emit, ret. cbn [trace withTrace fst snd].
  rewrite withTrace_twice.
  rewrite mediaLoop_rest_ok
    by (intros url Hin; destruct (Hok url (or_intror Hin)) as [Hl Hs]; auto).
  cbn [trace withTrace]. rewrite withTrace_twice.
  rewrite sendChunks_ok
    by (intros chunk Hin; apply Hreply; destruct (textChunksOf p); [destruct Hin | now right]).
  cbn [trace withTrace]. rewrite withTrace_twice, <- !app_assoc. reflexivity.
Qed.

(** *** Delivery and throwing *)

Lemma neverThrows_ret {A} (a : A) : neverThrows (ret a).
Proof. intros w. now exists a. Qed.

Lemma neverThrows_emit (e : Event) : neverThrows (emit e).
Proof. intros w. now exists tt. Qed.

Lemma neverThrows_bind {A B} (m : M A) (k : A -> M B) :
  neverThrows m -> (forall a, neverThrows (k a)) -> neverThrows (bind m k).
Proof.
  intros Hm Hk w. unfold bind. destruct (Hm w) as [a Ha].
  destruct (m w) as [[a' | err] w1]; cbn in Ha; [| discriminate].
  apply Hk.
Qed.

Hypothesis replies_go_through : forall body, replyOk C body = true.

Lemma neverThrows_msgReply (m : WebInboundMsg) (body : string) :
  neverThrows (msgReply C m body).
Proof. unfold msgReply. rewrite replies_go_through. apply neverThrows_emit. Qed.

Lemma neverThrows_sendChunks (m : WebInboundMsg) (chunks : list string) :
  neverThrows (sendChunks C m chunks).
Proof.
  induction chunks as [|c chunks IH]; simpl; [apply neverThrows_ret |].
  apply neverThrows_bind; [apply neverThrows_msgReply | intros; exact IH].
Qed.

Lemma neverThrows_mediaFailed (m : WebInboundMsg) (index : nat) (remainingText : list string) :
  neverThrows (mediaFailed C m index remainingText).
Proof.
  unfold mediaFailed. apply neverThrows_bind; [apply neverThrows_emit | intros _].
  destruct (_ && _); [| apply neverThrows_ret].
  apply neverThrows_bind; [apply neverThrows_emit | intros _].
  apply neverThrows_bind; [apply neverThrows_msgReply | intros _; apply neverThrows_ret].
Qed.

Lemma neverThrows_mediaLoop (m : WebInboundMsg) (mediaList : list string) :
  forall (index : nat) (remainingText : list string),
    neverThrows (mediaLoop C m index mediaList remainingText).
Proof.
  induction mediaList as [|url rest IH]; intros index remainingText; simpl.
  - apply neverThrows_ret.
  - apply neverThrows_bind; [| intros; apply IH].
    unfold sendOneMedia. destruct (loadWebMedia C url); [| apply neverThrows_mediaFailed].
    destruct (sendMediaOk C url _); [| apply neverThrows_mediaFailed].
    apply neverThrows_bind; [apply neverThrows_emit | intros _].
    apply neverThrows_bind; [apply neverThrows_emit | intros _; apply neverThrows_ret].
Qed.

Lemma neverThrows_deliverWebReply (p : ReplyPayload) (m : WebInboundMsg) :
  neverThrows (deliverWebReply C p m).
Proof.
  unfold deliverWebReply. destruct (_ && _).
  - apply neverThrows_bind; [apply neverThrows_sendChunks | intros _; apply neverThrows_emit].
  - apply neverThrows_bind; [apply neverThrows_mediaLoop | intros; apply neverThrows_sendChunks].
Qed.

End Delivery.

(** X10: as long as [msg.reply] goes through, delivery returns normally
    whatever happens to the media: no failure to load or to send a media
    item reaches the caller. *)
Theorem media_errors_are_contained (C : Collaborators) (p : ReplyPayload)
    (m : WebInboundMsg) (w : World) :
  (forall body, replyOk C body = true) ->
  fst (deliverWebReply C p m w) = Ok tt.
Proof.
  intros Hreply. destruct (neverThrows_deliverWebReply C Hreply p m w) as [[] Hok].
  exact Hok.
Qed.

(** *** Delivery, by example *)

(** Two lines go out as two messages. *)
Lemma text_reply_sends_chunks_in_order_witness :
  deliverWebReply Scenario.env (mkPayload (Some ("a" +:+ Js.LF +:+ "b")) None None)
                  (Scenario.from "hi") emptyWorld
  = (Ok tt,
     withTrace [EReply "+1555" "a"; EReply "+1555" "b"; ELog "auto-reply sent (text)"]
               emptyWorld).
Proof.
  apply (text_reply_sends_chunks_in_order Scenario.env
           (mkPayload (Some ("a" +:+ Js.LF +:+ "b")) None None) (Scenario.from "hi")
           emptyWorld); [reflexivity | intros chunk _; reflexivity].
Defined.

(** Of three lines the second cannot be sent: the first is out, the
    third is not. *)
Lemma text_reply_stops_at_failure_witness :
  deliverWebReply FailingScenario.env
                  (mkPayload (Some ("a" +:+ Js.LF +:+ "b" +:+ Js.LF +:+ "c")) None None)
                  (Scenario.from "hi") emptyWorld
  = (Threw "msg.reply failed", withTrace [EReply "+1555" "a"] emptyWorld).
Proof.
  apply (text_reply_stops_at_failure FailingScenario.env
           (mkPayload (Some ("a" +:+ Js.LF +:+ "b" +:+ Js.LF +:+ "c")) None None)
           (Scenario.from "hi") emptyWorld ["a"] "b" ["c"]);
    [reflexivity | reflexivity | | reflexivity].
  intros chunk [<- | []]. reflexivity.
Defined.

(** Two pictures and a text: the text is the caption of the first. *)
Lemma media_reply_sends_caption_then_rest_witness :
  deliverWebReply Scenario.env (mkPayload (Some "look") None (Some ["a.png"; "b.png"]))
                  (Scenario.from "hi") emptyWorld
  = (Ok tt,
     withTrace [ESendMedia "+1555" KImage "a.png" (Some "look");
                ELog "auto-reply sent (media)";
                ESendMedia "+1555" KImage "b.png" None;
                ELog "auto-reply sent (media)"] emptyWorld).
Proof.
  apply (media_reply_sends_caption_then_rest Scenario.env
           (mkPayload (Some "look") None (Some ["a.png"; "b.png"])) (Scenario.from "hi")
           emptyWorld "a.png" ["b.png"]); [reflexivity | | intros chunk _; reflexivity].
  intros url _. split; [discriminate | reflexivity].
Defined.

(** The picture cannot be sent; the call returns all the same. *)
Lemma media_errors_are_contained_witness :
  fst (deliverWebReply (Scenario.envWith None false 0)
                       (mkPayload (Some "hello world") None (Some ["a.png"]))
                       (Scenario.from "hi") emptyWorld) = Ok tt.
Proof.
  apply (media_errors_are_contained (Scenario.envWith None false 0)). reflexivity.
Defined.

(** ** What delivery and the heartbeats leave alone *)

Section Untouched.

Variable C : Collaborators.

Lemma keeps_callResolver_store (ctx : ReplyCtx) :
  keeps onlyTraceAndStore (callResolver C ctx).
Proof.
  intros w. unfold callResolver. unfold_m. cbn.
  destruct (replyResolver C ctx (disk w)) as [r store']. now destruct w.
Qed.

Lemma keeps_callResolver_unsent (ctx : ReplyCtx) :
  keeps nothingSent (callResolver C ctx).
Proof.
  intros w. unfold callResolver. unfold_m. cbn.
  destruct (replyResolver C ctx (disk w)) as [r store']. now exists [EResolve ctx].
Qed.

Hint Resolve keeps_callResolver_store keeps_callResolver_unsent : frames.

Lemma keeps_msgReply (m : WebInboundMsg) (body : string) :
  keeps onlyTrace (msgReply C m body).
Proof. unfold msgReply. keeps_auto. Qed.

Hint Resolve keeps_msgReply : frames.

Lemma keeps_sendChunks (m : WebInboundMsg) (chunks : list string) :
  keeps onlyTrace (sendChunks C m chunks).
Proof. induction chunks; simpl; keeps_auto. Qed.

Hint Resolve keeps_sendChunks : frames.

Lemma keeps_mediaLoop (m : WebInboundMsg) (mediaList : list string) :
  forall index remainingText,
    keeps onlyTrace (mediaLoop C m index mediaList remainingText).
Proof.
  induction mediaList as [|url rest IH]; intros; simpl; [keeps_auto |].
  unfold sendOneMedia, mediaFailed. keeps_auto.
Qed.

Hint Resolve keeps_mediaLoop : frames.

Lemma keeps_deliverWebReply (p : ReplyPayload) (m : WebInboundMsg) :
  keeps onlyTrace (deliverWebReply C p m).
Proof. unfold deliverWebReply. keeps_auto. Qed.

Lemma keeps_deliverWebReply_store (p : ReplyPayload) (m : WebInboundMsg) :
  keeps onlyTraceAndStore (deliverWebReply C p m).
Proof. eapply keeps_weaken; [apply onlyTrace_store | apply keeps_deliverWebReply]. Qed.

Hint Resolve keeps_deliverWebReply_store : frames.

Lemma keeps_deliverWebReply_guard (p : ReplyPayload) (m : WebInboundMsg) :
  keeps onlyGuardAndTrace (deliverWebReply C p m).
Proof. eapply keeps_weaken; [apply onlyTrace_guard | apply keeps_deliverWebReply]. Qed.

Hint Resolve keeps_deliverWebReply_guard : frames.

Lemma keeps_deliverAll (combinedBody : string) (latest : WebInboundMsg)
    (ps : list ReplyPayload) :
  keeps onlyGuardAndTrace (deliverAll C combinedBody latest ps).
Proof.
  induction ps as [|p ps IH]; simpl; [keeps_auto |].
  unfold deliverOne, rememberSent. keeps_auto.
Qed.

Lemma keeps_getSessionSnapshot (R : relation World) `{!PreOrder R}
    (from : string) (isHeartbeat : bool) (now : Z) :
  keeps R (getSessionSnapshot C from isHeartbeat now).
Proof. unfold getSessionSnapshot, loadSessionStore. keeps_auto. Qed.

Lemma keeps_sender (to body : string) : keeps onlyTraceAndStore (sender C to body).
Proof. unfold sender. keeps_auto. Qed.

Hint Resolve keeps_sender : frames.




Lemma unsent_runWebHeartbeatOnce (to : string) (sessionId body : option string) (n1 n2 : Z) :
  keeps nothingSent (runWebHeartbeatOnce C (mkHeartbeatOpts to sessionId body true) n1 n2).
Proof.
  unfold runWebHeartbeatOnce, restoreUpdatedAt, loadSessionStore, saveSessionStore.
  cbn [hb_dryRun hb_to hb_sessionId hb_overrideBody].
  pose proof (keeps_getSessionSnapshot nothingSent). keeps_auto.
Qed.

End Untouched.

(** X11: a dry-run heartbeat sends nothing, to anybody, whatever the
    resolver answers and whether or not a message body or a session id
    was given. *)
Theorem dry_run_heartbeat_sends_nothing (C : Collaborators) (to : string)
    (sessionId overrideBody : option string) (n1 n2 : Z) (w : World) :
  let after :=
    execM (runWebHeartbeatOnce C (mkHeartbeatOpts to sessionId overrideBody true) n1 n2) w in
  List.filter isOutbound (newEvents w after) = [].
Proof.
  intros after. destruct (unsent_runWebHeartbeatOnce C to sessionId overrideBody n1 n2 w)
    as (evs & Htr & Hok).
  subst after. unfold execM. rewrite (newEvents_app _ _ _ Htr).
  clear Htr. induction evs as [|e evs IH]; [reflexivity |].
  cbn in Hok |- *. apply andb_true_iff in Hok. destruct Hok as [He Hok].
  apply negb_true_iff in He. rewrite He. auto.
Qed.


(** X13: the loop over the reply list goes on after a failed delivery.
    When the delivery of a payload throws, delivering that payload
    returns normally all the same: the failure is logged after whatever
    had gone out, and nothing else changes, so nothing is registered
    with the echo guard. *)
Theorem failed_delivery_is_logged_not_registered (C : Collaborators) (combinedBody : string)
    (latest : WebInboundMsg) (p : ReplyPayload) (w : World) (err : string) :
  fst (deliverWebReply C (applyResponsePrefix C p) latest w) = Threw err ->
  let delivered := snd (deliverWebReply C (applyResponsePrefix C p) latest w) in
  deliverOne C combinedBody latest p w =
    (Ok tt, withTrace (trace delivered ++ [ELog "Failed sending web auto-reply"]) w).
Proof.
  intros Hthrew delivered. unfold deliverOne. unfold_m.
  pose proof (keeps_deliverWebReply C (applyResponsePrefix C p) latest w) as Hkeeps.
  fold delivered in Hkeeps. subst delivered.
  destruct (deliverWebReply C (applyResponsePrefix C p) latest w) as [[[] | e] w1];
    cbn [fst snd] in *; [discriminate |].
  unfold onlyTrace in Hkeeps. rewrite Hkeeps. reflexivity.
Qed.

(** The one chunk of the reply cannot be sent: the failure is logged and
    the guard stays empty. *)
Lemma failed_delivery_is_logged_not_registered_witness :
  deliverOne FailingScenario.env "[warelay] hi" (Scenario.from "hi")
             (mkPayload (Some "b") None None) emptyWorld
  = (Ok tt, withTrace [ELog "Failed sending web auto-reply"] emptyWorld).
Proof.
  apply (failed_delivery_is_logged_not_registered FailingScenario.env "[warelay] hi"
           (Scenario.from "hi") (mkPayload (Some "b") None None) emptyWorld
           "msg.reply failed").
  reflexivity.
Defined.

(** ** More on batching *)

Section Batching.

Variable C : Collaborators.

(** A flush with the command queue empty, in one statement. *)
Lemma processBatch_when_free (w : World) (from : string) :
  queueSize w = 0%nat ->
  let after := execM (processBatch C from) w in
  match pendingBatches w !! from with
  | Some (mkBatch (first :: others) _) =>
      let msgs := first :: others in
      pendingBatches after = delete from (pendingBatches w) /\
      queueSize after = 0%nat /\
      exists evs,
        trace after = trace w ++ evs /\
        resolves evs =
          if EchoGuard.has (recentlySent w) (combinedBodyOf C msgs) then []
          else [ctxOfBatch (combinedBodyOf C msgs) (List.last msgs first)]
  | _ => processBatch C from w = (Ok tt, w)
  end.
Proof.
  intros Hqueue after.
  destruct (pendingBatches w !! from) as [[[|first others] tm] |] eqn:Hbatch.
  - unfold processBatch. unfold_m. cbn. now rewrite Hbatch.
  - subst after. unfold execM, processBatch. unfold_m.
    cbn -[EchoGuard.has EchoGuard.delete combinedBodyOf deliverAll List.last].
    rewrite Hbatch.
    cbn -[EchoGuard.has EchoGuard.delete combinedBodyOf deliverAll List.last].
    rewrite Hqueue.
    cbn -[EchoGuard.has EchoGuard.delete combinedBodyOf deliverAll List.last].
    set (combinedBody := combinedBodyOf C (first :: others)).
    set (latest := List.last (first :: others) first).
    destruct (EchoGuard.has (recentlySent w) combinedBody) eqn:Hecho.
    + cbn. repeat split; [assumption |]. exists []. now rewrite app_nil_r.
    + unfold callResolver. unfold_m.
      cbn -[EchoGuard.has EchoGuard.delete combinedBodyOf deliverAll List.last].
      destruct (replyResolver C (ctxOfBatch combinedBody latest) (disk w))
        as [[reply | err] store'] eqn:Hres.
      * match goal with
        | |- context [deliverAll C ?b ?l ?ps ?w0] =>
            destruct (quiet_deliverAll C b l ps w0) as (Hpb & evs & Htr & Hquiet);
            pose proof (keeps_deliverAll C b l ps w0) as Hkeeps
        end.
        rewrite Hpb. cbn [pendingBatches withTrace withDisk withPendingBatches].
        split; [reflexivity |]. split.
        { unfold onlyGuardAndTrace in Hkeeps. rewrite Hkeeps. cbn. assumption. }
        exists ([ELog "inbound web message (batched)";
                 EResolve (ctxOfBatch combinedBody latest)] ++ evs).
        rewrite Htr. cbn [trace withTrace withDisk withPendingBatches]. split.
        { rewrite <- !app_assoc. reflexivity. }
        { rewrite resolves_app, Hquiet. reflexivity. }
      * cbn. repeat split; [assumption |].
        exists [ELog "inbound web message (batched)";
                EResolve (ctxOfBatch combinedBody latest)].
        rewrite <- !app_assoc. repeat split.
  - unfold processBatch. unfold_m. cbn. now rewrite Hbatch.
Qed.

(** A timer that fires after its batch was flushed does nothing.
    With the command queue empty, running the flush a second time
    changes nothing and calls nobody. *)
Lemma stale_timer_does_nothing (w : World) (from : string) :
  queueSize w = 0%nat ->
  let flushed := execM (processBatch C from) w in
  processBatch C from flushed = (Ok tt, flushed).
Proof.
  intros Hqueue flushed.
  pose proof (processBatch_when_free w from Hqueue) as Hfirst. cbv zeta in Hfirst.
  fold flushed in Hfirst.
  destruct (pendingBatches w !! from) as [[[|first others] tm] |] eqn:Hbatch.
  - assert (Hsame : flushed = w) by (subst flushed; unfold execM; now rewrite Hfirst).
    rewrite Hsame. exact Hfirst.
  - destruct Hfirst as (Hpb & _ & _).
    unfold processBatch. unfold_m. cbn. rewrite Hpb, lookup_delete_eq. reflexivity.
  - assert (Hsame : flushed = w) by (subst flushed; unfold execM; now rewrite Hfirst).
    rewrite Hsame. exact Hfirst.
Qed.

(** X14: an inbound message that is no echo, arriving while the command
    queue is empty, is dispatched at once, together with whatever its
    sender's batch was holding: the resolver is called exactly once, with
    the lines of the held messages and of this one joined in arrival
    order, and the sender's batch is gone afterwards. *)
Theorem free_queue_message_is_dispatched_at_once (w : World) (m : WebInboundMsg) (now : Z)
    (held : list WebInboundMsg) :
  queueSize w = 0%nat ->
  messages (default (mkBatch [] false) (pendingBatches w !! msg_from m)) = held ->
  EchoGuard.has (recentlySent w) (msg_body m) = false ->
  EchoGuard.has (recentlySent w) (combinedBodyOf C (held ++ [m])) = false ->
  let after := execM (onMessage C m now) w in
  resolves (newEvents w after) = [ctxOfBatch (combinedBodyOf C (held ++ [m])) m] /\
  pendingBatches after !! msg_from m = None.
Proof.
  intros Hqueue Hheld Hfresh Hbody after.
  set (bucket := default (mkBatch [] false) (pendingBatches w !! msg_from m)) in *.
  set (w1 := withPendingBatches
               (<[msg_from m := mkBatch (held ++ [m]) (timer bucket)]> (pendingBatches w))
               (noteInbound m now w)).
  assert (Hstep : onMessage C m now w = processBatch C (msg_from m) w1).
  { unfold onMessage, enqueueBatch. unfold_m.
    cbn -[EchoGuard.has processBatch Nat.eqb]. rewrite Hfresh.
    cbn -[EchoGuard.has processBatch Nat.eqb]. fold bucket. rewrite Hqueue, Hheld.
    reflexivity. }
  assert (Hafter : after = execM (processBatch C (msg_from m)) w1)
    by (subst after; unfold execM; now rewrite Hstep).
  pose proof (processBatch_when_free w1 (msg_from m) Hqueue) as Hflush.
  cbv zeta in Hflush. rewrite <- Hafter in Hflush.
  assert (Hlookup : pendingBatches w1 !! msg_from m
                    = Some (mkBatch (held ++ [m]) (timer bucket)))
    by (subst w1; cbn; apply lookup_insert_eq).
  rewrite Hlookup in Hflush.
  destruct (held ++ [m]) as [|first others] eqn:Hmsgs;
    [now destruct held |].
  destruct Hflush as (Hpb & _ & evs & Htr & Hres).
  change (recentlySent w1) with (recentlySent w) in Hres. rewrite Hbody in Hres.
  assert (Hlast : List.last (first :: others) first = m)
    by (rewrite <- Hmsgs; apply last_last).
  rewrite Hlast in Hres.
  change (trace w1) with (trace w) in Htr.
  rewrite (newEvents_app w evs after Htr), Hpb, lookup_delete_eq.
  split; [exact Hres | reflexivity].
Qed.

End Batching.

(** *** Batching, by example *)

(** The batch holding "one" is flushed; the timer that fires afterwards
    finds nothing to do. *)
Lemma free_queue_message_is_dispatched_at_once_witness :
  let m := Scenario.from "two" in
  let after := execM (onMessage Scenario.env m 2) QueueScenario.held in
  resolves (newEvents QueueScenario.held after)
  = [ctxOfBatch ("[warelay] one" +:+ Js.LF +:+ "[warelay] two") m] /\
  pendingBatches after !! "+1555" = None.
Proof.
  intros m after.
  apply (free_queue_message_is_dispatched_at_once Scenario.env QueueScenario.held m 2
           [Scenario.from "one"]); vm_compute; reflexivity.
Defined.

Section BusyTimers.

Variable C : Collaborators.

Lemma processBatch_when_busy (w : World) (from : string) :
  (0 < queueSize w)%nat ->
  let after := execM (processBatch C from) w in
  queueSize after = queueSize w /\
  (forall sender, messages <$> (pendingBatches after !! sender)
                  = messages <$> (pendingBatches w !! sender)) /\
  exists evs, trace after = trace w ++ evs /\ resolves evs = [].
Proof.
  intros Hbusy after. subst after. unfold execM, processBatch. unfold_m. cbn -[Nat.ltb].
  assert (Hq : (0 <? queueSize w)%nat = true) by now apply Nat.ltb_lt.
  destruct (pendingBatches w !! from) as [[[|first others] tm] |] eqn:Hbatch; cbn -[Nat.ltb].
  - repeat split. exists []. now rewrite app_nil_r.
  - rewrite Hq. cbn. repeat split.
    + intros sender. destruct (decide (sender = from)) as [-> | Hne].
      * now rewrite lookup_insert_eq, Hbatch.
      * now rewrite lookup_insert_ne.
    + now exists [ESetTimeout from 150].
  - repeat split. exists []. now rewrite app_nil_r.
Qed.

(** X15: while the command queue is busy, retry timers only re-arm.
    However many of them fire, for whichever senders, the resolver is not
    called and every batch keeps its messages. *)
Theorem busy_timers_never_dispatch (senders : list string) (w : World) :
  (0 < queueSize w)%nat ->
  let after := run C (map InTimer senders) w in
  resolves (newEvents w after) = [] /\
  forall sender, messages <$> (pendingBatches after !! sender)
                 = messages <$> (pendingBatches w !! sender).
Proof.
  intros Hbusy after.
  assert (H : queueSize after = queueSize w /\
              (forall sender, messages <$> (pendingBatches after !! sender)
                              = messages <$> (pendingBatches w !! sender)) /\
              exists evs, trace after = trace w ++ evs /\ resolves evs = []).
  { subst after. revert w Hbusy.
    induction senders as [|from senders IH]; intros w Hbusy.
    - repeat split. exists []. cbn. now rewrite app_nil_r.
    - change (run C (map InTimer (from :: senders)) w)
        with (run C (map InTimer senders) (execM (processBatch C from) w)).
      destruct (processBatch_when_busy w from Hbusy) as (Hq & Hpb & evs & Htr & Hres).
      destruct (IH (execM (processBatch C from) w)) as (Hq' & Hpb' & evs' & Htr' & Hres');
        [now rewrite Hq |].
      split; [now rewrite Hq', Hq |].
      split; [intros sender; now rewrite Hpb', Hpb |].
      exists (evs ++ evs'). rewrite Htr', Htr, <- app_assoc, resolves_app, Hres, Hres'.
      now split. }
  destruct H as (_ & Hpb & evs & Htr & Hres).
  split; [now rewrite (newEvents_app w evs after Htr) | exact Hpb].
Qed.

End BusyTimers.

(** ** The IPC send *)

Section Ipc.

Variable C : Collaborators.

(** X16: a text sent over IPC is skipped when it comes back.  After a
    send that went through, of a text that is not empty and that the
    guard did not hold, an inbound message with that text as its body is
    logged as an echo and goes no further: no batch changes and the
    resolver is not called.  The guard no longer holds the text
    afterwards. *)
Theorem ipc_text_is_skipped_when_it_comes_back (w : World) (to message : string)
    (media : option string) (m : WebInboundMsg) (now : Z) :
  fst (ipcSend C to message media w) = Ok tt ->
  message <> "" ->
  EchoGuard.has (recentlySent w) message = false ->
  msg_body m = message ->
  let sent := execM (ipcSend C to message media) w in
  let after := execM (onMessage C m now) sent in
  newEvents sent after = [ELog "Skipping echo: detected recently sent message"] /\
  pendingBatches after = pendingBatches w /\
  EchoGuard.has (recentlySent after) message = false.
Proof.
  intros Hok Hne Hfresh Hbody sent after.
  assert (Htruthy : Js.truthy message = true) by (destruct message; [contradiction | reflexivity]).
  assert (Hsent : recentlySent sent = EchoGuard.rememberIpc (recentlySent w) message /\
                  pendingBatches sent = pendingBatches w).
  { subst sent. revert Hok. unfold execM, ipcSend. unfold_m.
    destruct (Js.truthyOpt media); [destruct (loadWebMedia C (Js.orEmpty media)) |];
      cbn; try discriminate;
      (destruct (listenerSendOk C to message); cbn; [| discriminate]);
      rewrite Htruthy; cbn; intros _; split; reflexivity. }
  destruct Hsent as [Hguard Hpb].
  assert (Hheld : EchoGuard.has (recentlySent sent) (msg_body m) = true)
    by (rewrite Hguard, Hbody; now apply rememberIpc_holds_fresh).
  subst after. unfold execM, onMessage. unfold_m. cbn -[EchoGuard.has EchoGuard.delete].
  rewrite Hheld. cbn -[EchoGuard.has EchoGuard.delete].
  split; [now apply newEvents_app |]. split; [exact Hpb |].
  rewrite Hbody. apply has_delete_same.
Qed.

(** An IPC send that fails leaves no trace.  When loading the media
    or the send itself throws, the world is as it was: nothing went out,
    nothing was logged and the guard holds what it held. *)
Lemma failed_ipc_send_changes_nothing (w : World) (to message : string)
    (media : option string) (err : string) :
  fst (ipcSend C to message media w) = Threw err ->
  snd (ipcSend C to message media w) = w.
Proof.
  unfold ipcSend. unfold_m.
  destruct (Js.truthyOpt media); [destruct (loadWebMedia C (Js.orEmpty media)) |];
    cbn; try reflexivity;
    (destruct (listenerSendOk C to message); cbn; [| reflexivity]);
    destruct (Js.truthy message); cbn; discriminate.
Qed.

Lemma ipcSend_guard (w : World) (to message : string) (media : option string) :
  recentlySent (execM (ipcSend C to message media) w) = recentlySent w \/
  (message <> "" /\
   recentlySent (execM (ipcSend C to message media) w)
   = EchoGuard.rememberIpc (recentlySent w) message).
Proof.
  unfold execM, ipcSend. unfold_m.
  destruct (Js.truthyOpt media); [destruct (loadWebMedia C (Js.orEmpty media)) |];
    cbn; try (now left);
    (destruct (listenerSendOk C to message); cbn; [| now left]);
    (destruct message as [|c rest]; cbn; [now left | right; split; [discriminate | reflexivity]]).
Qed.

Lemma rememberIpc_no_empty (g : list string) (message : string) :
  ~ In "" g -> message <> "" -> ~ In "" (EchoGuard.rememberIpc g message).
Proof.
  intros Hg Hne Hin. unfold EchoGuard.rememberIpc, EchoGuard.evictOldest in Hin.
  assert (Hadd : ~ In "" (EchoGuard.add g message)).
  { unfold EchoGuard.add. destruct (EchoGuard.has g message); [assumption |].
    rewrite in_app_iff. intros [H | [H | []]]; [now apply Hg | now apply Hne]. }
  destruct (_ <? _)%nat; [| contradiction].
  destruct (EchoGuard.add g message) as [|firstKey rest]; [contradiction |].
  destruct (Js.truthy firstKey); [| contradiction].
  apply In_delete in Hin. now destruct Hin.
Qed.

(** X17: the IPC path keeps the guard within its capacity.  Starting from
    a guard of at most 100 entries that does not hold the empty string,
    any number of IPC sends, failed or not, leaves at most 100 entries
    in it. *)
Theorem ipc_sends_keep_guard_bounded (sends : list (string * string * option string))
    (w : World) :
  (length (recentlySent w) <= EchoGuard.MAX_RECENT_MESSAGES)%nat ->
  ~ In "" (recentlySent w) ->
  let after := run C (map (fun s => InIpcSend (fst (fst s)) (snd (fst s)) (snd s)) sends) w in
  (length (recentlySent after) <= EchoGuard.MAX_RECENT_MESSAGES)%nat.
Proof.
  intros Hlen Hempty after.
  enough (H : (length (recentlySent after) <= EchoGuard.MAX_RECENT_MESSAGES)%nat /\
              ~ In "" (recentlySent after)) by apply H.
  subst after. revert w Hlen Hempty.
  induction sends as [|[[to message] media] sends IH]; intros w Hlen Hempty; [now split |].
  cbn [map fst snd].
  change (run C (InIpcSend to message media :: ?l) w)
    with (run C l (execM (ipcSend C to message media) w)).
  apply IH; destruct (ipcSend_guard w to message media) as [-> | [Hne ->]];
    try assumption.
  - now apply rememberIpc_bounded.
  - now apply rememberIpc_no_empty.
Qed.

End Ipc.

(** ** More on the connection loop *)

Section Loop.

Variable C : Collaborators.

(** What a turn of the loop appends, counted. *)
Lemma monitorLoop_counts (script : list Cycle) :
  forall (attempts : Z) (w : World),
  exists evs,
    trace (snd (monitorLoop C script attempts w)) = trace w ++ evs /\
    (connects evs <= sleeps evs + 1)%nat /\
    (fst (monitorLoop C script attempts w) = Awaiting -> connects evs = sleeps evs).
Proof.
  induction script as [|c script IH]; intros attempts w.
  - exists []. cbn. rewrite app_nil_r. split; [reflexivity | split; [lia | reflexivity]].
  - cbn [monitorLoop].
    destruct (stopAtTop c).
    { exists []. cbn. rewrite app_nil_r.
      split; [reflexivity | split; [lia | discriminate]]. }
    destruct (keepAlive C); cbn [negb].
    2:{ exists [EConnect; ECloseListener]. cbn. rewrite <- app_assoc.
        split; [reflexivity | split; [cbn; lia | discriminate]]. }
    destruct (connect_trace C c w) as (up & Hup & Hcalm).
    pose proof (noLoopEvents_sleeps up Hcalm) as Hs.
    pose proof (noLoopEvents_connects up Hcalm) as Hc.
    assert (Hone : forall tail,
              sleeps tail = 0%nat -> connects tail = 0%nat ->
              (connects ((EConnect :: up) ++ tail) <= sleeps ((EConnect :: up) ++ tail) + 1)%nat).
    { intros tail Hts Htc. rewrite sleeps_app, connects_app, Hts, Htc.
      change (EConnect :: up) with ([EConnect] ++ up).
      rewrite sleeps_app, connects_app, Hs, Hc. cbn. lia. }
    destruct (closeReason c) as [|status loggedOut].
    { exists ((EConnect :: up) ++ [ECloseListener]). unfold closeListener. unfold_m. cbn [snd fst trace withTrace].
      rewrite Hup, <- app_assoc. split; [reflexivity |].
      split; [now apply Hone | discriminate]. }
    destruct (stopAfterClose c || sigintStop c).
    { exists ((EConnect :: up) ++ [ECloseListener]). unfold closeListener. unfold_m. cbn [snd fst trace withTrace].
      rewrite Hup, <- app_assoc. split; [reflexivity |].
      split; [now apply Hone | discriminate]. }
    destruct loggedOut.
    { exists ((EConnect :: up) ++ [ELog "web reconnect: connection closed";
                                   ERuntimeError NoticeLoggedOut; ECloseListener]).
      unfold closeListener. unfold_m. cbn [snd fst trace withTrace].
      rewrite Hup, <- !app_assoc. split; [reflexivity |].
      split; [now apply Hone | discriminate]. }
    set (attempts1 := (resetAfterHealthyStretch C c attempts + 1)%Z).
    destruct (giveUp C attempts1).
    { eexists ((EConnect :: up) ++ [_; _; _; _]).
      unfold closeListener. unfold_m. cbn [snd fst trace withTrace].
      rewrite Hup, <- !app_assoc. split; [reflexivity |].
      split; [now apply Hone | discriminate]. }
    set (tail := [ELog "web reconnect: connection closed";
                  ELog "web reconnect: scheduling retry";
                  ERuntimeError (NoticeRetry status attempts1 (maxAttempts C)
                                             (computeBackoff C attempts1));
                  ECloseListener;
                  ESleep (computeBackoff C attempts1)]).
    assert (Hcount : connects ((EConnect :: up) ++ tail) = 1%nat /\
                     sleeps ((EConnect :: up) ++ tail) = 1%nat).
    { rewrite sleeps_app, connects_app.
      change (EConnect :: up) with ([EConnect] ++ up).
      rewrite sleeps_app, connects_app, Hs, Hc. split; reflexivity. }
    destruct Hcount as [Hcs Hss].
    destruct (sleepAborted c).
    { exists ((EConnect :: up) ++ tail). unfold closeListener. unfold_m. cbn [snd fst trace withTrace].
      rewrite Hup, <- !app_assoc. split; [reflexivity |].
      split; [lia | discriminate]. }
    match goal with
    | |- context [monitorLoop C script attempts1 ?w3] =>
        destruct (IH attempts1 w3) as (evs & Htr & Hle & Hawait);
        assert (Hw3 : trace w3 = trace w ++ (EConnect :: up) ++ tail)
          by (unfold closeListener; unfold_m; cbn [snd fst trace withTrace]; rewrite Hup, <- !app_assoc; reflexivity)
    end.
    exists (((EConnect :: up) ++ tail) ++ evs).
    rewrite Htr, Hw3, <- !app_assoc. split; [reflexivity |].
    rewrite !app_assoc, <- (app_assoc _ tail evs).
    rewrite (app_assoc (EConnect :: up) tail evs).
    rewrite sleeps_app, connects_app, Hcs, Hss.
    split; [lia |]. intros Hexit. specialize (Hawait Hexit). lia.
Qed.

(** X18: the loop never reconnects without having waited.  Whatever
    the turns bring, the connection attempts outnumber the backoff waits
    by one at most, and whenever the loop is about to connect again the
    two are equal. *)
Theorem no_reconnect_without_a_wait (script : list Cycle) (w : World) :
  let evs := newEvents w (snd (monitorWebProvider C script w)) in
  (connects evs <= sleeps evs + 1)%nat /\
  (fst (monitorWebProvider C script w) = Awaiting -> connects evs = sleeps evs).
Proof.
  intros evs. unfold monitorWebProvider in *.
  destruct (monitorLoop_counts script 0 (withRecentlySent [] w)) as (evs' & Htr & Hle & Hawait).
  change (trace (withRecentlySent [] w)) with (trace w) in Htr.
  subst evs. rewrite (newEvents_app w evs' _ Htr). split; assumption.
Qed.

Lemma monitorLoop_bounded (script : list Cycle) :
  forall (attempts : Z) (w : World),
    (0 < maxAttempts C)%Z -> (0 <= attempts)%Z ->
    forallb (shortLived C) script = true ->
    exists evs,
      trace (snd (monitorLoop C script attempts w)) = trace w ++ evs /\
      (Z.of_nat (connects evs) <= Z.max 1 (maxAttempts C - attempts))%Z.
Proof.
  induction script as [|c script IH]; intros attempts w Hmax Hattempts Hshort.
  - exists []. cbn. rewrite app_nil_r. split; [reflexivity | lia].
  - cbn [forallb] in Hshort. apply andb_true_iff in Hshort. destruct Hshort as [Hc Hshort].
    cbn [monitorLoop].
    destruct (stopAtTop c).
    { exists []. cbn. rewrite app_nil_r. split; [reflexivity | lia]. }
    destruct (keepAlive C); cbn [negb].
    2:{ exists [EConnect; ECloseListener]. cbn. rewrite <- app_assoc.
        split; [reflexivity | cbn; lia]. }
    destruct (connect_trace C c w) as (up & Hup & Hcalm).
    pose proof (noLoopEvents_connects up Hcalm) as Hcu.
    assert (Hone : forall tail,
              connects tail = 0%nat -> connects ((EConnect :: up) ++ tail) = 1%nat).
    { intros tail Htc. rewrite connects_app, Htc.
      change (EConnect :: up) with ([EConnect] ++ up).
      rewrite connects_app, Hcu. reflexivity. }
    destruct (closeReason c) as [|status loggedOut].
    { exists ((EConnect :: up) ++ [ECloseListener]).
      unfold closeListener. unfold_m. cbn [snd fst trace withTrace].
      rewrite Hup, <- app_assoc. split; [reflexivity |]. rewrite Hone by reflexivity. lia. }
    destruct (stopAfterClose c || sigintStop c).
    { exists ((EConnect :: up) ++ [ECloseListener]).
      unfold closeListener. unfold_m. cbn [snd fst trace withTrace].
      rewrite Hup, <- app_assoc. split; [reflexivity |]. rewrite Hone by reflexivity. lia. }
    destruct loggedOut.
    { exists ((EConnect :: up) ++ [ELog "web reconnect: connection closed";
                                   ERuntimeError NoticeLoggedOut; ECloseListener]).
      unfold closeListener. unfold_m. cbn [snd fst trace withTrace].
      rewrite Hup, <- !app_assoc. split; [reflexivity |]. rewrite Hone by reflexivity. lia. }
    assert (Hreset : resetAfterHealthyStretch C c attempts = attempts).
    { unfold resetAfterHealthyStretch. unfold shortLived in Hc.
      apply Z.leb_le in Hc.
      destruct (Z.ltb_spec (heartbeatSeconds C * 1000) (uptimeMs c)); [lia | reflexivity]. }
    rewrite Hreset.
    set (attempts1 := (attempts + 1)%Z).
    destruct (giveUp C attempts1) eqn:Hgive.
    { eexists ((EConnect :: up) ++ [_; _; _; _]).
      unfold closeListener. unfold_m. cbn [snd fst trace withTrace].
      rewrite Hup, <- !app_assoc. split; [reflexivity |]. rewrite Hone by reflexivity. lia. }
    assert (Hroom : (attempts1 < maxAttempts C)%Z).
    { unfold giveUp in Hgive. apply andb_false_iff in Hgive.
      destruct Hgive as [Hgive | Hgive].
      - apply Z.ltb_ge in Hgive. lia.
      - apply Z.leb_gt in Hgive. exact Hgive. }
    set (tail := [ELog "web reconnect: connection closed";
                  ELog "web reconnect: scheduling retry";
                  ERuntimeError (NoticeRetry status attempts1 (maxAttempts C)
                                             (computeBackoff C attempts1));
                  ECloseListener;
                  ESleep (computeBackoff C attempts1)]).
    destruct (sleepAborted c).
    { exists ((EConnect :: up) ++ tail).
      unfold closeListener. unfold_m. cbn [snd fst trace withTrace].
      rewrite Hup, <- !app_assoc. split; [reflexivity |]. rewrite Hone by reflexivity. lia. }
    match goal with
    | |- context [monitorLoop C script attempts1 ?w3] =>
        destruct (IH attempts1 w3 Hmax ltac:(subst attempts1; lia) Hshort) as (evs & Htr & Hle);
        assert (Hw3 : trace w3 = trace w ++ (EConnect :: up) ++ tail)
          by (unfold closeListener; unfold_m; cbn [snd fst trace withTrace];
              rewrite Hup, <- !app_assoc; reflexivity)
    end.
    exists (((EConnect :: up) ++ tail) ++ evs).
    rewrite Htr, Hw3, <- !app_assoc. split; [reflexivity |].
    rewrite !app_assoc, <- (app_assoc _ tail evs).
    rewrite (app_assoc (EConnect :: up) tail evs).
    rewrite connects_app, Hone by reflexivity.
    subst attempts1. lia.
Qed.

(** X19: a positive [maxAttempts] bounds the connection attempts.  As
    long as no connection outlives one heartbeat interval (which is what
    resets the counter), the monitor connects at most [maxAttempts]
    times, however long the script of closes is. *)
Theorem attempts_are_bounded (script : list Cycle) (w : World) :
  (0 < maxAttempts C)%Z ->
  forallb (shortLived C) script = true ->
  (Z.of_nat (connects (newEvents w (snd (monitorWebProvider C script w))))
   <= maxAttempts C)%Z.
Proof.
  intros Hmax Hshort. unfold monitorWebProvider.
  destruct (monitorLoop_bounded script 0 (withRecentlySent [] w) Hmax ltac:(lia) Hshort)
    as (evs & Htr & Hle).
  change (trace (withRecentlySent [] w)) with (trace w) in Htr.
  rewrite (newEvents_app w evs _ Htr). lia.
Qed.

(** Once the loop has returned, it has returned.  Whatever is
    scripted after the turn on which the monitor returned is never
    played: the outcome is the same with and without it. *)
Lemma returned_is_final (script more : list Cycle) (attempts : Z) (w : World) :
  fst (monitorLoop C script attempts w) = Returned ->
  monitorLoop C (script ++ more) attempts w = monitorLoop C script attempts w.
Proof.
  revert attempts w. induction script as [|c script IH]; intros attempts w Hexit.
  - discriminate Hexit.
  - cbn [monitorLoop app] in Hexit |- *.
    destruct (stopAtTop c); [reflexivity |].
    destruct (negb (keepAlive C)); [reflexivity |].
    destruct (closeReason c) as [|status loggedOut]; [reflexivity |].
    destruct (stopAfterClose c || sigintStop c); [reflexivity |].
    destruct loggedOut; [reflexivity |].
    destruct (giveUp C _); [reflexivity |].
    destruct (sleepAborted c); [reflexivity |].
    now apply IH.
Qed.

End Loop.

(** *** Timers, IPC sends and the loop, by example *)

(** Three timers fire while the queue is busy: "one" stays where it
    is. *)
Lemma busy_timers_never_dispatch_witness :
  let after := run Scenario.env [InTimer "+1555"; InTimer "+1666"; InTimer "+1555"]
                   QueueScenario.busy in
  resolves (newEvents QueueScenario.busy after) = [] /\
  messages <$> (pendingBatches after !! "+1555") = Some [Scenario.from "one"].
Proof.
  intros after.
  destruct (busy_timers_never_dispatch Scenario.env ["+1555"; "+1666"; "+1555"]
              QueueScenario.busy) as [Hquiet Hkept]; [vm_compute; lia |].
  split; [exact Hquiet |]. exact (eq_trans (Hkept "+1555") eq_refl).
Defined.

(** "hello" is sent over IPC and comes back. *)
Lemma ipc_text_is_skipped_when_it_comes_back_witness :
  let sent := execM (ipcSend Scenario.env "+1555" "hello" None) emptyWorld in
  let after := execM (onMessage Scenario.env (Scenario.from "hello") 1) sent in
  newEvents sent after = [ELog "Skipping echo: detected recently sent message"] /\
  pendingBatches after = pendingBatches emptyWorld /\
  EchoGuard.has (recentlySent after) "hello" = false.
Proof.
  apply (ipc_text_is_skipped_when_it_comes_back Scenario.env emptyWorld "+1555" "hello" None
           (Scenario.from "hello") 1); [reflexivity | discriminate | reflexivity | reflexivity].
Defined.

(** The guard is full; one more IPC send and it is still full. *)
Lemma ipc_sends_keep_guard_bounded_witness :
  (length (recentlySent (run Scenario.env [InIpcSend "+1555" "one more" None]
                             GuardScenario.full)) <= 100)%nat.
Proof.
  apply (ipc_sends_keep_guard_bounded Scenario.env [("+1555", "one more", None)]
           GuardScenario.full).
  - vm_compute. lia.
  - rewrite <- has_In. vm_compute. discriminate.
Defined.

(** Five drops are scripted; after the third connection the monitor
    gives up. *)
Lemma attempts_are_bounded_witness :
  (Z.of_nat (connects (newEvents emptyWorld
     (snd (monitorWebProvider LoopScenario.env
             [LoopScenario.drop; LoopScenario.drop; LoopScenario.drop; LoopScenario.drop;
              LoopScenario.drop] emptyWorld)))) <= 3)%Z.
Proof.
  apply (attempts_are_bounded LoopScenario.env); reflexivity.
Defined.

(** ** The response prefix *)

Lemma startsWith_append (pre rest : string) : Js.startsWith (pre +:+ rest) pre = true.
Proof.
  unfold Js.startsWith. induction pre as [|c pre IH]; simpl.
  - now destruct rest.
  - destruct (ascii_dec c c) as [_ | Hne]; [exact IH | contradiction].
Qed.

(** X20: the response prefix is put in front of a reply text once.  A
    payload that went through the prefixing comes out of a second pass
    unchanged. *)
Theorem response_prefix_applied_once (C : Collaborators) (p : ReplyPayload) :
  applyResponsePrefix C (applyResponsePrefix C p) = applyResponsePrefix C p.
Proof.
  unfold applyResponsePrefix.
  destruct (responsePrefix (cfg C)) as [rp |]; [| reflexivity].
  destruct (text p) as [t |] eqn:Ht; [| now rewrite Ht].
  destruct (Js.truthy rp && Js.truthy t && negb (String.eqb (Js.trim t) HEARTBEAT_TOKEN)
            && negb (Js.startsWith t rp)) eqn:Hcond.
  - cbn [text]. rewrite startsWith_append. cbn [negb]. now rewrite andb_false_r.
  - now rewrite Ht, Hcond.
Qed.

(** The same for the text of a reply heartbeat. *)
Lemma heartbeat_prefix_applied_once (C : Collaborators) (finalText : string) :
  prefixedHeartbeatText C (prefixedHeartbeatText C finalText)
  = prefixedHeartbeatText C finalText.
Proof.
  unfold prefixedHeartbeatText.
  destruct (responsePrefix (cfg C)) as [rp |]; [| reflexivity].
  destruct (Js.truthy rp && Js.truthy finalText && negb (Js.startsWith finalText rp))
    eqn:Hcond.
  - rewrite startsWith_append. cbn [negb]. now rewrite andb_false_r.
  - now rewrite Hcond.
Qed.

(** ** The one-shot heartbeat with a message of its own *)



(** * The base32 codec *)

Section Int32Facts.

Import Int32.

Lemma wrap_unsigned (z : Z) : unsigned (wrap z) = unsigned z.
Proof. unfold unsigned, wrap. Z.div_mod_to_equations. lia. Qed.

Lemma wrap_small (z : Z) : (- 2 ^ 31 <= z < 2 ^ 31)%Z -> wrap z = z.
Proof. unfold wrap. intros H. Z.div_mod_to_equations. lia. Qed.

Lemma lor_low (x b k : Z) :
  (0 <= k)%Z -> (x mod 2 ^ k = 0)%Z -> (0 <= b < 2 ^ k)%Z -> Z.lor x b = (x + b)%Z.
Proof.
  intros Hk Hx Hb.
  assert (Hland : Z.land x b = 0%Z).
  { rewrite <- (Z.mod_small b (2 ^ k)) by assumption.
    rewrite <- (Z.land_ones b k) by assumption.
    rewrite (Z.land_comm b), Z.land_assoc, Z.land_ones, Hx by assumption.
    apply Z.land_0_l. }
  pose proof (Z.add_lor_land x b) as H. rewrite Hland in H. lia.
Qed.

(** [(v << k) | b], for the two shifts the codec uses. *)
Lemma unsigned_or_shl_8 (v b : Z) :
  isByte b -> unsigned (or (shl v 8) b) = ((unsigned v * 256 + b) mod 2 ^ 32)%Z.
Proof.
  intros Hb. unfold isByte in Hb. unfold or, shl.
  change (Z.land 8 31) with 8%Z.
  rewrite Z.shiftl_mul_pow2 by lia. change (2 ^ 8)%Z with 256%Z.
  rewrite (wrap_small b) by lia.
  set (x := wrap (wrap (wrap v * 256))).
  assert (Hx : (x mod 2 ^ 8 = 0)%Z /\ unsigned x = ((unsigned v * 256) mod 2 ^ 32)%Z).
  { subst x. unfold unsigned, wrap. Z.div_mod_to_equations. lia. }
  destruct Hx as [Hlow Hux].
  rewrite (lor_low x b 8) by (try assumption; lia).
  unfold unsigned in *. Z.div_mod_to_equations. lia.
Qed.

Lemma unsigned_or_shl_5 (v i : Z) :
  (0 <= i < 32)%Z -> unsigned (or (shl v 5) i) = ((unsigned v * 32 + i) mod 2 ^ 32)%Z.
Proof.
  intros Hi. unfold or, shl.
  change (Z.land 5 31) with 5%Z.
  rewrite Z.shiftl_mul_pow2 by lia. change (2 ^ 5)%Z with 32%Z.
  rewrite (wrap_small i) by lia.
  set (x := wrap (wrap (wrap v * 32))).
  assert (Hx : (x mod 2 ^ 5 = 0)%Z /\ unsigned x = ((unsigned v * 32) mod 2 ^ 32)%Z).
  { subst x. unfold unsigned, wrap. Z.div_mod_to_equations. lia. }
  destruct Hx as [Hlow Hux].
  rewrite (lor_low x i 5) by (try assumption; lia).
  unfold unsigned in *. Z.div_mod_to_equations. lia.
Qed.

(** [(v >>> k) & (2^n - 1)] *)
Lemma and_ushr (v k n : Z) :
  (0 <= k < 32)%Z -> (0 <= n < 31)%Z ->
  and (ushr v k) (Z.ones n) = ((unsigned v / 2 ^ k) mod 2 ^ n)%Z.
Proof.
  intros Hk Hn. unfold and, ushr.
  assert (Hshift : Z.land k 31 = k).
  { change 31%Z with (Z.ones 5). rewrite Z.land_ones by lia. apply Z.mod_small.
    change (2 ^ 5)%Z with 32%Z. lia. }
  rewrite Hshift, Z.shiftr_div_pow2 by lia.
  fold (unsigned (wrap v)). rewrite wrap_unsigned.
  assert (Hones : wrap (Z.ones n) = Z.ones n).
  { apply wrap_small. rewrite Z.ones_equiv.
    assert (0 < 2 ^ n <= 2 ^ 30)%Z by (split; [lia | apply Z.pow_le_mono_r; lia]). lia. }
  rewrite Hones, Z.land_ones by lia.
  set (q := (unsigned v / 2 ^ k)%Z).
  assert (Hq : (0 <= q < 2 ^ 32)%Z).
  { subst q. unfold unsigned.
    assert (0 < 2 ^ k)%Z by lia.
    pose proof (Z.mod_pos_bound v (2 ^ 32) ltac:(lia)).
    split; [apply Z.div_pos; lia |].
    apply Z.div_lt_upper_bound; [lia |]. nia. }
  assert (Hdiv : (2 ^ 32 = 2 ^ n * 2 ^ (32 - n))%Z)
    by (rewrite <- Z.pow_add_r by lia; f_equal; lia).
  assert (Hw : exists t, wrap q = (q + t * 2 ^ 32)%Z).
  { unfold wrap. exists (- ((q + 2 ^ 31) / 2 ^ 32))%Z. Z.div_mod_to_equations. lia. }
  destruct Hw as [t ->]. rewrite Hdiv.
  replace (q + t * (2 ^ n * 2 ^ (32 - n)))%Z with (q + (t * 2 ^ (32 - n)) * 2 ^ n)%Z by ring.
  apply Z.mod_add. lia.
Qed.

(** [(v << k) & 31] *)
Lemma and_shl_31 (v k : Z) :
  (0 <= k < 32)%Z -> and (shl v k) 31 = ((unsigned v * 2 ^ k) mod 32)%Z.
Proof.
  intros Hk. unfold and, shl.
  assert (Hshift : Z.land k 31 = k).
  { change 31%Z with (Z.ones 5). rewrite Z.land_ones by lia. apply Z.mod_small.
    change (2 ^ 5)%Z with 32%Z. lia. }
  rewrite Hshift, Z.shiftl_mul_pow2 by lia.
  rewrite (wrap_small 31) by lia. change 31%Z with (Z.ones 5).
  rewrite Z.land_ones by lia. change (2 ^ 5)%Z with 32%Z.
  set (p := (2 ^ k)%Z). assert (0 < p)%Z by (subst p; lia). clearbody p.
  unfold unsigned, wrap.
  assert (H32 : (2 ^ 32 = 32 * 2 ^ 27)%Z) by reflexivity.
  set (a := ((v + 2 ^ 31) mod 2 ^ 32 - 2 ^ 31)%Z).
  assert (Ha : exists t, a = (v mod 2 ^ 32 + t * 2 ^ 32)%Z).
  { subst a. exists ((v + 2 ^ 31) mod 2 ^ 32 / 2 ^ 32 - (if (v mod 2 ^ 32 <? 2 ^ 31)%Z then 0 else 1))%Z.
    destruct (v mod 2 ^ 32 <? 2 ^ 31)%Z eqn:E;
      [apply Z.ltb_lt in E | apply Z.ltb_ge in E]; Z.div_mod_to_equations; lia. }
  destruct Ha as [t Ha]. rewrite Ha.
  set (u := (v mod 2 ^ 32)%Z).
  set (y := ((u + t * 2 ^ 32) * p)%Z).
  assert (Hy : exists s, ((y + 2 ^ 31) mod 2 ^ 32 - 2 ^ 31 + 2 ^ 31 - 2 ^ 31 = y + s * 2 ^ 32)%Z).
  { exists (- ((y + 2 ^ 31) / 2 ^ 32))%Z. Z.div_mod_to_equations. lia. }
  destruct Hy as [s Hy].
  assert (Hww : forall z, ((((z + 2 ^ 31) mod 2 ^ 32 - 2 ^ 31) + 2 ^ 31) mod 2 ^ 32 - 2 ^ 31
                           = (z + 2 ^ 31) mod 2 ^ 32 - 2 ^ 31)%Z).
  { intros z. Z.div_mod_to_equations. lia. }
  rewrite Hww.
  replace ((y + 2 ^ 31) mod 2 ^ 32 - 2 ^ 31)%Z with (y + s * 2 ^ 32)%Z by lia.
  subst y. rewrite H32.
  replace ((u + t * (32 * 2 ^ 27)) * p + s * (32 * 2 ^ 27))%Z
    with (u * p + (t * 2 ^ 27 * p + s * 2 ^ 27) * 32)%Z by ring.
  apply Z.mod_add. lia.
Qed.

End Int32Facts.

Section Base32.

Import Totp.

Lemma append_cons (x : ascii) (a b : string) : String x a +:+ b = String x (a +:+ b).
Proof. reflexivity. Qed.

Lemma append_empty_l (a : string) : "" +:+ a = a.
Proof. reflexivity. Qed.

Lemma append_assoc (a b c : string) : (a +:+ b) +:+ c = a +:+ (b +:+ c).
Proof.
  induction a as [|x a IH]; [reflexivity |]. now rewrite !append_cons, IH.
Qed.

Lemma append_empty_r (a : string) : a +:+ "" = a.
Proof.
  induction a as [|x a IH]; [reflexivity |]. now rewrite append_cons, IH.
Qed.

(** The alphabet and its index are inverse to each other, and cleaning
    leaves the alphabet alone. *)
Lemma alphabet_index (i : Z) :
  (0 <= i < 32)%Z ->
  exists c, alphabetAt i = String c "" /\
            indexFrom 0 BASE32_ALPHABET c = Some i /\
            isPadOrSpace c = false /\
            upperCase c = String c "".
Proof.
  intros Hi. assert (Hn : exists n, i = Z.of_nat n /\ (n < 32)%nat)
    by (exists (Z.to_nat i); lia).
  destruct Hn as (n & -> & Hn).
  do 32 (destruct n as [|n]; [eexists; repeat split; reflexivity |]).
  lia.
Qed.

Lemma index_alphabet (c : ascii) (i : Z) :
  indexFrom 0 BASE32_ALPHABET c = Some i ->
  isPadOrSpace c = false /\ upperCase c = String c "".
Proof.
  unfold BASE32_ALPHABET. cbn [indexFrom].
  repeat match goal with
         | |- context [Ascii.eqb ?a c] =>
             destruct (Ascii.eqb_spec a c) as [<- | _]; [intros _; split; reflexivity |]
         end.
  discriminate.
Qed.

Lemma clean_alphabet (s : string) :
  allAlphabet s = true -> toUpperCase (dropPadAndSpace s) = s.
Proof.
  induction s as [|c s IH]; [reflexivity |]. cbn [allAlphabet].
  destruct (indexFrom 0 BASE32_ALPHABET c) as [i |] eqn:Hc; [| discriminate].
  intros Hs. destruct (index_alphabet c i Hc) as [Hpad Hup].
  cbn [dropPadAndSpace]. rewrite Hpad. cbn [toUpperCase]. rewrite Hup, IH by assumption.
  now rewrite append_cons.
Qed.

Lemma allAlphabet_append (a b : string) :
  allAlphabet (a +:+ b) = allAlphabet a && allAlphabet b.
Proof.
  induction a as [|c a IH]; [reflexivity |]. rewrite append_cons. cbn [allAlphabet].
  destruct (indexFrom 0 BASE32_ALPHABET c); [exact IH | reflexivity].
Qed.

Lemma allAlphabet_at (i : Z) : (0 <= i < 32)%Z -> allAlphabet (alphabetAt i) = true.
Proof.
  intros Hi. destruct (alphabet_index i Hi) as (c & -> & Hc & _).
  cbn [allAlphabet]. now rewrite Hc.
Qed.

(** *** The encoder, one byte at a time *)

Lemma drain_out (fuel : nat) :
  forall (bits value : Z) (out : string),
    drain fuel bits value out =
      (fst (drain fuel bits value ""), out +:+ snd (drain fuel bits value "")).
Proof.
  induction fuel as [|fuel IH]; intros bits value out; cbn [drain].
  - cbn. now rewrite append_empty_r.
  - destruct (5 <=? bits)%Z; cbn [fst snd].
    + rewrite IH. rewrite (IH _ _ ("" +:+ _)). cbn [fst snd].
      now rewrite append_empty_l, !append_assoc.
    + now rewrite append_empty_r.
Qed.

Lemma encodeStep_out (e v : Z) (out : string) (byte : Z) :
  encodeStep (e, v, out) byte =
    (let '(e', v', o') := encodeStep (e, v, "") byte in (e', v', out +:+ o')).
Proof.
  unfold encodeStep. rewrite drain_out.
  destruct (drain _ _ _ "") as [bits o]. reflexivity.
Qed.

Lemma fold_encodeStep_out (rest : list Z) :
  forall (e v : Z) (out : string),
    fold_left encodeStep rest (e, v, out) =
      (let '(e', v', o') := fold_left encodeStep rest (e, v, "") in (e', v', out +:+ o')).
Proof.
  induction rest as [|b rest IH]; intros e v out; cbn [fold_left].
  - now rewrite append_empty_r.
  - rewrite encodeStep_out. destruct (encodeStep (e, v, "") b) as [[e1 v1] o1].
    rewrite IH. rewrite (IH e1 v1 o1).
    destruct (fold_left encodeStep rest (e1, v1, "")) as [[e' v'] o'].
    now rewrite append_assoc.
Qed.

Lemma encodeFrom_cons (b : Z) (rest : list Z) (e v : Z) :
  encodeFrom (b :: rest) e v =
    (let '(e1, v1, o1) := encodeStep (e, v, "") b in o1 +:+ encodeFrom rest e1 v1).
Proof.
  unfold encodeFrom. cbn [fold_left].
  destruct (encodeStep (e, v, "") b) as [[e1 v1] o1].
  rewrite fold_encodeStep_out.
  destruct (fold_left encodeStep rest (e1, v1, "")) as [[e' v'] o'].
  destruct (0 <? e')%Z; [now rewrite append_assoc | reflexivity].
Qed.

Lemma few_bits (e : Z) : (0 <= e < 5)%Z -> e = 0%Z \/ e = 1%Z \/ e = 2%Z \/ e = 3%Z \/ e = 4%Z.
Proof. lia. Qed.

(** With fewer than 5 bits pending, a byte gives one character or two. *)
Lemma encodeStep_chars (e v byte : Z) :
  (0 <= e < 5)%Z ->
  let v1 := Int32.or (Int32.shl v 8) byte in
  let first := alphabetAt (Int32.and (Int32.ushr v1 (e + 3)) 31) in
  encodeStep (e, v, "") byte =
    if (e <? 2)%Z then ((e + 3)%Z, v1, first)
    else ((e - 2)%Z, v1, first +:+ alphabetAt (Int32.and (Int32.ushr v1 (e - 2)) 31)).
Proof.
  intros He v1 first.
  destruct (few_bits e He) as [-> | [-> | [-> | [-> | ->]]]]; reflexivity.
Qed.

(** *** The decoder, one character at a time *)

Lemma decodeLoop_index (i : Z) (s : string) (d x : Z) (bytes : list Z) :
  (0 <= i < 32)%Z ->
  decodeLoop (alphabetAt i +:+ s) d x bytes =
    (let x1 := Int32.or (Int32.shl x 5) i in
     if (8 <=? d + 5)%Z
     then decodeLoop s (d + 5 - 8) x1
                     (bytes ++ [Int32.and (Int32.ushr x1 (d + 5 - 8)) 255])
     else decodeLoop s (d + 5) x1 bytes).
Proof.
  intros Hi. destruct (alphabet_index i Hi) as (c & -> & Hc & _).
  rewrite append_cons, append_empty_l. cbn [decodeLoop]. now rewrite Hc.
Qed.

(** *** Encoder and decoder, in step *)

Ltac to_unsigned :=
  repeat first
    [ rewrite unsigned_or_shl_8 by assumption
    | rewrite unsigned_or_shl_5 by (apply Z.mod_pos_bound; lia)
    | rewrite (and_ushr _ _ 5) by lia
    | rewrite (and_ushr _ _ 8) by lia
    | rewrite and_shl_31 by lia ].

Ltac bits_arith :=
  unfold isByte, unsigned in *; Z.div_mod_to_equations; lia.

Lemma index_range (u k : Z) : (0 <= (u / 2 ^ k) mod 2 ^ 5 < 32)%Z.
Proof. apply Z.mod_pos_bound. lia. Qed.

Lemma in_step (rest : list Z) :
  forall (e v d x last : Z) (bytes : list Z),
    Forall isByte rest ->
    inStep e v d x last ->
    decodeLoop (encodeFrom rest e v) d x bytes
    = Ok (bytes ++ pendingByte e last ++ rest).
Proof.
  change 31%Z with (Z.ones 5). change 255%Z with (Z.ones 8).
  induction rest as [|b rest IH]; intros e v d x last bytes Hrest Hstep.
  - (* no byte left: the closing character *)
    unfold encodeFrom. cbn [fold_left].
    destruct Hstep as [[-> ->] | (He & -> & Hlast & Hx & Hv)].
    + cbn. now rewrite app_nil_r.
    + assert (Hpos : (0 <? e)%Z = true) by (apply Z.ltb_lt; lia). rewrite Hpos.
      rewrite append_empty_l.
      change 31%Z with (Z.ones 5). rewrite and_shl_31 by lia.
      rewrite <- (append_empty_r (alphabetAt _)).
      rewrite decodeLoop_index by (apply Z.mod_pos_bound; lia).
      cbv zeta.
      assert (Hemit : (8 <=? 8 - e + 5)%Z = true) by (apply Z.leb_le; lia).
      rewrite Hemit. cbn [decodeLoop].
      change 255%Z with (Z.ones 8).
      rewrite (and_ushr _ _ 8) by lia.
      rewrite unsigned_or_shl_5 by (apply Z.mod_pos_bound; lia).
      unfold pendingByte. replace (e =? 0)%Z with false by (symmetry; apply Z.eqb_neq; lia).
      rewrite app_nil_r. do 3 f_equal.
      assert (e = 1 \/ e = 2 \/ e = 3 \/ e = 4)%Z as [-> | [-> | [-> | ->]]] by lia;
        cbn in *; bits_arith.
  - (* one more byte *)
    inversion Hrest as [|b' rest' Hb Hrest']; subst b' rest'.
    rewrite encodeFrom_cons.
    assert (He : (0 <= e < 5)%Z) by (destruct Hstep as [[-> _] | [? _]]; lia).
    rewrite encodeStep_chars by assumption. cbv zeta.
    set (v1 := Int32.or (Int32.shl v 8) b).
    assert (Hv1 : unsigned v1 = ((unsigned v * 256 + b) mod 2 ^ 32)%Z)
      by (subst v1; now apply unsigned_or_shl_8).
    destruct Hstep as [[-> ->] | (He' & -> & Hlast & Hx & Hv)].
    + (* in step: the decoder waits for the second character *)
      cbn [Z.ltb Z.compare Z.add Z.sub Z.opp Pos.add Pos.succ].
      change (0 <? 2)%Z with true. cbv iota.
      change 31%Z with (Z.ones 5).
      rewrite (and_ushr _ _ 5) by lia.
      rewrite decodeLoop_index by apply index_range. cbv zeta.
      change (8 <=? 0 + 5)%Z with false. cbv iota.
      rewrite (IH _ _ _ _ b); [reflexivity | assumption |].
      right. split; [lia |]. split; [reflexivity |]. split; [assumption |].
      rewrite unsigned_or_shl_5 by apply index_range. rewrite Hv1.
      split; cbn; bits_arith.
    + assert (e = 1 \/ e = 2 \/ e = 3 \/ e = 4)%Z as [-> | [-> | [-> | ->]]] by lia.
      * (* 1 bit pending: one character, which completes the last byte *)
        change (1 <? 2)%Z with true. cbv iota.
        change 31%Z with (Z.ones 5).
        rewrite (and_ushr _ _ 5) by lia.
        rewrite decodeLoop_index by apply index_range. cbv zeta.
        change (8 <=? 8 - 1 + 5)%Z with true. cbv iota.
        change 255%Z with (Z.ones 8).
        rewrite (and_ushr _ _ 8) by lia.
        rewrite unsigned_or_shl_5 by apply index_range.
        rewrite (IH _ _ _ _ b); [| assumption |].
        { unfold pendingByte. cbn [Z.eqb]. rewrite <- !app_assoc. do 2 f_equal.
          cbn [app]. f_equal. rewrite Hv1. cbn in *. bits_arith. }
        right. split; [lia |]. split; [reflexivity |]. split; [assumption |].
        rewrite unsigned_or_shl_5 by apply index_range. rewrite Hv1.
        split; cbn in *; bits_arith.
      * (* 2 bits pending: two characters, the decoder catches up *)
        change (2 <? 2)%Z with false. cbv iota.
        change 31%Z with (Z.ones 5).
        rewrite !(and_ushr _ _ 5) by lia.
        rewrite append_assoc.
        rewrite decodeLoop_index by apply index_range. cbv zeta.
        change (8 <=? 8 - 2 + 5)%Z with true. cbv iota.
        rewrite decodeLoop_index by apply index_range. cbv zeta.
        change (8 <=? 8 - 2 + 5 - 8 + 5)%Z with true. cbv iota.
        change 255%Z with (Z.ones 8).
        rewrite !(and_ushr _ _ 8) by lia.
        rewrite !unsigned_or_shl_5 by apply index_range.
        rewrite (IH _ _ _ _ b); [| assumption | left; split; reflexivity].
        unfold pendingByte. cbn [Z.eqb]. rewrite <- !app_assoc. do 2 f_equal.
        cbn [app]. rewrite Hv1. f_equal; [| f_equal]; cbn in *; bits_arith.
      * (* 3 bits pending *)
        change (3 <? 2)%Z with false. cbv iota.
        change 31%Z with (Z.ones 5).
        rewrite !(and_ushr _ _ 5) by lia.
        rewrite append_assoc.
        rewrite decodeLoop_index by apply index_range. cbv zeta.
        change (8 <=? 8 - 3 + 5)%Z with true. cbv iota.
        rewrite decodeLoop_index by apply index_range. cbv zeta.
        change (8 <=? 8 - 3 + 5 - 8 + 5)%Z with false. cbv iota.
        change 255%Z with (Z.ones 8).
        rewrite !(and_ushr _ _ 8) by lia.
        rewrite !unsigned_or_shl_5 by apply index_range.
        rewrite (IH _ _ _ _ b); [| assumption |].
        { unfold pendingByte. cbn [Z.eqb]. rewrite <- !app_assoc. do 2 f_equal.
          cbn [app]. f_equal. rewrite Hv1. cbn in *. bits_arith. }
        right. split; [lia |]. split; [reflexivity |]. split; [assumption |].
        rewrite !unsigned_or_shl_5 by apply index_range. rewrite Hv1.
        split; cbn in *; bits_arith.
      * (* 4 bits pending *)
        change (4 <? 2)%Z with false. cbv iota.
        change 31%Z with (Z.ones 5).
        rewrite !(and_ushr _ _ 5) by lia.
        rewrite append_assoc.
        rewrite decodeLoop_index by apply index_range. cbv zeta.
        change (8 <=? 8 - 4 + 5)%Z with true. cbv iota.
        rewrite decodeLoop_index by apply index_range. cbv zeta.
        change (8 <=? 8 - 4 + 5 - 8 + 5)%Z with false. cbv iota.
        change 255%Z with (Z.ones 8).
        rewrite !(and_ushr _ _ 8) by lia.
        rewrite !unsigned_or_shl_5 by apply index_range.
        rewrite (IH _ _ _ _ b); [| assumption |].
        { unfold pendingByte. cbn [Z.eqb]. rewrite <- !app_assoc. do 2 f_equal.
          cbn [app]. f_equal. rewrite Hv1. cbn in *. bits_arith. }
        right. split; [lia |]. split; [reflexivity |]. split; [assumption |].
        rewrite !unsigned_or_shl_5 by apply index_range. rewrite Hv1.
        split; cbn in *; bits_arith.
Qed.

End Base32.

Section RoundTrip.

Import Totp.

Lemma encodeBase32_encodeFrom (buf : list Z) : encodeBase32 buf = encodeFrom buf 0 0.
Proof. reflexivity. Qed.

Lemma encodeFrom_shape (rest : list Z) :
  forall e v : Z,
    (0 <= e < 5)%Z ->
    allAlphabet (encodeFrom rest e v) = true /\
    Z.of_nat (String.length (encodeFrom rest e v))
    = ((e + 8 * Z.of_nat (length rest) + 4) / 5)%Z.
Proof.
  induction rest as [|b rest IH]; intros e v He.
  - unfold encodeFrom. cbn [fold_left length].
    destruct (Z.ltb_spec 0 e) as [Hpos | Hzero].
    + rewrite append_empty_l. change 31%Z with (Z.ones 5). rewrite and_shl_31 by lia.
      assert (Hi : (0 <= (unsigned v * 2 ^ (5 - e)) mod 32 < 32)%Z)
        by (apply Z.mod_pos_bound; lia).
      split; [now apply allAlphabet_at |].
      destruct (alphabet_index _ Hi) as (c & -> & _). cbn [String.length].
      Z.div_mod_to_equations. lia.
    + assert (e = 0%Z) by lia. subst e. split; reflexivity.
  - rewrite encodeFrom_cons, encodeStep_chars by assumption. cbv zeta.
    change 31%Z with (Z.ones 5).
    set (v1 := Int32.or (Int32.shl v 8) b).
    pose proof (index_range (unsigned v1) (e + 3)) as H1.
    pose proof (index_range (unsigned v1) (e - 2)) as H2.
    destruct (alphabet_index _ H1) as (c1 & Hc1 & Hi1 & _).
    destruct (alphabet_index _ H2) as (c2 & Hc2 & Hi2 & _).
    destruct (Z.ltb_spec e 2) as [Hlow | Hhigh].
    + destruct (IH (e + 3)%Z v1 ltac:(lia)) as [Halpha Hlen].
      rewrite (and_ushr _ _ 5) by lia.
      rewrite Hc1, append_cons, append_empty_l. cbn [allAlphabet String.length length].
      rewrite Hi1. split; [exact Halpha |].
      rewrite Nat2Z.inj_succ, Hlen. Z.div_mod_to_equations. lia.
    + destruct (IH (e - 2)%Z v1 ltac:(lia)) as [Halpha Hlen].
      rewrite !(and_ushr _ _ 5) by lia.
      rewrite Hc1, Hc2, !append_cons, !append_empty_l, append_cons, append_empty_l.
      cbn [allAlphabet String.length length].
      rewrite Hi1, Hi2. split; [exact Halpha |].
      rewrite !Nat2Z.inj_succ, Hlen. Z.div_mod_to_equations. lia.
Qed.

Lemma decode_encode (buf : list Z) :
  Forall isByte buf -> decodeBase32 (encodeBase32 buf) = Ok buf.
Proof.
  intros Hbuf. unfold decodeBase32. rewrite encodeBase32_encodeFrom.
  destruct (encodeFrom_shape buf 0 0 ltac:(lia)) as [Halpha _].
  rewrite clean_alphabet by assumption.
  rewrite (in_step buf 0 0 0 0 0 []) by (try assumption; left; split; reflexivity).
  reflexivity.
Qed.

End RoundTrip.

(** X22: what is encoded in base32 decodes to itself.  For every buffer
    of bytes, however long, the decoder gives back the bytes that the
    encoder was given, although both keep their bits in a 32-bit value
    that overflows after the fourth byte. *)
Theorem base32_round_trip (buf : list Z) :
  Forall isByte buf ->
  Totp.decodeBase32 (Totp.encodeBase32 buf) = Ok buf.
Proof.
  intros Hbuf. unfold Totp.decodeBase32. rewrite encodeBase32_encodeFrom.
  destruct (encodeFrom_shape buf 0 0 ltac:(lia)) as [Halpha _].
  rewrite clean_alphabet by assumption.
  rewrite (in_step buf 0 0 0 0 0 []) by (try assumption; left; split; reflexivity).
  reflexivity.
Qed.

(** The encoder writes letters and digits of the alphabet only, no
    padding, and one character for every five bits begun: a buffer of
    [n] bytes gives [ceil (8 n / 5)] characters. *)
Lemma base32_text_shape (buf : list Z) :
  allAlphabet (Totp.encodeBase32 buf) = true /\
  Z.of_nat (String.length (Totp.encodeBase32 buf)) = ((8 * Z.of_nat (length buf) + 4) / 5)%Z.
Proof.
  rewrite encodeBase32_encodeFrom.
  destruct (encodeFrom_shape buf 0 0 ltac:(lia)) as [Halpha Hlen].
  split; [exact Halpha | rewrite Hlen; f_equal; lia].
Qed.

(** * Codes *)

Section CodeFacts.

Import Totp.

Variable hmacSha1 : list Z -> list Z -> list Z.

Lemma hotpCode_in_range (secret : list Z) (counter : Z) (digits : nat) :
  (0 <= counter < 2 ^ 64)%Z ->
  exists code, hotpCode hmacSha1 secret counter digits = Ok code.
Proof.
  intros Hc. unfold hotpCode.
  replace ((0 <=? counter) && (counter <? 2 ^ 64))%Z with true; [eauto |].
  symmetry. apply andb_true_iff. split; [apply Z.leb_le | apply Z.ltb_lt]; lia.
Qed.

Lemma verifyFrom_finds (secret : list Z) (code : string) (now : Z) (digits : nat)
    (rounds : nat) :
  forall i j : Z,
    (forall k, i <= k < i + Z.of_nat rounds -> 0 <= now + k < 2 ^ 64)%Z ->
    (i <= j < i + Z.of_nat rounds)%Z ->
    hotpCode hmacSha1 secret (now + j) digits = Ok code ->
    verifyFrom hmacSha1 rounds i secret code now digits = Ok true.
Proof.
  induction rounds as [|rounds IH]; intros i j Hrange Hj Hcode; [lia |].
  cbn [verifyFrom].
  destruct (hotpCode_in_range secret (now + i) digits) as [candidate Hcandidate];
    [apply Hrange; lia |].
  rewrite Hcandidate.
  destruct (String.eqb candidate code) eqn:Heq; [reflexivity |].
  apply (IH (i + 1)%Z j).
  - intros k Hk. apply Hrange. lia.
  - assert (j <> i) as Hne.
    { intros ->. rewrite Hcode in Hcandidate. injection Hcandidate as <-.
      now rewrite String.eqb_refl in Heq. }
    lia.
  - exact Hcode.
Qed.

Lemma verifyFrom_found (secret : list Z) (code : string) (now : Z) (digits : nat)
    (rounds : nat) :
  forall i : Z,
    verifyFrom hmacSha1 rounds i secret code now digits = Ok true ->
    exists j, (i <= j < i + Z.of_nat rounds)%Z /\
              hotpCode hmacSha1 secret (now + j) digits = Ok code.
Proof.
  induction rounds as [|rounds IH]; intros i Hok; [discriminate Hok |].
  cbn [verifyFrom] in Hok.
  destruct (hotpCode hmacSha1 secret (now + i) digits) as [candidate |] eqn:Hc;
    [| discriminate Hok].
  destruct (String.eqb_spec candidate code) as [-> | Hne].
  - exists i. split; [lia | exact Hc].
  - destruct (IH (i + 1)%Z Hok) as (j & Hj & Hcode). exists j. split; [lia | exact Hcode].
Qed.

Lemma verifyTotp_accepts (secret : list Z) (code : string) (window timeStep : Z)
    (digits : nat) (generatedAt verifiedAt : Z) :
  let step t := (t / (1000 * timeStep))%Z in
  (0 <= step verifiedAt - window)%Z ->
  (step verifiedAt + window < 2 ^ 64)%Z ->
  (step verifiedAt - window <= step generatedAt <= step verifiedAt + window)%Z ->
  generateTotp hmacSha1 secret timeStep digits generatedAt = Ok code ->
  verifyTotp hmacSha1 secret code window timeStep digits verifiedAt = Ok true.
Proof.
  intros step Hlow Hhigh Hnear Hcode.
  unfold generateTotp, verifyTotp, counterAt in *.
  destruct (timeStep =? 0)%Z; [discriminate Hcode |].
  fold (step generatedAt) in Hcode. fold (step verifiedAt).
  apply (verifyFrom_finds secret code (step verifiedAt) digits _ _
           (step generatedAt - step verifiedAt)%Z).
  - intros k Hk. lia.
  - lia.
  - replace (step verifiedAt + (step generatedAt - step verifiedAt))%Z
      with (step generatedAt) by lia.
    exact Hcode.
Qed.

End CodeFacts.

(** X23: a generated code is accepted while the clock is within the
    window.  A code generated at one instant verifies at another when
    the time steps of the two are at most [window] apart, provided the
    counters that the verification tries are all writable as unsigned
    64-bit numbers. *)
Theorem generated_code_is_accepted (hmacSha1 : list Z -> list Z -> list Z)
    (secret : list Z) (code : string) (window timeStep : Z) (digits : nat)
    (generatedAt verifiedAt : Z) :
  let step t := (t / (1000 * timeStep))%Z in
  (0 <= step verifiedAt - window)%Z ->
  (step verifiedAt + window < 2 ^ 64)%Z ->
  (step verifiedAt - window <= step generatedAt <= step verifiedAt + window)%Z ->
  Totp.generateTotp hmacSha1 secret timeStep digits generatedAt = Ok code ->
  Totp.verifyTotp hmacSha1 secret code window timeStep digits verifiedAt = Ok true.
Proof.
  intros step Hlow Hhigh Hnear Hcode.
  unfold Totp.generateTotp, Totp.verifyTotp, Totp.counterAt in *.
  destruct (timeStep =? 0)%Z; [discriminate Hcode |].
  fold (step generatedAt) in Hcode. fold (step verifiedAt).
  apply (verifyFrom_finds hmacSha1 secret code (step verifiedAt) digits _ _
           (step generatedAt - step verifiedAt)%Z).
  - intros k Hk. lia.
  - lia.
  - replace (step verifiedAt + (step generatedAt - step verifiedAt))%Z
      with (step generatedAt) by lia.
    exact Hcode.
Qed.

(** X24: an accepted code is the code of a time step of the window.
    Whenever the verification answers [true], the code is what
    [hotpCode] gives for the secret at a counter at most [window] steps
    from the current one. *)
Theorem accepted_code_is_of_the_window (hmacSha1 : list Z -> list Z -> list Z)
    (secret : list Z) (code : string) (window timeStep : Z) (digits : nat) (nowMs : Z) :
  Totp.verifyTotp hmacSha1 secret code window timeStep digits nowMs = Ok true ->
  exists j, (- window <= j <= window)%Z /\
            Totp.hotpCode hmacSha1 secret (nowMs / (1000 * timeStep) + j) digits = Ok code.
Proof.
  unfold Totp.verifyTotp, Totp.counterAt.
  destruct (timeStep =? 0)%Z; [discriminate |]. intros Hok.
  destruct (verifyFrom_found hmacSha1 _ _ _ _ _ _ Hok) as (j & Hj & Hcode).
  exists j. split; [lia | exact Hcode].
Qed.

(** * The TOTP store *)

Section StoreFacts.

Import TotpStore.

Variable hmacSha1 : list Z -> list Z -> list Z.

Lemma read_ensure (st : State) :
  store (readJsonFile (ensureJsonFile st)) = store (readJsonFile st).
Proof.
  unfold ensureJsonFile, readJsonFile. destruct (file st) eqn:Hf; cbn; now rewrite ?Hf.
Qed.

Lemma stored_read (st : State) (s : TotpStore) :
  file st = Stored s ->
  ensureJsonFile st = st /\ readJsonFile st = mkLoaded s false.
Proof.
  intros Hfile. unfold ensureJsonFile, readJsonFile. now rewrite Hfile.
Qed.

Lemma find_none_existsb {A} (p : A -> bool) (l : list A) :
  List.find p l = None <-> existsb p l = false.
Proof.
  induction l as [|x l IH]; cbn; [tauto |].
  destruct (p x); cbn; [split; discriminate | exact IH].
Qed.

Lemma find_app_new {A} (p : A -> bool) (l : list A) (x : A) :
  List.find p l = None -> p x = true -> List.find p (l ++ [x]) = Some x.
Proof.
  intros Hnone Hx. induction l as [|y l IH]; cbn in *; [now rewrite Hx |].
  destruct (p y); [discriminate | auto].
Qed.

Lemma find_updateFirst {A} (p : A -> bool) (y : A) (l : list A) :
  p y = true -> List.find p l <> None ->
  List.find p (updateFirst p (fun _ => y) l) = Some y.
Proof.
  intros Hy. induction l as [|x l IH]; cbn; [congruence |].
  destruct (p x) eqn:Hx; cbn; [now rewrite Hy | rewrite Hx; auto].
Qed.

Lemma existsb_users_other (userId other : string) (l : list TotpUserEntry) :
  other <> userId ->
  existsb (isUser other) (removeFirst (isUser userId) l) = existsb (isUser other) l.
Proof.
  intros Hne. induction l as [|u l IH]; [reflexivity |]. cbn.
  destruct (isUser userId u) eqn:Hu.
  - unfold isUser in *. apply String.eqb_eq in Hu.
    destruct (String.eqb_spec (telegramUserId u) other) as [Heq | _]; [congruence | reflexivity].
  - cbn. now rewrite IH.
Qed.

Lemma existsb_users_removed (userId : string) (l : list TotpUserEntry) :
  NoDup (map telegramUserId l) ->
  existsb (isUser userId) (removeFirst (isUser userId) l) = false.
Proof.
  induction l as [|u l IH]; [reflexivity |]. cbn. intros Hnd.
  apply NoDup_cons in Hnd. destruct Hnd as [Hnotin Hnd].
  destruct (isUser userId u) eqn:Hu.
  - unfold isUser in Hu. apply String.eqb_eq in Hu. subst userId.
    apply not_true_is_false. intros Hex. apply existsb_exists in Hex.
    destruct Hex as (u' & Hin & Hu'). unfold isUser in Hu'. apply String.eqb_eq in Hu'.
    apply Hnotin. rewrite <- Hu'. apply list_elem_of_In. now apply in_map.
  - cbn. rewrite Hu. auto.
Qed.

End StoreFacts.

Section Sessions.

Import TotpStore.

Variable hmacSha1 : list Z -> list Z -> list Z.

Lemma enroll_new (userId : string) (label : option string) (secret : list Z) (now : Z)
    (st : State) :
  isUserEnrolled userId st = false ->
  let l := readJsonFile (ensureJsonFile st) in
  let entry := mkUser userId (Totp.encodeBase32 secret) (Iso now)
                      (if Js.truthyOpt label then label else None) in
  exists st1,
    enrollTotpUser userId label secret now st = (Ok (Totp.encodeBase32 secret), st1) /\
    file st1 = Stored (mkStore (users (store l) ++ [entry]) (sessions (store l))
                               (rateLimits (store l))).
Proof.
  intros Hnew l entry. unfold enrollTotpUser. fold l.
  unfold isUserEnrolled in Hnew. rewrite <- read_ensure in Hnew. fold l in Hnew.
  apply find_none_existsb in Hnew. rewrite Hnew.
  eexists. split; reflexivity.
Qed.

Lemma verify_right_code (userId code : string) (secret : list Z)
    (sessionDurationSec maxAttempts windowSec now : Z) (st : State) (s : TotpStore)
    (user : TotpUserEntry) :
  file st = Stored s ->
  List.find (isUser userId) (users s) = Some user ->
  List.find (isLimitOf userId) (rateLimits s) = None ->
  (0 < maxAttempts)%Z ->
  Totp.decodeBase32 (secretBase32 user) = Ok secret ->
  Totp.verifyTotp hmacSha1 secret code Totp.DEFAULT_WINDOW Totp.DEFAULT_TIME_STEP
                  Totp.DEFAULT_DIGITS now = Ok true ->
  (Z.abs (now + sessionDurationSec * 1000) <= 8640000000000000)%Z ->
  exists st2 limits,
    verifyAndCreateSession hmacSha1 userId code sessionDurationSec maxAttempts windowSec
                           now st = (Ok true, st2) /\
    file st2 =
      Stored (mkStore (users s)
                (List.filter (fun x => negb (isSessionOf userId x)) (sessions s)
                 ++ [mkSession userId (Iso now) (Iso (now + sessionDurationSec * 1000))])
                limits).
Proof.
  intros Hfile Huser Hlimit Hmax Hsecret Hvalid Hrange.
  assert (Hensure : ensureJsonFile st = st) by (unfold ensureJsonFile; now rewrite Hfile).
  assert (Hread : readJsonFile st = mkLoaded s false)
    by (unfold readJsonFile; now rewrite Hfile).
  unfold verifyAndCreateSession. rewrite Hensure, Hread.
  cbn [store aliased]. rewrite Huser, Hlimit. cbn [default].
  assert (Hfresh : refreshed windowSec now (mkRateLimit userId 0 (Iso now))
                   = mkRateLimit userId 0 (Iso now)).
  { unfold refreshed. destruct (windowOver _ _ _); reflexivity. }
  rewrite Hfresh. cbn [attempts].
  replace (maxAttempts <=? 0)%Z with false by (symmetry; apply Z.leb_gt; lia).
  rewrite Hsecret, Hvalid. unfold toISOString.
  replace (Z.abs (now + sessionDurationSec * 1000) <=? 8640000000000000)%Z with true
    by (symmetry; apply Z.leb_le; lia).
  unfold shareRateLimits. cbn [aliased].
  eexists. eexists. split; reflexivity.
Qed.

Lemma session_is_valid (userId : string) (st : State) (s : TotpStore)
    (before : list TotpSession) (authenticated : Stamp) (expires now : Z) :
  file st = Stored s ->
  sessions s = before ++ [mkSession userId authenticated (Iso expires)] ->
  (now < expires)%Z ->
  hasValidSession userId now st = true.
Proof.
  intros Hfile Hsessions Hnow. unfold hasValidSession, readJsonFile. rewrite Hfile.
  cbn [store]. rewrite Hsessions, existsb_app. cbn.
  unfold isSessionOf. cbn. rewrite String.eqb_refl.
  replace (now <? expires)%Z with true by (symmetry; apply Z.ltb_lt; lia).
  apply orb_true_r.
Qed.

End Sessions.

(** X25: the secret that enrolment hands out opens a session.  A user
    who is not yet enrolled and has no attempts on record is enrolled
    with a secret of bytes; the base32 text returned decodes to that
    secret; the code generated from it is accepted at the instant it was
    generated for; and from then until the session runs out the user has
    a valid session. *)
Theorem enrolled_secret_opens_a_session (hmacSha1 : list Z -> list Z -> list Z)
    (userId : string) (label : option string) (secret : list Z)
    (enrolledAt verifiedAt askedAt sessionDurationSec maxAttempts windowSec : Z)
    (st : TotpStore.State) :
  Forall isByte secret ->
  TotpStore.isUserEnrolled userId st = false ->
  List.find (TotpStore.isLimitOf userId)
            (TotpStore.rateLimits (TotpStore.store (TotpStore.readJsonFile st))) = None ->
  (0 < maxAttempts)%Z ->
  (30000 <= verifiedAt)%Z ->
  (Z.abs (verifiedAt + sessionDurationSec * 1000) <= 8640000000000000)%Z ->
  (verifiedAt <= 8640000000000000)%Z ->
  (askedAt < verifiedAt + sessionDurationSec * 1000)%Z ->
  exists secretBase32 st1 code st2,
    TotpStore.enrollTotpUser userId label secret enrolledAt st = (Ok secretBase32, st1) /\
    Totp.decodeBase32 secretBase32 = Ok secret /\
    Totp.generateTotp hmacSha1 secret Totp.DEFAULT_TIME_STEP Totp.DEFAULT_DIGITS verifiedAt
      = Ok code /\
    TotpStore.verifyAndCreateSession hmacSha1 userId code sessionDurationSec maxAttempts
                                     windowSec verifiedAt st1 = (Ok true, st2) /\
    TotpStore.hasValidSession userId askedAt st2 = true.
Proof.
  intros Hbytes Hnew Hlimit Hmax Hepoch Hrange Hclock Hasked.
  destruct (enroll_new userId label secret enrolledAt st Hnew) as (st1 & Henroll & Hfile1).
  cbv zeta in Hfile1. rewrite read_ensure in Hfile1.
  set (entry := TotpStore.mkUser userId (Totp.encodeBase32 secret) (TotpStore.Iso enrolledAt)
                                 (if Js.truthyOpt label then label else None)) in *.
  assert (Hstep : (0 <= verifiedAt / (1000 * Totp.DEFAULT_TIME_STEP) - 1 /\
                   verifiedAt / (1000 * Totp.DEFAULT_TIME_STEP) + 1 < 2 ^ 64)%Z).
  { unfold Totp.DEFAULT_TIME_STEP. change (1000 * 30)%Z with 30000%Z.
    split; Z.div_mod_to_equations; lia. }
  destruct (hotpCode_in_range hmacSha1 secret
              (verifiedAt / (1000 * Totp.DEFAULT_TIME_STEP)) Totp.DEFAULT_DIGITS)
    as [code Hcode]; [lia |].
  assert (Hgenerated : Totp.generateTotp hmacSha1 secret Totp.DEFAULT_TIME_STEP
                         Totp.DEFAULT_DIGITS verifiedAt = Ok code) by exact Hcode.
  assert (Hvalid : Totp.verifyTotp hmacSha1 secret code Totp.DEFAULT_WINDOW
                     Totp.DEFAULT_TIME_STEP Totp.DEFAULT_DIGITS verifiedAt = Ok true).
  { apply (verifyTotp_accepts hmacSha1 secret code _ _ _ verifiedAt verifiedAt);
      unfold Totp.DEFAULT_WINDOW; try lia. exact Hgenerated. }
  unfold TotpStore.isUserEnrolled in Hnew. apply find_none_existsb in Hnew.
  destruct (verify_right_code hmacSha1 userId code secret sessionDurationSec maxAttempts
              windowSec verifiedAt st1 _ entry Hfile1)
    as (st2 & limits & Hverify & Hfile2); try assumption.
  - cbn [TotpStore.users]. apply find_app_new; [exact Hnew |].
    unfold TotpStore.isUser. cbn. apply String.eqb_refl.
  - cbn [TotpStore.secretBase32 entry]. now apply decode_encode.
  - exists (Totp.encodeBase32 secret), st1, code, st2.
    split; [exact Henroll |]. split; [now apply decode_encode |].
    split; [exact Hgenerated |]. split; [exact Hverify |].
    eapply session_is_valid; [exact Hfile2 | reflexivity | exact Hasked].
Qed.

Section Lockout.

Import TotpStore.

Variable hmacSha1 : list Z -> list Z -> list Z.

Variables (userId : string) (secret : list Z) (s : TotpStore) (user : TotpUserEntry).
Variables (sessionDurationSec maxAttempts windowSec : Z).

Hypothesis enrolled : List.find (isUser userId) (users s) = Some user.
Hypothesis decodes : Totp.decodeBase32 (secretBase32 user) = Ok secret.

Lemma within_window (k start now : Z) :
  (now - start <= windowSec * 1000)%Z ->
  refreshed windowSec now (mkRateLimit userId k (Iso start)) = mkRateLimit userId k (Iso start).
Proof.
  intros Hin. unfold refreshed, windowOver. cbn.
  now replace (windowSec * 1000 <? now - start)%Z with false by (symmetry; apply Z.ltb_ge; lia).
Qed.

(** A wrong code within the window is one more attempt on record. *)
Lemma wrong_code_counts (k start : Z) (try : string * Z) (st : State) :
  onRecord userId k start s st ->
  wrongWithin hmacSha1 secret windowSec start try ->
  (k < maxAttempts)%Z ->
  onRecord userId (k + 1) start s
    (snd (verifyAndCreateSession hmacSha1 userId (fst try) sessionDurationSec maxAttempts
                                 windowSec (snd try) st)).
Proof.
  intros (limits & Hfile & Hentry) [Hwrong Hin] Hk.
  destruct (stored_read st _ Hfile) as [Hensure Hread].
  unfold verifyAndCreateSession. rewrite Hensure, Hread.
  cbn [store aliased users sessions rateLimits]. rewrite enrolled, Hentry. cbn [default]. unfold id.
  rewrite within_window by assumption. cbn [attempts].
  replace (maxAttempts <=? k)%Z with false by (symmetry; apply Z.leb_gt; lia).
  rewrite decodes, Hwrong. unfold shareRateLimits. cbn [aliased snd].
  eexists. split; [reflexivity |].
  apply find_updateFirst; [apply String.eqb_refl | congruence].
Qed.

(** The first wrong code opens the window. *)
Lemma first_wrong_code (try : string * Z) (st : State) :
  file st = Stored s ->
  List.find (isLimitOf userId) (rateLimits s) = None ->
  wrongWithin hmacSha1 secret windowSec (snd try) try ->
  (0 < maxAttempts)%Z ->
  onRecord userId 1 (snd try) s
    (snd (verifyAndCreateSession hmacSha1 userId (fst try) sessionDurationSec maxAttempts
                                 windowSec (snd try) st)).
Proof.
  intros Hfile Hnone [Hwrong Hin] Hmax.
  destruct (stored_read st _ Hfile) as [Hensure Hread].
  unfold verifyAndCreateSession. rewrite Hensure, Hread.
  cbn [store aliased]. rewrite enrolled, Hnone. cbn [default]. unfold id.
  rewrite within_window by assumption. cbn [attempts].
  replace (maxAttempts <=? 0)%Z with false by (symmetry; apply Z.leb_gt; lia).
  rewrite decodes, Hwrong. unfold shareRateLimits. cbn [aliased snd].
  eexists. split; [destruct s; reflexivity |].
  apply find_updateFirst; [apply String.eqb_refl |].
  rewrite (find_app_new _ _ _ Hnone); [discriminate | apply String.eqb_refl].
Qed.

Lemma wrong_codes_count (tries : list (string * Z)) :
  forall (k start : Z) (st : State),
    onRecord userId k start s st ->
    Forall (wrongWithin hmacSha1 secret windowSec start) tries ->
    (k + Z.of_nat (length tries) <= maxAttempts)%Z ->
    onRecord userId (k + Z.of_nat (length tries)) start s
      (attemptAll hmacSha1 userId tries sessionDurationSec maxAttempts windowSec st).
Proof.
  induction tries as [|[code at_] tries IH]; intros k start st Hrec Hall Hroom.
  - cbn. now rewrite Z.add_0_r.
  - inversion Hall as [|try rest Htry Hrest]; subst try rest.
    cbn [attemptAll length] in *. rewrite Nat2Z.inj_succ in *.
    replace (k + Z.succ (Z.of_nat (length tries)))%Z
      with ((k + 1) + Z.of_nat (length tries))%Z by lia.
    apply IH; [| assumption | lia].
    apply (wrong_code_counts k start (code, at_)); [assumption | assumption | lia].
Qed.

(** With [maxAttempts] on record and the window not over, nothing is
    checked any more. *)
Lemma locked_out (start now : Z) (code : string) (st : State) :
  onRecord userId maxAttempts start s st ->
  (now - start <= windowSec * 1000)%Z ->
  fst (verifyAndCreateSession hmacSha1 userId code sessionDurationSec maxAttempts
                              windowSec now st) = Ok false /\
  onRecord userId maxAttempts start s
    (snd (verifyAndCreateSession hmacSha1 userId code sessionDurationSec maxAttempts
                                 windowSec now st)) /\
  fst (checkRateLimit userId maxAttempts windowSec now st) = Ok false.
Proof.
  intros (limits & Hfile & Hentry) Hin.
  destruct (stored_read st _ Hfile) as [Hensure Hread].
  unfold verifyAndCreateSession, checkRateLimit. rewrite Hensure, Hread.
  cbn [store aliased users sessions rateLimits]. rewrite enrolled, Hentry. cbn [default]. unfold id.
  rewrite within_window by assumption. cbn [attempts].
  rewrite Z.leb_refl. unfold shareRateLimits. cbn [aliased fst snd].
  split; [reflexivity |]. split; [| reflexivity].
  eexists. split; [reflexivity |].
  apply find_updateFirst; [apply String.eqb_refl | congruence].
Qed.

End Lockout.

(** X26: wrong codes lock the user out.  After [maxAttempts] codes that
    were not accepted, all tried within [windowSec] of the first, the
    next attempt within that window is refused whatever its code, the
    right one included: the rate limit answers no, no session is created
    and the attempts stay on record. *)
Theorem wrong_codes_lock_the_user_out (hmacSha1 : list Z -> list Z -> list Z)
    (userId code : string) (secret : list Z) (s : TotpStore.TotpStore)
    (user : TotpStore.TotpUserEntry) (first : string * Z) (tries : list (string * Z))
    (sessionDurationSec maxAttempts windowSec now : Z) (st : TotpStore.State) :
  TotpStore.file st = TotpStore.Stored s ->
  List.find (TotpStore.isUser userId) (TotpStore.users s) = Some user ->
  List.find (TotpStore.isLimitOf userId) (TotpStore.rateLimits s) = None ->
  Totp.decodeBase32 (TotpStore.secretBase32 user) = Ok secret ->
  Forall (wrongWithin hmacSha1 secret windowSec (snd first)) (first :: tries) ->
  Z.of_nat (length (first :: tries)) = maxAttempts ->
  (now - snd first <= windowSec * 1000)%Z ->
  let locked :=
    attemptAll hmacSha1 userId (first :: tries) sessionDurationSec maxAttempts windowSec st in
  let after :=
    TotpStore.verifyAndCreateSession hmacSha1 userId code sessionDurationSec maxAttempts
                                     windowSec now locked in
  fst (TotpStore.checkRateLimit userId maxAttempts windowSec now locked) = Ok false /\
  fst after = Ok false /\
  onRecord userId maxAttempts (snd first) s (snd after).
Proof.
  intros Hfile Huser Hnone Hsecret Hall Hcount Hnow locked after.
  inversion Hall as [|try rest Hfirst Hrest]; subst try rest.
  cbn [length] in Hcount. rewrite Nat2Z.inj_succ in Hcount.
  assert (Hlocked : onRecord userId maxAttempts (snd first) s locked).
  { subst locked. destruct first as [code0 at0]. cbn [attemptAll snd] in *.
    replace maxAttempts with (1 + Z.of_nat (length tries))%Z by lia.
    eapply wrong_codes_count; try eassumption; [| lia].
    apply (first_wrong_code hmacSha1 userId secret s user sessionDurationSec
             (1 + Z.of_nat (length tries)) windowSec Huser Hsecret (code0, at0));
      [assumption | assumption | assumption | lia]. }
  destruct (locked_out hmacSha1 userId s user sessionDurationSec maxAttempts windowSec
              Huser (snd first) now code locked Hlocked Hnow)
    as (Hrefused & Hstill & Hlimit).
  subst after. split; [exact Hlimit |]. split; [exact Hrefused | exact Hstill].
Qed.

Section Revocation.

Import TotpStore.

Lemma userIds_ensure (st : State) : userIds (ensureJsonFile st) = userIds st.
Proof. unfold userIds, listTotpUsers. now rewrite read_ensure. Qed.

Lemma sessions_of_other (userId other : string) (now : Z) (l : list TotpSession) :
  let valid other s :=
    isSessionOf other s &&
    match parse (expiresAt s) with
    | Some expires => (now <? expires)%Z
    | None => false
    end in
  existsb (valid other) (List.filter (fun s => negb (isSessionOf userId s)) l)
  = if String.eqb other userId then false else existsb (valid other) l.
Proof.
  intros valid. induction l as [|x l IH]; cbn.
  - now destruct (String.eqb other userId).
  - unfold isSessionOf at 1. destruct (String.eqb_spec (sessionUserId x) userId) as [Hx | Hx];
      cbn; rewrite IH; destruct (String.eqb_spec other userId) as [Ho | Ho];
      try reflexivity; subst valid; cbn; unfold isSessionOf.
    + destruct (String.eqb_spec (sessionUserId x) other); [congruence | reflexivity].
    + subst other. destruct (String.eqb_spec (sessionUserId x) userId); [contradiction | reflexivity].
Qed.

Lemma revoke_enrolled (userId : string) (st : State) :
  isUserEnrolled userId st = true ->
  let s := store (readJsonFile st) in
  exists st',
    revokeTotpUser userId st = (Ok true, st') /\
    file st' =
      Stored (mkStore (removeFirst (isUser userId) (users s))
                      (List.filter (fun x => negb (isSessionOf userId x)) (sessions s))
                      (List.filter (fun r => negb (isLimitOf userId r)) (rateLimits s))).
Proof.
  intros Henrolled s. unfold revokeTotpUser. rewrite read_ensure.
  unfold isUserEnrolled in Henrolled. rewrite Henrolled.
  eexists. split; reflexivity.
Qed.

End Revocation.

(** X27: enrolment never enrols a user twice.  If no user id occurs
    twice in the list of users, none does after an enrolment, whether it
    went through or was refused. *)
Theorem enrolment_keeps_users_unique (userId : string) (label : option string)
    (secret : list Z) (now : Z) (st : TotpStore.State) :
  NoDup (userIds st) ->
  NoDup (userIds (snd (TotpStore.enrollTotpUser userId label secret now st))).
Proof.
  intros Hunique. unfold TotpStore.enrollTotpUser.
  destruct (List.find _ _) as [existing |] eqn:Hfind; cbn [snd].
  - now rewrite userIds_ensure.
  - unfold userIds, TotpStore.listTotpUsers. cbn.
    rewrite read_ensure in *. rewrite map_app. cbn.
    apply NoDup_app. split; [exact Hunique |]. split; [| apply NoDup_singleton].
    intros id Hin Hnew. apply list_elem_of_In in Hin.
    rewrite list_elem_of_singleton in Hnew. subst id.
    apply in_map_iff in Hin. destruct Hin as (u & Hid & Hin).
    apply (find_none _ _ Hfind) in Hin. unfold TotpStore.isUser in Hin.
    rewrite Hid, String.eqb_refl in Hin. discriminate.
Qed.

(** X28: revoking forgets the user and nobody else.  With no user id
    occurring twice, revoking an enrolled user answers [true]; afterwards
    the user is not enrolled and has no valid session at any instant,
    and for every other user enrolment and sessions are as before. *)
Theorem revoke_forgets_the_user (userId : string) (st : TotpStore.State) :
  NoDup (userIds st) ->
  TotpStore.isUserEnrolled userId st = true ->
  exists st',
    TotpStore.revokeTotpUser userId st = (Ok true, st') /\
    TotpStore.isUserEnrolled userId st' = false /\
    (forall now, TotpStore.hasValidSession userId now st' = false) /\
    forall other now,
      other <> userId ->
      TotpStore.isUserEnrolled other st' = TotpStore.isUserEnrolled other st /\
      TotpStore.hasValidSession other now st' = TotpStore.hasValidSession other now st.
Proof.
  intros Hunique Henrolled.
  destruct (revoke_enrolled userId st Henrolled) as (st' & Hrevoke & Hfile).
  cbv zeta in Hfile. exists st'. split; [exact Hrevoke |].
  assert (Hread : TotpStore.readJsonFile st' = TotpStore.mkLoaded _ false)
    by (unfold TotpStore.readJsonFile; rewrite Hfile; reflexivity).
  unfold TotpStore.isUserEnrolled, TotpStore.hasValidSession. rewrite Hread.
  cbn [TotpStore.store TotpStore.users TotpStore.sessions].
  split; [now apply existsb_users_removed |].
  split.
  - intros now. rewrite (sessions_of_other userId userId now). now rewrite String.eqb_refl.
  - intros other now Hother. split; [now apply existsb_users_other |].
    rewrite (sessions_of_other userId other now).
    now destruct (String.eqb_spec other userId).
Qed.

Section Gate.

Import TotpStore.

Variable hmacSha1 : list Z -> list Z -> list Z.

Lemma users_shareRateLimits (l : Loaded) (rs : list TotpRateLimit) (st : State) :
  users (store (readJsonFile (ensureJsonFile (shareRateLimits l rs st))))
  = users (store (readJsonFile st)).
Proof.
  rewrite read_ensure. unfold shareRateLimits, readJsonFile.
  destruct (aliased l); [| reflexivity]. cbn. now destruct (file st).
Qed.

Lemma checkRateLimit_users (userId : string) (maxAttempts windowSec now : Z)
    (st st' : State) :
  checkRateLimit userId maxAttempts windowSec now st = (Ok true, st') ->
  users (store (readJsonFile (ensureJsonFile st'))) = users (store (readJsonFile st)).
Proof.
  unfold checkRateLimit.
  destruct (List.find _ _) as [entry |].
  - destruct (_ <=? _)%Z; [discriminate |]. intros [= <-].
    rewrite users_shareRateLimits. now rewrite read_ensure.
  - intros [= <-]. now rewrite !read_ensure.
Qed.

Lemma verified_inv (userId code : string) (sessionDurationSec maxAttempts windowSec now : Z)
    (st st' : State) :
  verifyAndCreateSession hmacSha1 userId code sessionDurationSec maxAttempts windowSec now st
  = (Ok true, st') ->
  exists user secret s',
    List.find (isUser userId) (users (store (readJsonFile (ensureJsonFile st)))) = Some user /\
    Totp.decodeBase32 (secretBase32 user) = Ok secret /\
    Totp.verifyTotp hmacSha1 secret code Totp.DEFAULT_WINDOW Totp.DEFAULT_TIME_STEP
                    Totp.DEFAULT_DIGITS now = Ok true /\
    file st' = Stored s' /\
    exists before,
      sessions s' = before ++ [mkSession userId (Iso now) (Iso (now + sessionDurationSec * 1000))].
Proof.
  unfold verifyAndCreateSession.
  destruct (List.find (isUser userId) _) as [user |] eqn:Huser; [| discriminate].
  destruct (_ <=? _)%Z; [discriminate |].
  destruct (Totp.decodeBase32 _) as [secret |] eqn:Hsecret; [| discriminate].
  destruct (Totp.verifyTotp _ _ _ _ _ _ _) as [[|] |] eqn:Hvalid; try discriminate.
  unfold toISOString. destruct (_ <=? _)%Z; [| discriminate].
  intros [= <-]. exists user, secret. eexists.
  split; [reflexivity |]. split; [exact Hsecret |]. split; [exact Hvalid |].
  split; [reflexivity |]. eexists. reflexivity.
Qed.

End Gate.

(** X29: the gate answers "verified" only to a code that is right.
    Whenever [checkTotpGate] reports a verification, the sender is
    enrolled and had no valid session, the trimmed message is six
    digits, these digits are accepted as a code of a secret stored for
    the sender, and from now until the session runs out the sender has a
    valid session. *)
Theorem gate_verifies_only_right_codes (hmacSha1 : list Z -> list Z -> list Z)
    (userId messageText : string) (totpConfig : TotpStore.TelegramTotpConfig)
    (now : Z) (st st' : TotpStore.State) :
  TotpStore.checkTotpGate hmacSha1 userId messageText totpConfig now st
  = (Ok TotpStore.Verified, st') ->
  TotpStore.hasValidSession userId now st = false /\
  TotpStore.isCode (Js.trim messageText) = true /\
  (exists user secret,
     In user (TotpStore.listTotpUsers st) /\
     TotpStore.telegramUserId user = userId /\
     Totp.decodeBase32 (TotpStore.secretBase32 user) = Ok secret /\
     Totp.verifyTotp hmacSha1 secret (Js.trim messageText) Totp.DEFAULT_WINDOW
                     Totp.DEFAULT_TIME_STEP Totp.DEFAULT_DIGITS now = Ok true) /\
  forall askedAt,
    (askedAt < now + default TotpStore.DEFAULT_SESSION_DURATION
                             (TotpStore.sessionDurationSeconds totpConfig) * 1000)%Z ->
    TotpStore.hasValidSession userId askedAt st' = true.
Proof.
  unfold TotpStore.checkTotpGate.
  destruct (TotpStore.isUserEnrolled userId st); cbn [negb]; [| discriminate].
  destruct (TotpStore.hasValidSession userId now st); [discriminate |].
  destruct (TotpStore.isCode (Js.trim messageText)); [| discriminate].
  destruct (TotpStore.checkRateLimit _ _ _ _ _) as [[[|] |] stA] eqn:Hlimit;
    try discriminate.
  destruct (TotpStore.verifyAndCreateSession _ _ _ _ _ _ _ _) as [[[|] |] stB] eqn:Hverify;
    try discriminate.
  intros [= <-].
  destruct (verified_inv hmacSha1 _ _ _ _ _ _ _ _ Hverify)
    as (user & secret & s' & Huser & Hsecret & Hvalid & Hfile & before & Hsessions).
  rewrite (checkRateLimit_users _ _ _ _ _ _ Hlimit) in Huser.
  split; [reflexivity |]. split; [reflexivity |]. split.
  - exists user, secret. apply find_some in Huser. destruct Huser as [Hin Hid].
    unfold TotpStore.isUser in Hid. apply String.eqb_eq in Hid.
    repeat split; assumption.
  - intros askedAt Hasked. eapply session_is_valid; eassumption.
Qed.

(** X30: with a valid session the tool gate is transparent.  Whatever
    groups are protected, every tool of the wrapped list answers a call
    from a sender with a valid session as the tool in its place answered
    before. *)
Theorem tool_gate_is_transparent_with_a_session
    (expandToolGroups : list string -> list string) (normalizeToolName : string -> string)
    (senderId : string) (tools : list TotpStore.AnyAgentTool)
    (totpConfig : TotpStore.TelegramTotpConfig) (toolParams : string) (now : Z)
    (st : TotpStore.State) :
  TotpStore.hasValidSession senderId now st = true ->
  map (fun t => TotpStore.callTool senderId t toolParams now st)
      (TotpStore.wrapToolsWithTotpGate expandToolGroups normalizeToolName tools totpConfig)
  = map (fun tool => TotpStore.callTool senderId (TotpStore.Untouched tool) toolParams now st)
        tools.
Proof.
  intros Hsession. unfold TotpStore.wrapToolsWithTotpGate.
  destruct (TotpStore.protectedToolGroups totpConfig) as [[|group groups] |];
    rewrite map_map; try reflexivity.
  apply map_ext. intros tool.
  destruct (negb _); [reflexivity |].
  destruct (TotpStore.execute tool) as [run |] eqn:Hrun; cbn; [| now rewrite Hrun].
  now rewrite Hsession, Hrun.
Qed.

(** Without a session a protected tool does not run.  A tool whose
    normalized name is among the protected ones and that can be executed
    answers a sender without a valid session with the authentication
    error, whatever the tool itself would have answered. *)
Lemma protected_tool_needs_a_session
    (expandToolGroups : list string -> list string) (normalizeToolName : string -> string)
    (senderId : string) (tool : TotpStore.AnyAgentTool) (run : string -> Result string)
    (groups : list string) (cfg : TotpStore.TelegramTotpConfig) (toolParams : string)
    (now : Z) (st : TotpStore.State) :
  TotpStore.protectedToolGroups cfg = Some groups ->
  groups <> [] ->
  In (normalizeToolName (TotpStore.name tool)) (expandToolGroups groups) ->
  TotpStore.execute tool = Some run ->
  TotpStore.hasValidSession senderId now st = false ->
  map (fun t => TotpStore.callTool senderId t toolParams now st)
      (TotpStore.wrapToolsWithTotpGate expandToolGroups normalizeToolName [tool] cfg)
  = [Threw ("TOTP authentication required. Tool " +:+ TotpStore.name tool
            +:+ " is protected by two-factor authentication.")].
Proof.
  intros Hgroups Hne Hin Hrun Hsession. unfold TotpStore.wrapToolsWithTotpGate.
  rewrite Hgroups. destruct groups as [|group groups]; [contradiction |].
  cbn [map].
  assert (Hprotected : existsb (String.eqb (normalizeToolName (TotpStore.name tool)))
                               (expandToolGroups (group :: groups)) = true).
  { apply existsb_exists. eexists. split; [exact Hin | apply String.eqb_refl]. }
  rewrite Hprotected, Hrun. cbn. now rewrite Hsession.
Qed.

(** * The two-factor code, by example *)

Ltac by_computation :=
  repeat split; vm_compute; first [reflexivity | discriminate | congruence].

(** "foobar" *)
Lemma base32_round_trip_witness :
  Totp.decodeBase32 (Totp.encodeBase32 [102; 111; 111; 98; 97; 114]%Z)
  = Ok [102; 111; 111; 98; 97; 114]%Z.
Proof.
  apply base32_round_trip.
  repeat (apply List.Forall_cons; [unfold isByte; lia |]). apply List.Forall_nil.
Defined.

(** The code of midnight is still good 45 seconds later, one time step
    on. *)
Lemma generated_code_is_accepted_witness :
  Totp.verifyTotp TotpScenario.hmac TotpScenario.secret TotpScenario.code 1 30 6
                  (TotpScenario.newYear + 45000) = Ok true.
Proof.
  apply (generated_code_is_accepted TotpScenario.hmac TotpScenario.secret TotpScenario.code
           1 30 6 TotpScenario.newYear (TotpScenario.newYear + 45000)); by_computation.
Defined.

Lemma accepted_code_is_of_the_window_witness :
  exists j, (- (1) <= j <= 1)%Z /\
            Totp.hotpCode TotpScenario.hmac TotpScenario.secret
                          ((TotpScenario.newYear + 45000) / (1000 * 30) + j) 6
            = Ok TotpScenario.code.
Proof.
  apply (accepted_code_is_of_the_window TotpScenario.hmac TotpScenario.secret
           TotpScenario.code 1 30 6 (TotpScenario.newYear + 45000)).
  vm_compute. reflexivity.
Defined.

(** The test of the tool gate: enrol, generate, verify; the session is
    good until the hour is over. *)
Lemma enrolled_secret_opens_a_session_witness :
  exists secretBase32 st1 code st2,
    TotpStore.enrollTotpUser "12345" None TotpScenario.secret TotpScenario.newYear
                             TotpStore.initial = (Ok secretBase32, st1) /\
    Totp.decodeBase32 secretBase32 = Ok TotpScenario.secret /\
    Totp.generateTotp TotpScenario.hmac TotpScenario.secret Totp.DEFAULT_TIME_STEP
                      Totp.DEFAULT_DIGITS TotpScenario.newYear = Ok code /\
    TotpStore.verifyAndCreateSession TotpScenario.hmac "12345" code 3600 5 300
                                     TotpScenario.newYear st1 = (Ok true, st2) /\
    TotpStore.hasValidSession "12345" (TotpScenario.newYear + 3599999) st2 = true.
Proof.
  apply (enrolled_secret_opens_a_session TotpScenario.hmac "12345" None TotpScenario.secret
           TotpScenario.newYear TotpScenario.newYear (TotpScenario.newYear + 3599999)
           3600 5 300 TotpStore.initial); try by_computation.
  repeat (apply List.Forall_cons; [unfold isByte; lia |]). apply List.Forall_nil.
Defined.

(** Five wrong guesses; the right code, twenty seconds later, is
    refused. *)
Lemma wrong_codes_lock_the_user_out_witness :
  let locked :=
    attemptAll TotpScenario.hmac "12345" (TotpScenario.firstGuess :: TotpScenario.moreGuesses)
               3600 5 300 TotpScenario.enrolled in
  let after :=
    TotpStore.verifyAndCreateSession TotpScenario.hmac "12345" TotpScenario.code 3600 5 300
                                     (TotpScenario.newYear + 20000) locked in
  fst (TotpStore.checkRateLimit "12345" 5 300 (TotpScenario.newYear + 20000) locked)
  = Ok false /\
  fst after = Ok false /\
  onRecord "12345" 5 (snd TotpScenario.firstGuess) TotpScenario.enrolledStore (snd after).
Proof.
  apply (wrong_codes_lock_the_user_out TotpScenario.hmac "12345" TotpScenario.code
           TotpScenario.secret TotpScenario.enrolledStore TotpScenario.entry
           TotpScenario.firstGuess TotpScenario.moreGuesses 3600 5 300
           (TotpScenario.newYear + 20000) TotpScenario.enrolled).
  - reflexivity.
  - reflexivity.
  - reflexivity.
  - vm_compute. reflexivity.
  - repeat (apply List.Forall_cons; [unfold wrongWithin; by_computation |]).
    apply List.Forall_nil.
  - reflexivity.
  - by_computation.
Defined.

Lemma enrolment_keeps_users_unique_witness :
  NoDup (userIds (snd (TotpStore.enrollTotpUser "67890" (Some "ann") TotpScenario.secret
                         (TotpScenario.newYear + 1) TotpScenario.enrolled))).
Proof.
  apply enrolment_keeps_users_unique. change (NoDup ["12345"]). apply NoDup_singleton.
Defined.

Lemma revoke_forgets_the_user_witness :
  exists st',
    TotpStore.revokeTotpUser "12345" TotpScenario.signedIn = (Ok true, st') /\
    TotpStore.isUserEnrolled "12345" st' = false /\
    (forall now, TotpStore.hasValidSession "12345" now st' = false) /\
    forall other now,
      other <> "12345" ->
      TotpStore.isUserEnrolled other st' = TotpStore.isUserEnrolled other TotpScenario.signedIn /\
      TotpStore.hasValidSession other now st'
      = TotpStore.hasValidSession other now TotpScenario.signedIn.
Proof.
  apply (revoke_forgets_the_user "12345" TotpScenario.signedIn).
  - change (NoDup ["12345"]). apply NoDup_singleton.
  - vm_compute. reflexivity.
Defined.

(** The code, with white space around it, typed into the chat. *)
Lemma gate_verifies_only_right_codes_witness :
  let message := " " +:+ TotpScenario.code +:+ " " in
  let config := TotpStore.mkTotpConfig (Some 3600%Z) None None None in
  let st' := snd (TotpStore.checkTotpGate TotpScenario.hmac "12345" message config
                    TotpScenario.newYear TotpScenario.enrolled) in
  TotpStore.hasValidSession "12345" TotpScenario.newYear TotpScenario.enrolled = false /\
  TotpStore.isCode (Js.trim message) = true /\
  (exists user secret,
     In user (TotpStore.listTotpUsers TotpScenario.enrolled) /\
     TotpStore.telegramUserId user = "12345" /\
     Totp.decodeBase32 (TotpStore.secretBase32 user) = Ok secret /\
     Totp.verifyTotp TotpScenario.hmac secret (Js.trim message) Totp.DEFAULT_WINDOW
                     Totp.DEFAULT_TIME_STEP Totp.DEFAULT_DIGITS TotpScenario.newYear
     = Ok true) /\
  forall askedAt,
    (askedAt < TotpScenario.newYear + 3600 * 1000)%Z ->
    TotpStore.hasValidSession "12345" askedAt st' = true.
Proof.
  intros message config st'.
  apply (gate_verifies_only_right_codes TotpScenario.hmac "12345" message config
           TotpScenario.newYear TotpScenario.enrolled st').
  vm_compute. reflexivity.
Defined.

(** Signed in, the sender runs the protected tool and the other one. *)
Lemma tool_gate_is_transparent_with_a_session_witness :
  map (fun t => TotpStore.callTool "12345" t "ls" TotpScenario.newYear TotpScenario.signedIn)
      (TotpStore.wrapToolsWithTotpGate (fun groups => groups) (fun name => name)
                                       TotpScenario.tools TotpScenario.guarded)
  = [Ok "exec ls"; Ok "idle"].
Proof.
  exact (eq_trans
           (tool_gate_is_transparent_with_a_session (fun groups => groups) (fun name => name)
              "12345" TotpScenario.tools TotpScenario.guarded "ls" TotpScenario.newYear
              TotpScenario.signedIn eq_refl)
           eq_refl).
Defined.
